(** * A shallow embedding of bun's SELECT query engine, hook pipeline and
      PostgreSQL integer appenders.

    Sources embedded:
    - [src/hook.go], first part (package bun, hook.go): [beforeQuery],
      [afterQuery], [afterQueryFromIndex], [callHookSlice], [callHookSlice2]
      and the per-hook batch wrappers;
    - [src/hook.go], second part (package bun, query_select.go): the
      [SelectQuery] builder, [appendQuery], the terminal calls and [Clone];
      also [RelationWithOpts] and the index-hint builders;
    - [src/unnamed/part_000] (package pgdialect): [AppendUint32],
      [AppendUint64], and the dialect value [New] builds with [Name],
      [Features], [IdentQuote] and [AppendSequence].

    Conventions.  A Go [[]byte] buffer is a [string]; a nil slice that the
    code tells apart from an empty one is [option (list _)] with [None] for
    nil.  A Go [(value, err)] result is a pair whose second component is
    [option error], [None] standing for a nil error.  Code that mutates a
    receiver or the database handle passes the state explicitly. *)

From Stdlib Require Import ZArith String Ascii List Bool Lia DecimalString.
From Stdlib Require Import DecimalZ DecimalPos.
Import ListNotations.

Set Implicit Arguments.

Local Open Scope Z_scope.

(** ** Go values shared by the three packages *)

Definition bytes := string.
Bind Scope string_scope with bytes.

(** Go's [error] values that the code creates or compares against.
    [ErrNoRows] is [sql.ErrNoRows]; [errNilModel] is the package-level
    sentinel of that name; [errorString] covers [errors.New] and
    [fmt.Errorf]. *)
Inductive error : Type :=
| ErrNoRows
| errNilModel
| errorString (msg : string).

Definition error_eq_dec (a b : error) : {a = b} + {a <> b}.
Proof. decide equality; apply string_dec. Defined.

(** [append(b, s...)] on byte buffers. *)
Definition appendStr (b : bytes) (s : string) : bytes := (b ++ s)%string.

(** ** Package pgdialect: rendering unsigned integers *)

Module Pgdialect.

(** Go's integer conversions keep the low bits and reinterpret them:
    [wrapS w z] is [z] converted to the w-bit signed integer type. *)
Definition wrapS (w : Z) (z : Z) : Z := (z + 2 ^ (w - 1)) mod 2 ^ w - 2 ^ (w - 1).

Definition int32 (z : Z) : Z := wrapS 32 z.
Definition int64 (z : Z) : Z := wrapS 64 z.

(** [strconv.AppendInt(b, i, 10)]: the decimal text of [i], with a leading
    minus sign for a negative number. *)
Definition FormatInt10 (i : Z) : string := NilZero.string_of_int (Z.to_int i).
Definition AppendInt10 (b : bytes) (i : Z) : bytes := appendStr b (FormatInt10 i).

(** [func (d *Dialect) AppendUint32(b []byte, n uint32) []byte] *)
Definition AppendUint32 (b : bytes) (n : Z) : bytes :=
  AppendInt10 b (int64 (int32 n)).

(** [func (d *Dialect) AppendUint64(b []byte, n uint64) []byte] *)
Definition AppendUint64 (b : bytes) (n : Z) : bytes :=
  AppendInt10 b (int64 n).

(** The two's-complement reading of a w-bit pattern, from its bits: the top
    bit weighs [-2^(w-1)], the others their usual power of two. *)
Definition twosComplement (w : Z) (n : Z) : Z :=
  (n mod 2 ^ (w - 1)) - (if Z.testbit n (w - 1) then 2 ^ (w - 1) else 0).

Definition isNegativeText (s : string) : Prop :=
  exists digits, s = String "-"%char digits.

End Pgdialect.

(** ** Package bun, hook.go: statement-level and model-level hooks *)

(** An [interface{}] argument bound to a SQL fragment. *)
Inductive value : Type :=
| VNil
| VBool (b : bool)
| VInt (z : Z)
| VString (s : string).

(** What a [*sql.Result] lets the code read. *)
Record sqlResult : Type := mkResult {
  RowsAffected : Z * option error
}.

(** The [schema.QueryAppender] an event refers to: the query itself or one of
    the wrappers of query_select.go. *)
Inductive queryAppender : Type :=
| selectQueryApp
| countQueryApp
| selectExistsQueryApp
| whereExistsQueryApp
| otherQueryApp (operation : string).

Module Hook.

Section QueryHooks.

(** [context.Context], [time.Time], and the state outside the engine that hooks
    and the database act on. *)
Variables (Ctx Time Ext : Type).

(** [type QueryEvent struct].  The back pointer [DB] is left out: the handle
    is passed explicitly wherever the event is. *)
Record QueryEvent : Type := mkQueryEvent {
  QueryAppender : queryAppender;
  Query : bytes;
  QueryArgs : option (list value);
  StartTime : Time;
  Result : option sqlResult;
  Err : option error;
  Stash : list (value * value)
}.

(** [type QueryHook interface].  The event is shared by pointer, so a hook
    returns the event as it left it. *)
Record QueryHook : Type := mkQueryHook {
  BeforeQuery : Ctx -> QueryEvent -> Ext -> Ctx * QueryEvent * Ext;
  AfterQuery : Ctx -> QueryEvent -> Ext -> QueryEvent * Ext
}.

(** [db.stats]: two [uint64] counters. *)
Record DBStats : Type := mkDBStats {
  Queries : Z;
  Errors : Z
}.

(** [atomic.AddUint64(&x, 1)]. *)
Definition AddUint64 (x delta : Z) : Z := (x + delta) mod 2 ^ 64.

(** The fields of [*DB] that hook.go reads and writes. *)
Record DB : Type := mkDB {
  queryHooks : list QueryHook;
  stats : DBStats
}.

Definition withStats (db : DB) (s : DBStats) : DB :=
  {| queryHooks := queryHooks db; stats := s |}.

(** The loop [for _, hook := range db.queryHooks { ctx = hook.BeforeQuery(ctx, event) }]. *)
Fixpoint rangeBeforeQuery (hooks : list QueryHook) (ctx : Ctx) (event : QueryEvent)
    (x : Ext) : Ctx * QueryEvent * Ext :=
  match hooks with
  | [] => (ctx, event, x)
  | hook :: rest =>
      let '(ctx', event', x') := BeforeQuery hook ctx event x in
      rangeBeforeQuery rest ctx' event' x'
  end.

(** [func (db *DB) beforeQuery(ctx, queryApp, query, queryArgs)].  [now] is the
    reading [time.Now()] gives if it is called. *)
Definition beforeQuery (db : DB) (ctx : Ctx) (queryApp : queryAppender)
    (query : string) (queryArgs : option (list value)) (now : Time) (x : Ext)
    : (Ctx * option QueryEvent) * DB * Ext :=
  let db := withStats db {| Queries := AddUint64 (Queries (stats db)) 1;
                            Errors := Errors (stats db) |} in
  if (length (queryHooks db) =? 0)%nat then ((ctx, None), db, x)
  else
    let event := {| QueryAppender := queryApp;
                    Query := query;
                    QueryArgs := queryArgs;
                    StartTime := now;
                    Result := None;
                    Err := None;
                    Stash := [] |} in
    let '(ctx', event', x') := rangeBeforeQuery (queryHooks db) ctx event x in
    ((ctx', Some event'), db, x').

(** [func (db *DB) afterQueryFromIndex(ctx, event, hookIndex)]:
    [for ; hookIndex >= 0; hookIndex-- { db.queryHooks[hookIndex].AfterQuery(ctx, event) }].
    [remaining] is [hookIndex + 1]; indexing past the end of the slice panics,
    which is [None]. *)
Fixpoint afterQueryLoop (hooks : list QueryHook) (ctx : Ctx) (remaining : nat)
    (event : QueryEvent) (x : Ext) : option (QueryEvent * Ext) :=
  match remaining with
  | O => Some (event, x)
  | S hookIndex =>
      match nth_error hooks hookIndex with
      | None => None
      | Some hook =>
          let '(event', x') := AfterQuery hook ctx event x in
          afterQueryLoop hooks ctx hookIndex event' x'
      end
  end.

Definition afterQueryFromIndex (db : DB) (ctx : Ctx) (event : QueryEvent)
    (hookIndex : Z) (x : Ext) : option (QueryEvent * Ext) :=
  afterQueryLoop (queryHooks db) ctx (Z.to_nat (hookIndex + 1)) event x.

(** The [switch err] of [afterQuery]: [nil] and [sql.ErrNoRows] are not
    counted. *)
Definition countsAsError (err : option error) : bool :=
  match err with
  | None => false
  | Some ErrNoRows => false
  | Some _ => true
  end.

(** [func (db *DB) afterQuery(ctx, event, res, err)].  [event] is [None] for a
    nil pointer.  The result is the event as the hooks left it, the handle and
    the outer state; [None] is a panic. *)
Definition afterQuery (db : DB) (ctx : Ctx) (event : option QueryEvent)
    (res : option sqlResult) (err : option error) (x : Ext)
    : option (option QueryEvent * DB * Ext) :=
  let db := if countsAsError err
            then withStats db {| Queries := Queries (stats db);
                                 Errors := AddUint64 (Errors (stats db)) 1 |}
            else db in
  match event with
  | None => Some (None, db, x)
  | Some event =>
      let event := {| QueryAppender := QueryAppender event;
                      Query := Query event;
                      QueryArgs := QueryArgs event;
                      StartTime := StartTime event;
                      Result := res;
                      Err := err;
                      Stash := Stash event |} in
      match afterQueryFromIndex db ctx event (Z.of_nat (length (queryHooks db)) - 1) x with
      | None => None
      | Some (event', x') => Some (Some event', db, x')
      end
  end.

End QueryHooks.

Section ModelHooks.

(** [context.Context], a [reflect.Value] holding one entity, and the state
    the entities' hook methods act on. *)
Variables (Ctx V Ext : Type).

(** [reflect.Value.Addr]. *)
Variable Addr : V -> V.

(** A [reflect.Value] holding a slice: [None] is the zero Value, for which
    [IsValid] is false. *)
Definition sliceValue : Type := option (list V).

Definition hookFn : Type := Ctx -> V -> Ext -> option error * Ext.

(** The body both batch helpers share:
    [for i := 0; i < sliceLen; i++ { v := slice.Index(i); if !ptr { v = v.Addr() };
       if err := hook(ctx, v); err != nil && firstErr == nil { firstErr = err } }]. *)
Fixpoint hookLoop (ctx : Ctx) (ptr : bool) (hook : hookFn) (elems : list V)
    (firstErr : option error) (x : Ext) : option error * Ext :=
  match elems with
  | [] => (firstErr, x)
  | v :: rest =>
      let v := if negb ptr then Addr v else v in
      let '(err, x') := hook ctx v x in
      let firstErr' :=
        match err, firstErr with
        | Some e, None => Some e
        | _, _ => firstErr
        end in
      hookLoop ctx ptr hook rest firstErr' x'
  end.

(** [func callHookSlice(ctx, slice, ptr, hook) error].  [slice.Len()] on the
    zero Value panics: [None]. *)
Definition callHookSlice (ctx : Ctx) (slice : sliceValue) (ptr : bool)
    (hook : hookFn) (x : Ext) : option (option error * Ext) :=
  match slice with
  | None => None
  | Some elems => Some (hookLoop ctx ptr hook elems None x)
  end.

(** [func callHookSlice2(ctx, slice, ptr, hook) error]: the same loop under
    [if slice.IsValid()]. *)
Definition callHookSlice2 (ctx : Ctx) (slice : sliceValue) (ptr : bool)
    (hook : hookFn) (x : Ext) : option (option error * Ext) :=
  match slice with
  | None => Some (None, x)
  | Some elems => Some (hookLoop ctx ptr hook elems None x)
  end.

(** The methods an entity may implement, [v.Interface().(schema.XHook).X(ctx)]. *)
Record modelHooks : Type := mkModelHooks {
  AfterSelect : hookFn;
  BeforeInsert : hookFn;
  AfterInsert : hookFn;
  BeforeUpdate : hookFn;
  AfterUpdate : hookFn;
  BeforeDelete : hookFn;
  AfterDelete : hookFn
}.

Variable H : modelHooks.

Definition callAfterSelectHook : hookFn := AfterSelect H.
Definition callBeforeInsertHook : hookFn := BeforeInsert H.
Definition callAfterInsertHook : hookFn := AfterInsert H.
Definition callBeforeUpdateHook : hookFn := BeforeUpdate H.
Definition callAfterUpdateHook : hookFn := AfterUpdate H.
Definition callBeforeDeleteHook : hookFn := BeforeDelete H.
Definition callAfterDeleteHook : hookFn := AfterDelete H.

Definition callAfterSelectHookSlice ctx slice ptr :=
  callHookSlice2 ctx slice ptr callAfterSelectHook.
Definition callBeforeInsertHookSlice ctx slice ptr :=
  callHookSlice ctx slice ptr callBeforeInsertHook.
Definition callAfterInsertHookSlice ctx slice ptr :=
  callHookSlice2 ctx slice ptr callAfterInsertHook.
Definition callBeforeUpdateHookSlice ctx slice ptr :=
  callHookSlice ctx slice ptr callBeforeUpdateHook.
Definition callAfterUpdateHookSlice ctx slice ptr :=
  callHookSlice2 ctx slice ptr callAfterUpdateHook.
Definition callBeforeDeleteHookSlice ctx slice ptr :=
  callHookSlice ctx slice ptr callBeforeDeleteHook.
Definition callAfterDeleteHookSlice ctx slice ptr :=
  callHookSlice2 ctx slice ptr callAfterDeleteHook.

End ModelHooks.

End Hook.

(** ** Package schema: the declarations query_select.go uses *)

Module schema.

(** [type QueryWithArgs struct { Query string; Args []interface{} }] *)
Record QueryWithArgs : Type := mkQueryWithArgs {
  Query : string;
  Args : option (list value)
}.

(** [type QueryWithSep struct { QueryWithArgs; Sep string }] *)
Record QueryWithSep : Type := mkQueryWithSep {
  Fragment : QueryWithArgs;
  Sep : string
}.

(** Modelled from the spec: [schema.SafeQuery] is not under src/.  A fragment
    is a text and its bound arguments; one built from a query expression
    always carries an argument list, which is how [appendColumns] tells an
    expression from a bare identifier. *)
Definition SafeQuery (query : string) (args : option (list value)) : QueryWithArgs :=
  {| Query := query;
     Args := Some (match args with None => [] | Some a => a end) |}.

(** Modelled from the spec: [schema.UnsafeIdent] is not under src/.  A bare
    identifier is a fragment with no argument list. *)
Definition UnsafeIdent (ident : string) : QueryWithArgs :=
  {| Query := ident; Args := None |}.

(** Modelled from the spec: [schema.SafeQueryWithSep] is not under src/.  A
    fragment together with the separator that joins it to the one before. *)
Definition SafeQueryWithSep (query : string) (args : option (list value))
    (sep : string) : QueryWithSep :=
  {| Fragment := SafeQuery query args; Sep := sep |}.

(** Modelled from the spec: [QueryWithArgs.IsZero] is not under src/.  The zero
    fragment has no text and no argument list. *)
Definition IsZero (q : QueryWithArgs) : bool :=
  (if string_dec (Query q) "" then true else false)
  && (match Args q with None => true | Some _ => false end).

(** [type Field struct]: the two names the renderer reads. *)
Record Field : Type := mkField {
  Name : string;
  SQLName : string
}.

(** [type Table struct]: [String] is what [%s] prints for the table;
    [FieldMap] is the [map[string]*Field]. *)
Record Table : Type := mkTable {
  String_ : string;
  SQLAlias : string;
  Fields : list Field;
  FieldMap : list (string * Field)
}.

(** [field, ok := table.FieldMap[name]] *)
Fixpoint lookupField (m : list (string * Field)) (name : string) : option Field :=
  match m with
  | [] => None
  | (k, f) :: rest => if string_dec k name then Some f else lookupField rest name
  end.

(** The relation kinds of [Relation.Type]; [invalidRelation] stands for any
    other integer. *)
Inductive relationType : Type :=
| HasOneRelation
| BelongsToRelation
| HasManyRelation
| ManyToManyRelation
| invalidRelation.

(** [type Relation struct]: the fields query_select.go reads. *)
Record Relation : Type := mkRelation {
  Type_ : relationType;
  Condition : list string
}.

End schema.

(** ** Package dialect and package feature *)

Module dialect.

(** [dialect.Name] *)
Inductive Name : Type := Invalid | PG | SQLite | MySQL | MSSQL | Oracle.

Definition Name_eqb (a b : Name) : bool :=
  match a, b with
  | Invalid, Invalid | PG, PG | SQLite, SQLite | MySQL, MySQL
  | MSSQL, MSSQL | Oracle, Oracle => true
  | _, _ => false
  end.

End dialect.

Module feature.

(** [feature.Feature]: a bit set. *)
Definition Feature : Type := Z.

(** Modelled from the spec: [Feature.Has] is not under src/.  The capability
    bit set holds a flag when all of the flag's bits are set in it. *)
Definition Has (f other : Feature) : bool := Z.land f other =? other.

End feature.

(** ** Package pgdialect: the dialect value *)

Module PgdialectDialect.

Section Flags.

(** The capability flags of package feature that [New] names; package
    feature gives them their values. *)
Variables CTE WithValues Returning InsertReturning DefaultPlaceholder
  DoubleColonCast InsertTableAlias UpdateTableAlias DeleteTableAlias
  TableCascade TableIdentity TableTruncate TableNotExists InsertOnConflict
  SelectExists GeneratedIdentity CompositeIn : feature.Feature.

(** [type Dialect struct]: the field [Features] reads. *)
Record Dialect : Type := mkDialect {
  features : feature.Feature
}.

(** [func New() *Dialect]: [d.features] is the bitwise or of the flags, in
    the order the source lists them. *)
Definition New : Dialect :=
  {| features :=
       Z.lor (Z.lor (Z.lor (Z.lor (Z.lor (Z.lor (Z.lor (Z.lor (Z.lor (Z.lor
       (Z.lor (Z.lor (Z.lor (Z.lor (Z.lor (Z.lor
         CTE WithValues) Returning) InsertReturning) DefaultPlaceholder)
         DoubleColonCast) InsertTableAlias) UpdateTableAlias) DeleteTableAlias)
         TableCascade) TableIdentity) TableTruncate) TableNotExists)
         InsertOnConflict) SelectExists) GeneratedIdentity) CompositeIn |}.

(** The flags [New] names. *)
Definition listed : list feature.Feature :=
  [CTE; WithValues; Returning; InsertReturning; DefaultPlaceholder;
   DoubleColonCast; InsertTableAlias; UpdateTableAlias; DeleteTableAlias;
   TableCascade; TableIdentity; TableTruncate; TableNotExists; InsertOnConflict;
   SelectExists; GeneratedIdentity; CompositeIn].

End Flags.

(** [func (d *Dialect) Name() dialect.Name] *)
Definition Name (d : Dialect) : dialect.Name := dialect.PG.

(** [func (d *Dialect) Features() feature.Feature] *)
Definition Features (d : Dialect) : feature.Feature := features d.

(** [func (d *Dialect) IdentQuote() byte] *)
Definition IdentQuote (d : Dialect) : ascii := "034"%char.

(** [func appendGeneratedAsIdentity(b []byte) []byte] *)
Definition appendGeneratedAsIdentity (b : bytes) : bytes :=
  appendStr b " GENERATED BY DEFAULT AS IDENTITY".

(** [func (d *Dialect) AppendSequence(b, _ *schema.Table, _ *schema.Field)] *)
Definition AppendSequence (d : Dialect) (b : bytes) : bytes :=
  appendGeneratedAsIdentity b.

End PgdialectDialect.

(** ** Package bun, query_select.go: the SELECT builder *)

Module Select.

Import schema.

(** A Go slice whose nil-ness the code inspects: [None] is nil. *)
Definition slice (A : Type) : Type := option (list A).

Definition len {A : Type} (s : slice A) : Z :=
  match s with
  | None => 0
  | Some l => Z.of_nat (length l)
  end.

Definition elems {A : Type} (s : slice A) : list A :=
  match s with
  | None => []
  | Some l => l
  end.

(** [append(s, x)] *)
Definition append1 {A : Type} (s : slice A) (x : A) : slice A :=
  Some (elems s ++ [x]).

(** A variadic parameter [args ...interface{}] is nil when no argument is
    passed. *)
Definition variadic {A : Type} (args : list A) : slice A :=
  match args with
  | [] => None
  | _ => Some args
  end.

(** An [IConn] the caller pinned with [Conn]. *)
Definition Conn : Type := nat.

(** A user closure [func(q *SelectQuery) *SelectQuery], by handle; the section
    below interprets handles. *)
Definition userFn : Type := nat.

(** The closure [applyToRelation] stores in [join.apply].  It captures
    [apply1], non-nil exactly when the relation has conditions, and [apply2],
    the caller's closure if one was passed. *)
Record applyClosure : Type := mkApplyClosure {
  apply1 : bool;
  apply2 : option userFn
}.

(** [type relationJoin struct], with the two reads of [j.JoinModel] the code
    makes, [j.JoinModel.Table()] and [j.JoinModel.getJoins()], as fields. *)
#[local] Unset Elimination Schemes.
Inductive relationJoin : Type := mkRelationJoin {
  rjRelation : Relation;
  rjJoinTable : Table;
  rjJoins : list relationJoin;
  rjApply : option applyClosure;
  rjColumns : slice QueryWithArgs;
  rjAdditionalJoinOnConditions : slice QueryWithArgs
}.
#[local] Set Elimination Schemes.

(** [TableModel]: its table and [getJoins()]. *)
Record TableModel : Type := mkTableModel {
  tmTable : Table;
  tmJoins : list relationJoin
}.

(** [Model]: a table model, or any other destination. *)
Inductive Model : Type :=
| tableModelOf (tm : TableModel)
| otherModel (dest : list nat).

(** [type withQuery struct]; the nested [Query] is shared by reference. *)
Record withQuery : Type := mkWithQuery {
  wqName : string;
  wqRecursive : bool;
  wqQuery : nat
}.

(** [type indexHints struct] *)
Record indexHints : Type := mkIndexHints {
  names : slice QueryWithArgs;
  forJoin : slice QueryWithArgs;
  forOrderBy : slice QueryWithArgs;
  forGroupBy : slice QueryWithArgs
}.

(** [type joinQuery struct] *)
Record joinQuery : Type := mkJoinQuery {
  join : QueryWithArgs;
  on : list QueryWithSep
}.

(** [type SelectQuery struct] with its embedded [whereBaseQuery] (and
    [baseQuery]), [idxHintsQuery] and [orderLimitOffsetQuery] flattened, and
    [type union struct].  [db] is fixed when the query is created and is the
    handle the terminal calls below are given. *)
#[local] Unset Elimination Schemes.
Inductive SelectQuery : Type := mkSelectQuery {
  conn : option Conn;
  model : option Model;
  err : option error;
  tableModel : option TableModel;
  table : option Table;
  with_ : list withQuery;
  modelTableName : QueryWithArgs;
  tables : slice QueryWithArgs;
  columns : slice QueryWithArgs;
  where_ : list QueryWithSep;
  use : option indexHints;
  ignore : option indexHints;
  force : option indexHints;
  order : slice QueryWithArgs;
  limit : Z;
  offset : Z;
  distinctOn : slice QueryWithArgs;
  joins : list joinQuery;
  group : slice QueryWithArgs;
  having : slice QueryWithArgs;
  selFor : QueryWithArgs;
  union : list unionBranch;
  comment : string
}
with unionBranch : Type := mkUnion {
  expr : string;
  query : SelectQuery
}.
#[local] Set Elimination Schemes.

Definition zeroFragment : QueryWithArgs := {| Query := ""; Args := None |}.

(** [func NewSelectQuery(db *DB) *SelectQuery]: every field but [db] is zero. *)
Definition NewSelectQuery : SelectQuery :=
  {| conn := None; model := None; err := None; tableModel := None;
     table := None; with_ := []; modelTableName := zeroFragment;
     tables := None; columns := None; where_ := [];
     use := None; ignore := None; force := None;
     order := None; limit := 0; offset := 0;
     distinctOn := None; joins := []; group := None; having := None;
     selFor := zeroFragment; union := []; comment := "" |}.

(** Assignments to one field of the query, [q.f = v]. *)
Definition set_conn (q : SelectQuery) (v : option Conn) : SelectQuery :=
  {| conn := v; model := model q; err := err q; tableModel := tableModel q;
     table := table q; with_ := with_ q; modelTableName := modelTableName q;
     tables := tables q; columns := columns q; where_ := where_ q; use := use q;
     ignore := ignore q; force := force q; order := order q; limit := limit q;
     offset := offset q; distinctOn := distinctOn q; joins := joins q;
     group := group q; having := having q; selFor := selFor q; union := union q;
     comment := comment q |}.

Definition set_model (q : SelectQuery) (v : option Model) : SelectQuery :=
  {| conn := conn q; model := v; err := err q; tableModel := tableModel q;
     table := table q; with_ := with_ q; modelTableName := modelTableName q;
     tables := tables q; columns := columns q; where_ := where_ q; use := use q;
     ignore := ignore q; force := force q; order := order q; limit := limit q;
     offset := offset q; distinctOn := distinctOn q; joins := joins q;
     group := group q; having := having q; selFor := selFor q; union := union q;
     comment := comment q |}.

Definition set_err (q : SelectQuery) (v : option error) : SelectQuery :=
  {| conn := conn q; model := model q; err := v; tableModel := tableModel q;
     table := table q; with_ := with_ q; modelTableName := modelTableName q;
     tables := tables q; columns := columns q; where_ := where_ q; use := use q;
     ignore := ignore q; force := force q; order := order q; limit := limit q;
     offset := offset q; distinctOn := distinctOn q; joins := joins q;
     group := group q; having := having q; selFor := selFor q; union := union q;
     comment := comment q |}.

Definition set_tableModel (q : SelectQuery) (v : option TableModel) : SelectQuery :=
  {| conn := conn q; model := model q; err := err q; tableModel := v; table := table q;
     with_ := with_ q; modelTableName := modelTableName q; tables := tables q;
     columns := columns q; where_ := where_ q; use := use q; ignore := ignore q;
     force := force q; order := order q; limit := limit q; offset := offset q;
     distinctOn := distinctOn q; joins := joins q; group := group q;
     having := having q; selFor := selFor q; union := union q; comment := comment q |}.

Definition set_table (q : SelectQuery) (v : option Table) : SelectQuery :=
  {| conn := conn q; model := model q; err := err q; tableModel := tableModel q;
     table := v; with_ := with_ q; modelTableName := modelTableName q;
     tables := tables q; columns := columns q; where_ := where_ q; use := use q;
     ignore := ignore q; force := force q; order := order q; limit := limit q;
     offset := offset q; distinctOn := distinctOn q; joins := joins q;
     group := group q; having := having q; selFor := selFor q; union := union q;
     comment := comment q |}.

Definition set_tables (q : SelectQuery) (v : slice QueryWithArgs) : SelectQuery :=
  {| conn := conn q; model := model q; err := err q; tableModel := tableModel q;
     table := table q; with_ := with_ q; modelTableName := modelTableName q;
     tables := v; columns := columns q; where_ := where_ q; use := use q;
     ignore := ignore q; force := force q; order := order q; limit := limit q;
     offset := offset q; distinctOn := distinctOn q; joins := joins q;
     group := group q; having := having q; selFor := selFor q; union := union q;
     comment := comment q |}.

Definition set_columns (q : SelectQuery) (v : slice QueryWithArgs) : SelectQuery :=
  {| conn := conn q; model := model q; err := err q; tableModel := tableModel q;
     table := table q; with_ := with_ q; modelTableName := modelTableName q;
     tables := tables q; columns := v; where_ := where_ q; use := use q;
     ignore := ignore q; force := force q; order := order q; limit := limit q;
     offset := offset q; distinctOn := distinctOn q; joins := joins q;
     group := group q; having := having q; selFor := selFor q; union := union q;
     comment := comment q |}.

Definition set_where (q : SelectQuery) (v : list QueryWithSep) : SelectQuery :=
  {| conn := conn q; model := model q; err := err q; tableModel := tableModel q;
     table := table q; with_ := with_ q; modelTableName := modelTableName q;
     tables := tables q; columns := columns q; where_ := v; use := use q;
     ignore := ignore q; force := force q; order := order q; limit := limit q;
     offset := offset q; distinctOn := distinctOn q; joins := joins q;
     group := group q; having := having q; selFor := selFor q; union := union q;
     comment := comment q |}.

Definition set_order (q : SelectQuery) (v : slice QueryWithArgs) : SelectQuery :=
  {| conn := conn q; model := model q; err := err q; tableModel := tableModel q;
     table := table q; with_ := with_ q; modelTableName := modelTableName q;
     tables := tables q; columns := columns q; where_ := where_ q; use := use q;
     ignore := ignore q; force := force q; order := v; limit := limit q;
     offset := offset q; distinctOn := distinctOn q; joins := joins q;
     group := group q; having := having q; selFor := selFor q; union := union q;
     comment := comment q |}.

Definition set_limit (q : SelectQuery) (v : Z) : SelectQuery :=
  {| conn := conn q; model := model q; err := err q; tableModel := tableModel q;
     table := table q; with_ := with_ q; modelTableName := modelTableName q;
     tables := tables q; columns := columns q; where_ := where_ q; use := use q;
     ignore := ignore q; force := force q; order := order q; limit := v;
     offset := offset q; distinctOn := distinctOn q; joins := joins q;
     group := group q; having := having q; selFor := selFor q; union := union q;
     comment := comment q |}.

Definition set_offset (q : SelectQuery) (v : Z) : SelectQuery :=
  {| conn := conn q; model := model q; err := err q; tableModel := tableModel q;
     table := table q; with_ := with_ q; modelTableName := modelTableName q;
     tables := tables q; columns := columns q; where_ := where_ q; use := use q;
     ignore := ignore q; force := force q; order := order q; limit := limit q;
     offset := v; distinctOn := distinctOn q; joins := joins q; group := group q;
     having := having q; selFor := selFor q; union := union q; comment := comment q |}.

Definition set_distinctOn (q : SelectQuery) (v : slice QueryWithArgs) : SelectQuery :=
  {| conn := conn q; model := model q; err := err q; tableModel := tableModel q;
     table := table q; with_ := with_ q; modelTableName := modelTableName q;
     tables := tables q; columns := columns q; where_ := where_ q; use := use q;
     ignore := ignore q; force := force q; order := order q; limit := limit q;
     offset := offset q; distinctOn := v; joins := joins q; group := group q;
     having := having q; selFor := selFor q; union := union q; comment := comment q |}.

Definition set_joins (q : SelectQuery) (v : list joinQuery) : SelectQuery :=
  {| conn := conn q; model := model q; err := err q; tableModel := tableModel q;
     table := table q; with_ := with_ q; modelTableName := modelTableName q;
     tables := tables q; columns := columns q; where_ := where_ q; use := use q;
     ignore := ignore q; force := force q; order := order q; limit := limit q;
     offset := offset q; distinctOn := distinctOn q; joins := v; group := group q;
     having := having q; selFor := selFor q; union := union q; comment := comment q |}.

Definition set_group (q : SelectQuery) (v : slice QueryWithArgs) : SelectQuery :=
  {| conn := conn q; model := model q; err := err q; tableModel := tableModel q;
     table := table q; with_ := with_ q; modelTableName := modelTableName q;
     tables := tables q; columns := columns q; where_ := where_ q; use := use q;
     ignore := ignore q; force := force q; order := order q; limit := limit q;
     offset := offset q; distinctOn := distinctOn q; joins := joins q; group := v;
     having := having q; selFor := selFor q; union := union q; comment := comment q |}.

Definition set_having (q : SelectQuery) (v : slice QueryWithArgs) : SelectQuery :=
  {| conn := conn q; model := model q; err := err q; tableModel := tableModel q;
     table := table q; with_ := with_ q; modelTableName := modelTableName q;
     tables := tables q; columns := columns q; where_ := where_ q; use := use q;
     ignore := ignore q; force := force q; order := order q; limit := limit q;
     offset := offset q; distinctOn := distinctOn q; joins := joins q;
     group := group q; having := v; selFor := selFor q; union := union q;
     comment := comment q |}.

Definition set_selFor (q : SelectQuery) (v : QueryWithArgs) : SelectQuery :=
  {| conn := conn q; model := model q; err := err q; tableModel := tableModel q;
     table := table q; with_ := with_ q; modelTableName := modelTableName q;
     tables := tables q; columns := columns q; where_ := where_ q; use := use q;
     ignore := ignore q; force := force q; order := order q; limit := limit q;
     offset := offset q; distinctOn := distinctOn q; joins := joins q;
     group := group q; having := having q; selFor := v; union := union q;
     comment := comment q |}.

Definition set_union (q : SelectQuery) (v : list unionBranch) : SelectQuery :=
  {| conn := conn q; model := model q; err := err q; tableModel := tableModel q;
     table := table q; with_ := with_ q; modelTableName := modelTableName q;
     tables := tables q; columns := columns q; where_ := where_ q; use := use q;
     ignore := ignore q; force := force q; order := order q; limit := limit q;
     offset := offset q; distinctOn := distinctOn q; joins := joins q;
     group := group q; having := having q; selFor := selFor q; union := v;
     comment := comment q |}.

Definition set_comment (q : SelectQuery) (v : string) : SelectQuery :=
  {| conn := conn q; model := model q; err := err q; tableModel := tableModel q;
     table := table q; with_ := with_ q; modelTableName := modelTableName q;
     tables := tables q; columns := columns q; where_ := where_ q; use := use q;
     ignore := ignore q; force := force q; order := order q; limit := limit q;
     offset := offset q; distinctOn := distinctOn q; joins := joins q;
     group := group q; having := having q; selFor := selFor q; union := union q;
     comment := v |}.

Definition set_modelTableName (q : SelectQuery) (v : QueryWithArgs) : SelectQuery :=
  {| conn := conn q; model := model q; err := err q; tableModel := tableModel q;
     table := table q; with_ := with_ q; modelTableName := v; tables := tables q;
     columns := columns q; where_ := where_ q; use := use q; ignore := ignore q;
     force := force q; order := order q; limit := limit q; offset := offset q;
     distinctOn := distinctOn q; joins := joins q; group := group q;
     having := having q; selFor := selFor q; union := union q; comment := comment q |}.

(** Assignments to one field of a relation join. *)
Definition set_rjJoins (j : relationJoin) (v : list relationJoin) : relationJoin :=
  {| rjRelation := rjRelation j; rjJoinTable := rjJoinTable j; rjJoins := v;
     rjApply := rjApply j; rjColumns := rjColumns j;
     rjAdditionalJoinOnConditions := rjAdditionalJoinOnConditions j |}.

Definition set_rjApply (j : relationJoin) (v : option applyClosure) : relationJoin :=
  {| rjRelation := rjRelation j; rjJoinTable := rjJoinTable j; rjJoins := rjJoins j;
     rjApply := v; rjColumns := rjColumns j;
     rjAdditionalJoinOnConditions := rjAdditionalJoinOnConditions j |}.

Definition set_rjColumns (j : relationJoin) (v : slice QueryWithArgs) : relationJoin :=
  {| rjRelation := rjRelation j; rjJoinTable := rjJoinTable j; rjJoins := rjJoins j;
     rjApply := rjApply j; rjColumns := v;
     rjAdditionalJoinOnConditions := rjAdditionalJoinOnConditions j |}.

Definition set_rjAdditionalJoinOnConditions (j : relationJoin) (v : slice QueryWithArgs) : relationJoin :=
  {| rjRelation := rjRelation j; rjJoinTable := rjJoinTable j; rjJoins := rjJoins j;
     rjApply := rjApply j; rjColumns := rjColumns j;
     rjAdditionalJoinOnConditions := v |}.

(** *** The helpers of query_base.go the builder calls *)

(** Modelled from the spec: [baseQuery.setErr] is not under src/.  The first
    error recorded on a query is kept; later ones are dropped. *)
Definition setErr (q : SelectQuery) (e : error) : SelectQuery :=
  match err q with
  | None => set_err q (Some e)
  | Some _ => q
  end.

(** Modelled from the spec: [baseQuery.setConn] is not under src/.  It pins the
    connection the caller passes. *)
Definition setConn (q : SelectQuery) (c : Conn) : SelectQuery :=
  set_conn q (Some c).

(** Modelled from the spec: [baseQuery.addTable] is not under src/.  It appends
    one fragment to the table list. *)
Definition addTable (q : SelectQuery) (t : QueryWithArgs) : SelectQuery :=
  set_tables q (append1 (tables q) t).

(** Modelled from the spec: [baseQuery.addColumn] is not under src/.  It
    appends one fragment to the column list. *)
Definition addColumn (q : SelectQuery) (c : QueryWithArgs) : SelectQuery :=
  set_columns q (append1 (columns q) c).

(** Modelled from the spec: [whereBaseQuery.addWhere] is not under src/.  It
    appends one fragment, with its separator, to the where list. *)
Definition addWhere (q : SelectQuery) (w : QueryWithSep) : SelectQuery :=
  set_where q (where_ q ++ [w]).

(** Modelled from the spec: [orderLimitOffsetQuery.setLimit] and [setOffset]
    are not under src/.  They replace the stored number. *)
Definition setLimit (q : SelectQuery) (n : Z) : SelectQuery := set_limit q n.
Definition setOffset (q : SelectQuery) (n : Z) : SelectQuery := set_offset q n.

(** *** Builder methods *)

Definition Conn_ (q : SelectQuery) (db : Conn) : SelectQuery := setConn q db.

Definition Err (q : SelectQuery) (e : error) : SelectQuery := setErr q e.

(** [q.distinctOn = make([]schema.QueryWithArgs, 0)]: empty, not nil. *)
Definition Distinct (q : SelectQuery) : SelectQuery :=
  set_distinctOn q (Some []).

Definition DistinctOn (q : SelectQuery) (query : string) (args : list value)
    : SelectQuery :=
  set_distinctOn q (append1 (distinctOn q) (SafeQuery query (variadic args))).

Definition Table_ (q : SelectQuery) (tbls : list string) : SelectQuery :=
  fold_left (fun q t => addTable q (UnsafeIdent t)) tbls q.

Definition TableExpr (q : SelectQuery) (query : string) (args : list value)
    : SelectQuery :=
  addTable q (SafeQuery query (variadic args)).

Definition ModelTableExpr (q : SelectQuery) (query : string) (args : list value)
    : SelectQuery :=
  set_modelTableName q (SafeQuery query (variadic args)).

Definition Column (q : SelectQuery) (cols : list string) : SelectQuery :=
  fold_left (fun q c => addColumn q (UnsafeIdent c)) cols q.

Definition ColumnExpr (q : SelectQuery) (query : string) (args : list value)
    : SelectQuery :=
  addColumn q (SafeQuery query (variadic args)).

Definition Where (q : SelectQuery) (query : string) (args : list value)
    : SelectQuery :=
  addWhere q (SafeQueryWithSep query (variadic args) " AND ").

Definition WhereOr (q : SelectQuery) (query : string) (args : list value)
    : SelectQuery :=
  addWhere q (SafeQueryWithSep query (variadic args) " OR ").

Definition Group (q : SelectQuery) (cols : list string) : SelectQuery :=
  fold_left (fun q c => set_group q (append1 (group q) (UnsafeIdent c))) cols q.

Definition GroupExpr (q : SelectQuery) (g : string) (args : list value)
    : SelectQuery :=
  set_group q (append1 (group q) (SafeQuery g (variadic args))).

Definition Having (q : SelectQuery) (h : string) (args : list value)
    : SelectQuery :=
  set_having q (append1 (having q) (SafeQuery h (variadic args))).

Definition Limit (q : SelectQuery) (n : Z) : SelectQuery := setLimit q n.

Definition Offset (q : SelectQuery) (n : Z) : SelectQuery := setOffset q n.

Definition For (q : SelectQuery) (s : string) (args : list value) : SelectQuery :=
  set_selFor q (SafeQuery s (variadic args)).

Definition addUnion (q : SelectQuery) (e : string) (other : SelectQuery)
    : SelectQuery :=
  set_union q (union q ++ [{| expr := e; query := other |}]).

Definition Union (q other : SelectQuery) := addUnion q " UNION " other.
Definition UnionAll (q other : SelectQuery) := addUnion q " UNION ALL " other.
Definition Intersect (q other : SelectQuery) := addUnion q " INTERSECT " other.
Definition IntersectAll (q other : SelectQuery) := addUnion q " INTERSECT ALL " other.
Definition Except (q other : SelectQuery) := addUnion q " EXCEPT " other.
Definition ExceptAll (q other : SelectQuery) := addUnion q " EXCEPT ALL " other.

Definition Join (q : SelectQuery) (j : string) (args : list value) : SelectQuery :=
  set_joins q (joins q ++ [{| join := SafeQuery j (variadic args); on := [] |}]).

(** [j := &q.joins[len(q.joins)-1]; j.on = append(j.on, ...)] *)
Fixpoint appendOnLast (js : list joinQuery) (c : QueryWithSep) : list joinQuery :=
  match js with
  | [] => []
  | [j] => [{| join := join j; on := on j ++ [c] |}]
  | j :: rest => j :: appendOnLast rest c
  end.

Definition joinOn (q : SelectQuery) (cond : string) (args : slice value)
    (sep : string) : SelectQuery :=
  if (length (joins q) =? 0)%nat
  then setErr q (errorString "bun: query has no joins")
  else set_joins q (appendOnLast (joins q) (SafeQueryWithSep cond args sep)).

Definition JoinOn (q : SelectQuery) (cond : string) (args : list value) :=
  joinOn q cond (variadic args) " AND ".

Definition JoinOnOr (q : SelectQuery) (cond : string) (args : list value) :=
  joinOn q cond (variadic args) " OR ".

Definition Comment (q : SelectQuery) (c : string) : SelectQuery := set_comment q c.

(** [func (q *SelectQuery) applyToRelation(join, apply...)]: the closure is
    stored as the two values it captures. *)
Definition applyToRelation (j : relationJoin) (apply : list userFn) : relationJoin :=
  set_rjApply j
    (Some {| apply1 := (0 <? length (Condition (rjRelation j)))%nat;
             apply2 := match apply with [f] => Some f | _ => None end |}).

(** [q.tableModel.join(name)] gives a pointer into the model's joins: the
    join found and the model with that join replaced. *)
Record joinHandle : Type := mkJoinHandle {
  jhJoin : relationJoin;
  jhPut : relationJoin -> TableModel
}.

Definition quote : string := String "034"%char EmptyString.

(** The digits [0123456789abcdef] of [strconv]. *)
Definition lowerhex (n : N) : ascii :=
  ascii_of_N (if (n <? 10)%N then 48 + n else 87 + n).

(** [strconv.appendEscapedRune] with a double quote as the quote, on one
    byte below [utf8.RuneSelf] (0x80): the quote and the backslash get a
    backslash, a printable byte stands as it is, the seven control bytes
    with a letter get it, and any other gets [\x] and two hexadecimal
    digits. *)
Definition appendEscapedByte (c : ascii) : string :=
  let n := N_of_ascii c in
  let bs := String "092"%char EmptyString in
  if ((n =? 34) || (n =? 92))%N then bs ++ String c EmptyString
  else if ((32 <=? n) && (n <? 127))%N then String c EmptyString
  else if (n =? 7)%N then bs ++ "a"
  else if (n =? 8)%N then bs ++ "b"
  else if (n =? 12)%N then bs ++ "f"
  else if (n =? 10)%N then bs ++ "n"
  else if (n =? 13)%N then bs ++ "r"
  else if (n =? 9)%N then bs ++ "t"
  else if (n =? 11)%N then bs ++ "v"
  else bs ++ "x" ++ String (lowerhex (n / 16)) (String (lowerhex (n mod 16)) EmptyString).

(** [strconv.Quote], which the verb [%q] of package fmt prints a string
    with.  A byte from 0x80 on is copied, as Go copies the UTF-8 encoding of
    a printable rune; bytes from 0x80 on that are not such an encoding,
    which Go escapes, are outside the embedding. *)
Fixpoint quoteBody (s : string) : string :=
  match s with
  | EmptyString => EmptyString
  | String c rest =>
      (if (N_of_ascii c <? 128)%N then appendEscapedByte c
       else String c EmptyString) ++ quoteBody rest
  end.

Definition strconvQuote (s : string) : string := quote ++ quoteBody s ++ quote.

(** [fmt.Errorf("%s does not have relation=%q", q.table, name)] *)
Definition errNoRelation (q : SelectQuery) (name : string) : error :=
  errorString
    ((match table q with Some t => String_ t | None => "<nil>" end)
     ++ " does not have relation=" ++ strconvQuote name)%string.

(** *** Rendering *)

(** A [(buffer, err)] result; on an error the buffer returned is nil. *)
Definition result : Type := (bytes * option error)%type.

Definition nilBytes : bytes := ""%string.

(** [b, err = f(...); if err != nil { return nil, err }] followed by [k b]. *)
Definition andThen (r : result) (k : bytes -> result) : result :=
  match r with
  | (b, None) => k b
  | (_, Some e) => (nilBytes, Some e)
  end.

Notation "b <~ r ;; k" := (andThen r (fun b => k))
  (at level 61, r at next level, right associativity).

(** [for i, x := range l { ... }] where the body reads [i > 0] and may fail. *)
Fixpoint rangeAppend {A : Type} (body : bool -> A -> bytes -> result)
    (positive : bool) (l : list A) (b : bytes) : result :=
  match l with
  | [] => (b, None)
  | x :: rest => b' <~ body positive x b ;; rangeAppend body true rest b'
  end.

(** [bytes.TrimSuffix(b, suffix)] *)
Definition hasSuffix (b suffix : string) : bool :=
  let n := String.length b in
  let m := String.length suffix in
  (m <=? n)%nat && (if string_dec (substring (n - m) m b) suffix then true else false).

Definition TrimSuffix (b suffix : string) : string :=
  if hasSuffix b suffix
  then substring 0 (String.length b - String.length suffix) b
  else b.

Section Engine.

(** [schema.Formatter]. *)
Variable Formatter : Type.

(** The code of the repository that query_select.go calls and src/ does not
    hold.  Each field has the signature of the Go function, receiver first. *)
Record Renderer : Type := mkRenderer {
  (** calling a user closure on a query *)
  runUserFn : userFn -> SelectQuery -> SelectQuery;
  (** [tableModel.join(name)] and [tableModel.clone()] *)
  tableModelJoin : TableModel -> string -> option joinHandle;
  tableModelClone : TableModel -> TableModel;
  (** [formatterWithModel], [fmter.IsNop()], [fmter.Dialect().Name()],
      [fmter.Dialect().AppendString] *)
  formatterWithModel : Formatter -> SelectQuery -> Formatter;
  IsNop : Formatter -> bool;
  DialectName : Formatter -> dialect.Name;
  AppendString : Formatter -> bytes -> string -> bytes;
  (** [QueryWithArgs.AppendQuery] and the package-level [appendComment] and
      [appendColumns] *)
  fragmentAppendQuery : QueryWithArgs -> Formatter -> bytes -> result;
  appendComment : bytes -> string -> bytes;
  appendTableColumns : bytes -> string -> list Field -> bytes;
  (** methods of the embedded base queries *)
  appendWith : SelectQuery -> Formatter -> bytes -> result;
  hasTables : SelectQuery -> bool;
  appendTablesWithAlias : SelectQuery -> Formatter -> bytes -> result;
  appendIndexHints : SelectQuery -> Formatter -> bytes -> result;
  appendWhere : SelectQuery -> Formatter -> bytes -> bool -> result;
  appendOrder : SelectQuery -> Formatter -> bytes -> result;
  appendLimitOffset : SelectQuery -> Formatter -> bytes -> result;
  (** methods of [relationJoin] *)
  appendHasOneJoin : relationJoin -> Formatter -> bytes -> SelectQuery -> result;
  appendAlias : relationJoin -> Formatter -> bytes -> bytes;
  appendAliasColumn : relationJoin -> Formatter -> bytes -> string -> bytes
}.

Variable R : Renderer.

(** [func (q *SelectQuery) Relation(name, apply...)]; [None] is the panic on
    more than one closure. *)
Definition Relation_ (q : SelectQuery) (name : string) (apply : list userFn)
    : option SelectQuery :=
  if (1 <? length apply)%nat then None
  else Some
    match tableModel q with
    | None => setErr q errNilModel
    | Some tm =>
        match tableModelJoin R tm name with
        | None => setErr q (errNoRelation q name)
        | Some h => set_tableModel q (Some (jhPut h (applyToRelation (jhJoin h) apply)))
        end
    end.

(** The body of the closure [applyToRelation] builds. *)
Definition callApply (j : relationJoin) (c : applyClosure) (q : SelectQuery)
    : SelectQuery :=
  let q :=
    if apply1 c
    then fold_left (fun q opt => addWhere q (SafeQueryWithSep opt None " AND "))
                   (Condition (rjRelation j)) q
    else q in
  match apply2 c with
  | Some f => runUserFn R f q
  | None => q
  end.

(** Modelled from the spec: [relationJoin.applyTo] is not under src/.  The
    join's apply closure, which captures the caller's refinement (column
    selection, filters), is run on the query being rendered, with the query's
    table and column list set to the joined table and nil for the call and
    put back after it; the columns the closure selected stay on the join. *)
Definition applyTo (j : relationJoin) (q : SelectQuery) : relationJoin * SelectQuery :=
  match rjApply j with
  | None => (j, q)
  | Some c =>
      let savedTable := table q in
      let savedColumns := columns q in
      let q := set_columns (set_table q (Some (rjJoinTable j))) None in
      let q := callApply j c q in
      let selected := columns q in
      let q := set_columns (set_table q savedTable) savedColumns in
      (set_rjColumns j selected, q)
  end.

(** [func (q *SelectQuery) _forEachInlineRelJoin(fn, joins)].  [fn] may
    change the join it is given (it gets a pointer) and a state [S] it
    closes over; the joins below a join are those it had before [fn] ran.
    [eachJoin] is the loop [for i := range joins], stopping at the first
    error; [inlineRelJoin] is its body for one join, with the recursive call
    on [j.JoinModel.getJoins()] inside it. *)
Section ForEach.

Variable S : Type.
Variable fn : relationJoin -> S -> relationJoin * S * option error.

Fixpoint eachJoin (body : relationJoin -> S -> relationJoin * S * option error)
    (js : list relationJoin) (s : S) : list relationJoin * S * option error :=
  match js with
  | [] => ([], s, None)
  | k :: rest =>
      let '(k', s', e) := body k s in
      match e with
      | Some _ => (k' :: rest, s', e)
      | None =>
          let '(rest', s'', e') := eachJoin body rest s' in
          (k' :: rest', s'', e')
      end
  end.

Fixpoint inlineRelJoin (j : relationJoin) (s : S) {struct j}
    : relationJoin * S * option error :=
  match Type_ (rjRelation j) with
  | HasOneRelation | BelongsToRelation =>
      let '(j', s1, e1) := fn j s in
      match e1 with
      | Some e => (j', s1, Some e)
      | None =>
          let '(below, s2, e2) := eachJoin inlineRelJoin (rjJoins j) s1 in
          (set_rjJoins j' below, s2, e2)
      end
  | _ => (j, s, None)
  end.

Definition _forEachInlineRelJoin (js : list relationJoin) (s : S)
    : list relationJoin * S * option error :=
  eachJoin inlineRelJoin js s.

(** [func (q *SelectQuery) forEachInlineRelJoin(fn)] *)
Definition forEachInlineRelJoin (tm : option TableModel) (s : S)
    : option TableModel * S * option error :=
  match tm with
  | None => (None, s, None)
  | Some m =>
      let '(js, s', e) := _forEachInlineRelJoin (tmJoins m) s in
      (Some {| tmTable := tmTable m; tmJoins := js |}, s', e)
  end.

End ForEach.

Definition isNil {A : Type} (s : option A) : bool :=
  match s with None => true | Some _ => false end.

(** [fmt.Sprintf("%d columns", n)] *)
Definition sprintfColumns (n : nat) : string :=
  (Pgdialect.FormatInt10 (Z.of_nat n) ++ " columns")%string.

(** [func (q *SelectQuery) appendInlineRelColumns(fmter, b, join)] *)
Definition appendInlineRelColumns (fmter : Formatter) (b : bytes)
    (j : relationJoin) : result :=
  match rjColumns j with
  | Some cols =>
      let tbl := rjJoinTable j in
      rangeAppend
        (fun positive col b =>
           let b := if positive then appendStr b ", " else b in
           match (if isNil (Args col) then lookupField (FieldMap tbl) (Query col)
                  else None) with
           | Some field =>
               let b := appendAlias R j fmter b in
               let b := appendStr b "." in
               let b := appendStr b (SQLName field) in
               let b := appendStr b " AS " in
               (appendAliasColumn R j fmter b (Name field), None)
           | None => fragmentAppendQuery R col fmter b
           end)
        false cols b
  | None =>
      rangeAppend
        (fun positive field b =>
           let b := if positive then appendStr b ", " else b in
           let b := appendAlias R j fmter b in
           let b := appendStr b "." in
           let b := appendStr b (SQLName field) in
           let b := appendStr b " AS " in
           (appendAliasColumn R j fmter b (Name field), None))
        false (Fields (rjJoinTable j)) b
  end.

(** [func (q *SelectQuery) appendColumns(fmter, b)] *)
Definition appendColumns (q : SelectQuery) (fmter : Formatter) (b : bytes) : result :=
  let start := String.length b in
  b <~ match columns q, table q with
       | Some cols, _ =>
           rangeAppend
             (fun positive col b =>
                let b := if positive then appendStr b ", " else b in
                match (if isNil (Args col)
                       then match table q with
                            | Some t => lookupField (FieldMap t) (Query col)
                            | None => None
                            end
                       else None), table q with
                | Some field, Some t =>
                    let b := appendStr b (SQLAlias t) in
                    let b := appendStr b "." in
                    (appendStr b (SQLName field), None)
                | _, _ => fragmentAppendQuery R col fmter b
                end)
             false cols b
       | None, Some t =>
           if (10 <? length (Fields t))%nat && IsNop R fmter
           then
             let b := appendStr b (SQLAlias t) in
             let b := appendStr b "." in
             (AppendString R fmter b (sprintfColumns (length (Fields t))), None)
           else (appendTableColumns R b (SQLAlias t) (Fields t), None)
       | None, None => (appendStr b "*", None)
       end ;;
  let '(_, (b, _), e) :=
    forEachInlineRelJoin
      (fun j (s : bytes * nat) =>
         let '(b, start) := s in
         let '(b, start) :=
           if negb (String.length b =? start)%nat
           then let b := appendStr b ", " in (b, String.length b)
           else (b, start) in
         match appendInlineRelColumns fmter b j with
         | (_, Some e) => (j, (nilBytes, start), Some e)
         | (b, None) => (j, (b, start), None)
         end)
      (tableModel q) (b, start) in
  match e with
  | Some e => (nilBytes, Some e)
  | None => (TrimSuffix b ", ", None)
  end.

(** [func (q *SelectQuery) appendTables(fmter, b)] *)
Definition appendTables (q : SelectQuery) (fmter : Formatter) (b : bytes) : result :=
  appendTablesWithAlias R q fmter (appendStr b " FROM ").

(** [func (j *joinQuery) AppendQuery(fmter, b)] *)
Definition joinQuery_AppendQuery (j : joinQuery) (fmter : Formatter) (b : bytes)
    : result :=
  let b := appendStr b " " in
  b <~ fragmentAppendQuery R (join j) fmter b ;;
  if (0 <? length (on j))%nat
  then
    rangeAppend
      (fun positive c b =>
         let b := if positive then appendStr b (Sep c) else b in
         let b := appendStr b "(" in
         b <~ fragmentAppendQuery R (Fragment c) fmter b ;;
         (appendStr b ")", None))
      false (on j) (appendStr b " ON ")
  else (b, None).

(** Lines 764-769 of [appendQuery]: [j.applyTo(q)] for every inline join.
    The joins are the query's own, so the changed joins go back into its
    table model. *)
Definition applyInlineRelJoins (q : SelectQuery) : SelectQuery :=
  match tableModel q with
  | None => q
  | Some _ =>
      let '(tm, q', _) :=
        forEachInlineRelJoin
          (fun j q => let '(j', q') := applyTo j q in (j', q', None))
          (tableModel q) q in
      set_tableModel q' tm
  end.

(** [cteCount := count && (len(q.group) > 0 || q.distinctOn != nil)] *)
Definition cteCount (q : SelectQuery) (count : bool) : bool :=
  count && ((0 <? len (group q)) || negb (isNil (distinctOn q))).

(** Lines 771-787: the SELECT keyword and the DISTINCT clause. *)
Definition appendSelectDistinct (q : SelectQuery) (fmter : Formatter) (b : bytes)
    : result :=
  let b := appendStr b "SELECT " in
  if 0 <? len (distinctOn q)
  then
    b <~ rangeAppend
           (fun positive app b =>
              let b := if positive then appendStr b ", " else b in
              fragmentAppendQuery R app fmter b)
           false (elems (distinctOn q)) (appendStr b "DISTINCT ON (") ;;
    (appendStr b ") ", None)
  else if negb (isNil (distinctOn q))
  then (appendStr b "DISTINCT ", None)
  else (b, None).

(** Lines 789-801: the select list.  [cte] is the variable [cteCount]. *)
Definition appendSelectList (q : SelectQuery) (fmter : Formatter) (b : bytes)
    (count cte : bool) : result :=
  if count && negb cte
  then (appendStr b "count(*)", None)
  else
    let b :=
      if (0 <? limit q) && (len (order q) =? 0)
         && dialect.Name_eqb (DialectName R fmter) dialect.MSSQL
      then appendStr b "0 AS _temp_sort, "
      else b in
    appendColumns q fmter b.

(** Lines 803-833: FROM, index hints, inline joins, explicit joins, WHERE. *)
Definition appendFromWhere (q : SelectQuery) (fmter : Formatter) (b : bytes)
    : result :=
  b <~ (if hasTables R q then appendTables q fmter b else (b, None)) ;;
  b <~ appendIndexHints R q fmter b ;;
  b <~ (let '(_, b, e) :=
          forEachInlineRelJoin
            (fun j b =>
               let b := appendStr b " " in
               match appendHasOneJoin R j fmter b q with
               | (b, None) => (j, b, None)
               | (_, Some e) => (j, nilBytes, Some e)
               end)
            (tableModel q) b in
        (b, e)) ;;
  b <~ rangeAppend (fun _ j b => joinQuery_AppendQuery j fmter b) false (joins q) b ;;
  appendWhere R q fmter b true.

(** Lines 835-861: GROUP BY and HAVING. *)
Definition appendGroupHaving (q : SelectQuery) (fmter : Formatter) (b : bytes)
    : result :=
  b <~ (if 0 <? len (group q)
        then rangeAppend
               (fun positive f b =>
                  let b := if positive then appendStr b ", " else b in
                  fragmentAppendQuery R f fmter b)
               false (elems (group q)) (appendStr b " GROUP BY ")
        else (b, None)) ;;
  if 0 <? len (having q)
  then rangeAppend
         (fun positive f b =>
            let b := if positive then appendStr b " AND " else b in
            let b := appendStr b "(" in
            b <~ fragmentAppendQuery R f fmter b ;;
            (appendStr b ")", None))
         false (elems (having q)) (appendStr b " HAVING ")
  else (b, None).

(** Lines 863-881: ORDER BY, LIMIT/OFFSET and FOR, left out of a count. *)
Definition appendOrderLimitFor (q : SelectQuery) (fmter : Formatter) (b : bytes)
    (count : bool) : result :=
  if negb count
  then
    b <~ appendOrder R q fmter b ;;
    b <~ appendLimitOffset R q fmter b ;;
    if negb (IsZero (selFor q))
    then fragmentAppendQuery R (selFor q) fmter (appendStr b " FOR ")
    else (b, None)
  else (b, None).

(** Lines 771-881 in order. *)
Definition appendSelectBody (q : SelectQuery) (fmter : Formatter) (b : bytes)
    (count cte : bool) : result :=
  b <~ appendSelectDistinct q fmter b ;;
  b <~ appendSelectList q fmter b count cte ;;
  b <~ appendFromWhere q fmter b ;;
  b <~ appendGroupHaving q fmter b ;;
  appendOrderLimitFor q fmter b count.

(** Lines 886-894 of [appendQuery]: the operands of the set operations,
    each rendered by [self], which is [AppendQuery] less the comment it starts
    with.  An operand is held by pointer and rendering may change it, so the
    operands as the loop leaves them are returned too. *)
Fixpoint appendUnions
    (self : SelectQuery -> Formatter -> bytes -> bool -> result * SelectQuery)
    (fmter : Formatter) (us : list unionBranch) (b : bytes)
    : result * list unionBranch :=
  match us with
  | [] => ((b, None), [])
  | u :: rest =>
      let b := appendStr b (expr u) in
      let b := appendStr b "(" in
      let '(r, uq) :=
        self (query u) fmter (appendComment R b (comment (query u))) false in
      let u' := {| expr := expr u; query := uq |} in
      match r with
      | (_, Some e) => ((nilBytes, Some e), u' :: rest)
      | (b, None) =>
          let '(r', rest') := appendUnions self fmter rest (appendStr b ")") in
          (r', u' :: rest')
      end
  end.

(** Lines 755-895 of [appendQuery]: the statement itself, between the opening
    and the closing of the count wrapper.  [self] is [appendQuery]; [cte] is
    the variable [cteCount].  Rendering changes the receiver (through
    [applyTo], and through the rendering of the operands of a set
    operation), so the query as the call leaves it is returned next to the
    result.  The formatter from [formatterWithModel] holds the receiver by
    pointer; it is taken from the receiver's current state wherever it is
    used.  The operands rendered are those the query has on entry: a
    relation closure that adds a set operation is outside the embedding. *)
Definition appendStatement
    (self : SelectQuery -> Formatter -> bytes -> bool -> result * SelectQuery)
    (q : SelectQuery) (fmter : Formatter) (b : bytes) (count cte : bool)
    : result * SelectQuery :=
  let b := if (0 <? length (union q))%nat then appendStr b "(" else b in
  match appendWith R q (formatterWithModel R fmter q) b with
  | (_, Some e) => ((nilBytes, Some e), q)
  | (b, None) =>
      let q1 := applyInlineRelJoins q in
      let fmter1 := formatterWithModel R fmter q1 in
      match appendSelectBody q1 fmter1 b count cte with
      | (_, Some e) => ((nilBytes, Some e), q1)
      | (b, None) =>
          let '(r, branches) :=
            if (0 <? length (union q))%nat
            then appendUnions self fmter1 (union q) (appendStr b ")")
            else ((b, None), union q) in
          (r, set_union q1 branches)
      end
  end.

(** [func (q *SelectQuery) appendQuery(fmter, b, count)] *)
Fixpoint appendQuery (q : SelectQuery) (fmter : Formatter) (b : bytes)
    (count : bool) {struct q} : result * SelectQuery :=
  match err q with
  | Some e => ((nilBytes, Some e), q)
  | None =>
      let cte := cteCount q count in
      let b := if cte then appendStr b "WITH _count_wrapper AS (" else b in
      match appendStatement appendQuery q fmter b count cte with
      | ((_, Some e), q') => ((nilBytes, Some e), q')
      | ((b, None), q') =>
          let b := if cte
                   then appendStr b ") SELECT count(*) FROM _count_wrapper"
                   else b in
          ((b, None), q')
      end
  end.

(** [func (q *SelectQuery) AppendQuery(fmter, b)] *)
Definition AppendQuery (q : SelectQuery) (fmter : Formatter) (b : bytes)
    : result * SelectQuery :=
  appendQuery q fmter (appendComment R b (comment q)) false.

(** [func (q countQuery) AppendQuery(fmter, b)] *)
Definition countQuery_AppendQuery (q : SelectQuery) (fmter : Formatter) (b : bytes)
    : result * SelectQuery :=
  match err q with
  | Some e => ((nilBytes, Some e), q)
  | None => appendQuery q fmter b true
  end.

(** [func (q selectExistsQuery) AppendQuery(fmter, b)] *)
Definition selectExistsQuery_AppendQuery (q : SelectQuery) (fmter : Formatter)
    (b : bytes) : result * SelectQuery :=
  match err q with
  | Some e => ((nilBytes, Some e), q)
  | None =>
      let b := appendStr b "SELECT EXISTS (" in
      match appendQuery q fmter b false with
      | ((_, Some e), q') => ((nilBytes, Some e), q')
      | ((b, None), q') => ((appendStr b ")", None), q')
      end
  end.

(** [func (q whereExistsQuery) AppendQuery(fmter, b)] *)
Definition whereExistsQuery_AppendQuery (q : SelectQuery) (fmter : Formatter)
    (b : bytes) : result * SelectQuery :=
  match err q with
  | Some e => ((nilBytes, Some e), q)
  | None =>
      let b := appendStr b "SELECT 1 WHERE EXISTS (" in
      match appendQuery q fmter b false with
      | ((_, Some e), q') => ((nilBytes, Some e), q')
      | ((b, None), q') => ((appendStr b ")", None), q')
      end
  end.

(** [func (q *SelectQuery) String() string]; [None] is the panic on an
    error.  [fmter] is [q.db.Formatter()]. *)
Definition String__ (q : SelectQuery) (fmter : Formatter)
    : option string * SelectQuery :=
  match AppendQuery q fmter nilBytes with
  | ((_, Some _), q') => (None, q')
  | ((buf, None), q') => (Some buf, q')
  end.

(** *** Clone *)

(** The closure [cloneArgs] of [Clone]. *)
Definition cloneArgs (args : slice QueryWithArgs) : slice QueryWithArgs :=
  if len args =? 0 then None else Some (elems args).

(** The closure [cloneHints] of [Clone]. *)
Definition cloneHints (hints : option indexHints) : option indexHints :=
  match hints with
  | None => None
  | Some h => Some {| names := cloneArgs (names h);
                      forJoin := cloneArgs (forJoin h);
                      forOrderBy := cloneArgs (forOrderBy h);
                      forGroupBy := cloneArgs (forGroupBy h) |}
  end.

(** [append([]any(nil), args...)]: nil unless there is an element to copy. *)
Definition copyValues (args : slice value) : slice value :=
  match args with
  | Some ((_ :: _) as l) => Some l
  | _ => None
  end.

Definition cloneFragment (f : QueryWithArgs) : QueryWithArgs :=
  SafeQuery (Query f) (copyValues (Args f)).

Definition cloneFragmentWithSep (w : QueryWithSep) : QueryWithSep :=
  SafeQueryWithSep (Query (Fragment w)) (copyValues (Args (Fragment w))) (Sep w).

(** [func (q *SelectQuery) Clone() *SelectQuery], for a non-nil receiver.
    The composite literal names the fields it copies; [conn] and [err] are
    not among them and keep their zero value. *)
Fixpoint Clone (q : SelectQuery) : SelectQuery :=
  {| conn := None;
     model := model q;
     err := None;
     tableModel := match tableModel q with
                   | Some tm => Some (tableModelClone R tm)
                   | None => None
                   end;
     table := table q;
     with_ := map (fun w => {| wqName := wqName w;
                               wqRecursive := wqRecursive w;
                               wqQuery := wqQuery w |}) (with_ q);
     modelTableName := if negb (IsZero (modelTableName q))
                       then cloneFragment (modelTableName q)
                       else modelTableName q;
     tables := cloneArgs (tables q);
     columns := cloneArgs (columns q);
     where_ := map cloneFragmentWithSep (where_ q);
     use := cloneHints (use q);
     ignore := cloneHints (ignore q);
     force := cloneHints (force q);
     order := cloneArgs (order q);
     limit := limit q;
     offset := offset q;
     distinctOn := cloneArgs (distinctOn q);
     joins := map (fun j => {| join := cloneFragment (join j);
                               on := map cloneFragmentWithSep (on j) |}) (joins q);
     group := cloneArgs (group q);
     having := cloneArgs (having q);
     selFor := if negb (IsZero (selFor q))
               then cloneFragment (selFor q)
               else zeroFragment;
     union := (fix each (us : list unionBranch) : list unionBranch :=
                 match us with
                 | [] => []
                 | u :: rest => {| expr := expr u; query := Clone (query u) |} :: each rest
                 end) (union q);
     comment := comment q |}.

(** *** Terminal calls *)

(** [context.Context], [time.Time], [*sql.Rows], and the state outside the
    engine: the database, the models being scanned into, what hooks keep. *)
Variables (Ctx Time Rows Ext : Type).

Local Abbreviation DB := (Hook.DB Ctx Time Ext).
Local Abbreviation QueryEvent := (Hook.QueryEvent Time).

(** A statement handed to the database, as the engine hands it over: the
    call that issued it, the connection of the query ([None] is the
    handle's own pool) and the text. *)
Inductive statement : Type :=
| stmtScan (c : option Conn) (query : string)
| stmtExec (c : option Conn) (app : queryAppender) (query : string)
| stmtQuery (c : option Conn) (query : string)
| stmtQueryRow (c : option Conn) (app : queryAppender) (query : string)
| stmtSelectMany (c : option Conn) (j : relationJoin)
| stmtSelectM2M (c : option Conn) (j : relationJoin).

(** What came back for a statement. *)
Inductive reply : Type :=
| gotResult (res : option sqlResult) (e : option error)
| gotRows (e : option error)
| gotInt (n : Z) (e : option error)
| gotBool (b : bool) (e : option error)
| gotErr (e : option error).

(** One statement and its reply, recorded when the call returns. *)
Record exchange : Type := mkExchange {
  sent : statement;
  got : reply
}.

(** The code the terminal calls reach that src/ does not hold, and the
    values of [q.db] they read. *)
Record Runtime : Type := mkRuntime {
  (** [q.db.fmter], [q.db.features], [feature.SelectExists], [time.Now()] *)
  dbFmter : Formatter;
  dbFeatures : feature.Feature;
  SelectExists : feature.Feature;
  timeNow : Ext -> Time;
  (** [q.getModel(dest)], [q.beforeAppendModel(ctx, q)],
      [setCommentFromContext(ctx, q)] *)
  getModel : SelectQuery -> list nat -> option Model * option error;
  beforeAppendModel : Ctx -> SelectQuery -> Ext -> option error * SelectQuery * Ext;
  setCommentFromContext : Ctx -> SelectQuery -> SelectQuery;
  (** [q.table.ZeroIface.(BeforeSelectHook)] and [(AfterSelectHook)] *)
  BeforeSelectHook : Table -> option (Ctx -> SelectQuery -> Ext -> option error * SelectQuery * Ext);
  AfterSelectHook : Table -> option (Ctx -> SelectQuery -> Ext -> option error * SelectQuery * Ext);
  (** [q.scan(ctx, iquery, query, model, hasDest)] and [q.exec(ctx, iquery, query)] *)
  scan : Ctx -> option Conn -> string -> option Model -> bool -> DB -> Ext ->
         (option sqlResult * option error) * DB * Ext;
  exec : Ctx -> option Conn -> queryAppender -> string -> DB -> Ext ->
         (option sqlResult * option error) * DB * Ext;
  (** [conn.QueryContext(ctx, query)], [conn.QueryRowContext(ctx, query).Scan(&num)]
      and [.Scan(&exists)]: the value is what the variable holds afterwards *)
  QueryContext : option Conn -> Ctx -> string -> Ext -> (option Rows * option error) * Ext;
  QueryRowScanInt : option Conn -> Ctx -> string -> Ext -> (Z * option error) * Ext;
  QueryRowScanBool : option Conn -> Ctx -> string -> Ext -> (bool * option error) * Ext;
  (** [j.selectMany(ctx, q)] and [j.selectM2M(ctx, q)] *)
  selectMany : relationJoin -> Ctx -> SelectQuery -> DB -> Ext -> option error * DB * Ext;
  selectM2M : relationJoin -> Ctx -> SelectQuery -> DB -> Ext -> option error * DB * Ext
}.

Variable X : Runtime.

(** What a terminal call acts on: its receiver, the handle [q.db], the
    outer state, and the statements issued so far with their replies,
    oldest first. *)
Record state : Type := mkState {
  stQuery : SelectQuery;
  stDB : DB;
  stExt : Ext;
  stLog : list exchange
}.

(** A call returns a value, or panics; either way it leaves a state. *)
Inductive outcome (A : Type) : Type :=
| Done (a : A) (s : state)
| Panic (s : state).

Arguments Panic {A}.

Definition M (A : Type) : Type := state -> outcome A.

Definition ret {A : Type} (a : A) : M A := fun s => Done a s.

Definition bind {A B : Type} (m : M A) (k : A -> M B) : M B :=
  fun s => match m s with
           | Done a s' => k a s'
           | Panic s' => Panic s'
           end.

Notation "x <- m ;; k" := (bind m (fun x => k))
  (at level 61, m at next level, right associativity).
Notation "m ;;; k" := (bind m (fun _ => k))
  (at level 61, right associativity).

Definition panic {A : Type} : M A := fun s => Panic s.

Definition getQuery : M SelectQuery := fun s => Done (stQuery s) s.

Definition putQuery (q : SelectQuery) : M unit :=
  fun s => Done tt {| stQuery := q; stDB := stDB s; stExt := stExt s; stLog := stLog s |}.

Definition record (st : statement) (rp : reply) : M unit :=
  fun s => Done tt {| stQuery := stQuery s; stDB := stDB s; stExt := stExt s;
                      stLog := stLog s ++ [{| sent := st; got := rp |}] |}.

(** A call that may change the receiver and the outer state. *)
Definition onQuery {A : Type}
    (f : SelectQuery -> Ext -> A * SelectQuery * Ext) : M A :=
  fun s => let '(a, q, x) := f (stQuery s) (stExt s) in
           Done a {| stQuery := q; stDB := stDB s; stExt := x; stLog := stLog s |}.

(** A call that may change the handle and the outer state. *)
Definition onDB {A : Type} (f : DB -> Ext -> A * DB * Ext) : M A :=
  fun s => let '(a, db, x) := f (stDB s) (stExt s) in
           Done a {| stQuery := stQuery s; stDB := db; stExt := x; stLog := stLog s |}.

(** A call that may change the outer state only. *)
Definition onExt {A : Type} (f : Ext -> A * Ext) : M A :=
  fun s => let '(a, x) := f (stExt s) in
           Done a {| stQuery := stQuery s; stDB := stDB s; stExt := x; stLog := stLog s |}.

(** Rendering through one of the [AppendQuery] methods, on the receiver. *)
Definition render (f : SelectQuery -> Formatter -> bytes -> result * SelectQuery)
    (b : bytes) : M result :=
  fun s => let '(r, q) := f (stQuery s) (dbFmter X) b in
           Done r {| stQuery := q; stDB := stDB s; stExt := stExt s; stLog := stLog s |}.

(** [q.db.beforeQuery(ctx, iquery, query, nil, query, q.model)]: the query,
    its text and nil arguments reach [beforeQuery] of hook.go. *)
Definition db_beforeQuery (ctx : Ctx) (app : queryAppender) (query : string)
    : M (Ctx * option QueryEvent) :=
  fun s =>
    let '(r, db, x) :=
      Hook.beforeQuery (stDB s) ctx app query None (timeNow X (stExt s)) (stExt s) in
    Done r {| stQuery := stQuery s; stDB := db; stExt := x; stLog := stLog s |}.

(** [q.db.afterQuery(ctx, event, res, err)] *)
Definition db_afterQuery (ctx : Ctx) (event : option QueryEvent)
    (res : option sqlResult) (e : option error) : M unit :=
  fun s =>
    match Hook.afterQuery (stDB s) ctx event res e (stExt s) with
    | None => Panic s
    | Some (_, db, x) =>
        Done tt {| stQuery := stQuery s; stDB := db; stExt := x; stLog := stLog s |}
    end.

(** Modelled from the spec: [baseQuery.resolveConn] is not under src/.  A
    query whose caller pinned a connection runs on that connection; any other
    runs on the handle's pool. *)
Definition resolveConn (q : SelectQuery) : option Conn := conn q.

(** Modelled from the spec: [DB.makeQueryBytes] is not under src/.  It gives an
    empty buffer to render into. *)
Definition makeQueryBytes : bytes := nilBytes.

(** Modelled from the spec: [baseQuery.hasFeature] is not under src/.  It asks
    the dialect's capability bit set. *)
Definition hasFeature (feat : feature.Feature) : bool :=
  feature.Has (dbFeatures X) feat.

(** [func (q *SelectQuery) selectJoins(ctx, joins)]: the follow-up statement
    of a to-many or many-to-many join runs on a fresh query,
    [q.db.NewSelect().Conn(q.conn)]. *)
Fixpoint selectJoins1 (ctx : Ctx) (j : relationJoin) {struct j} : M (option error) :=
  match Type_ (rjRelation j) with
  | HasOneRelation | BelongsToRelation =>
      (fix each (js : list relationJoin) : M (option error) :=
         match js with
         | [] => ret None
         | k :: rest =>
             e <- selectJoins1 ctx k ;;
             match e with
             | Some e => ret (Some e)
             | None => each rest
             end
         end) (rjJoins j)
  | HasManyRelation =>
      q <- getQuery ;;
      e <- onDB (selectMany X j ctx (set_conn NewSelectQuery (conn q))) ;;
      record (stmtSelectMany (conn q) j) (gotErr e) ;;;
      ret e
  | ManyToManyRelation =>
      q <- getQuery ;;
      e <- onDB (selectM2M X j ctx (set_conn NewSelectQuery (conn q))) ;;
      record (stmtSelectM2M (conn q) j) (gotErr e) ;;;
      ret e
  | invalidRelation => panic
  end.

Fixpoint selectJoins (ctx : Ctx) (js : list relationJoin) : M (option error) :=
  match js with
  | [] => ret None
  | j :: rest =>
      e <- selectJoins1 ctx j ;;
      match e with
      | Some e => ret (Some e)
      | None => selectJoins ctx rest
      end
  end.

(** [func (q *SelectQuery) beforeSelectHook(ctx)] *)
Definition beforeSelectHook (ctx : Ctx) (t : Table) : M (option error) :=
  match BeforeSelectHook X t with
  | Some hook => onQuery (hook ctx)
  | None => ret None
  end.

(** [func (q *SelectQuery) afterSelectHook(ctx)] *)
Definition afterSelectHook (ctx : Ctx) (t : Table) : M (option error) :=
  match AfterSelectHook X t with
  | Some hook => onQuery (hook ctx)
  | None => ret None
  end.

(** [q.scan(ctx, q, query, model, true)], recorded with its reply. *)
Definition q_scan (ctx : Ctx) (query : string) (m : option Model)
    : M (option sqlResult * option error) :=
  q <- getQuery ;;
  r <- onDB (scan X ctx (resolveConn q) query m true) ;;
  record (stmtScan (resolveConn q) query) (gotResult (fst r) (snd r)) ;;;
  ret r.

(** [q.exec(ctx, iquery, query)], recorded with its reply. *)
Definition q_exec (ctx : Ctx) (app : queryAppender) (query : string)
    : M (option sqlResult * option error) :=
  q <- getQuery ;;
  r <- onDB (exec X ctx (resolveConn q) app query) ;;
  record (stmtExec (resolveConn q) app query) (gotResult (fst r) (snd r)) ;;;
  ret r.

(** The guard of [scanResult] against a to-many join when [dest] is given. *)
Definition hasToManyJoin (js : list relationJoin) : bool :=
  existsb (fun j => match Type_ (rjRelation j) with
                    | HasManyRelation | ManyToManyRelation => true
                    | _ => false
                    end) js.

Definition errToManyDest : error :=
  errorString "When querying has-many or many-to-many relationships, you should use Model instead of the dest parameter in Scan.".

(** [func (q *SelectQuery) scanResult(ctx, dest...)] *)
Definition scanResult (ctx : Ctx) (dest : list nat)
    : M (option sqlResult * option error) :=
  q <- getQuery ;;
  match err q with
  | Some e => ret (None, Some e)
  | None =>
  match getModel X q dest with
  | (_, Some e) => ret (None, Some e)
  | (m, None) =>
  if (0 <? length dest)%nat
     && match tableModel q with
        | Some tm => (0 <? length (tmJoins tm))%nat && hasToManyJoin (tmJoins tm)
        | None => false
        end
  then ret (None, Some errToManyDest)
  else
  e <- match table q with
       | Some t => beforeSelectHook ctx t
       | None => ret None
       end ;;
  match e with
  | Some e => ret (None, Some e)
  | None =>
  e <- onQuery (beforeAppendModel X ctx) ;;
  match e with
  | Some e => ret (None, Some e)
  | None =>
  q <- getQuery ;;
  putQuery (setCommentFromContext X ctx q) ;;;
  r <- render (AppendQuery) makeQueryBytes ;;
  match r with
  | (_, Some e) => ret (None, Some e)
  | (query, None) =>
  r <- q_scan ctx query m ;;
  match r with
  | (_, Some e) => ret (None, Some e)
  | (None, None) => panic
  | (Some res, None) =>
  e <- (if 0 <? fst (RowsAffected res)
        then match m with
             | Some (tableModelOf tm) => selectJoins ctx (tmJoins tm)
             | _ => ret None
             end
        else ret None) ;;
  match e with
  | Some e => ret (None, Some e)
  | None =>
  q <- getQuery ;;
  e <- match table q with
       | Some t => afterSelectHook ctx t
       | None => ret None
       end ;;
  match e with
  | Some e => ret (None, Some e)
  | None => ret (Some res, None)
  end end end end end end end end.

(** [func (q *SelectQuery) Scan(ctx, dest...)] *)
Definition Scan (ctx : Ctx) (dest : list nat) : M (option error) :=
  r <- scanResult ctx dest ;;
  ret (snd r).

(** [func (q *SelectQuery) Rows(ctx)] *)
Definition Rows_ (ctx : Ctx) : M (option Rows * option error) :=
  q <- getQuery ;;
  match err q with
  | Some e => ret (None, Some e)
  | None =>
  e <- onQuery (beforeAppendModel X ctx) ;;
  match e with
  | Some e => ret (None, Some e)
  | None =>
  q <- getQuery ;;
  putQuery (setCommentFromContext X ctx q) ;;;
  r <- render AppendQuery makeQueryBytes ;;
  match r with
  | (_, Some e) => ret (None, Some e)
  | (query, None) =>
  ce <- db_beforeQuery ctx selectQueryApp query ;;
  q <- getQuery ;;
  r <- onExt (QueryContext X (resolveConn q) (fst ce) query) ;;
  record (stmtQuery (resolveConn q) query) (gotRows (snd r)) ;;;
  db_afterQuery (fst ce) (snd ce) None (snd r) ;;;
  ret r
  end end end.

(** [func (q *SelectQuery) Exec(ctx, dest...)] *)
Definition Exec (ctx : Ctx) (dest : list nat) : M (option sqlResult * option error) :=
  q <- getQuery ;;
  match err q with
  | Some e => ret (None, Some e)
  | None =>
  e <- onQuery (beforeAppendModel X ctx) ;;
  match e with
  | Some e => ret (None, Some e)
  | None =>
  q <- getQuery ;;
  putQuery (setCommentFromContext X ctx q) ;;;
  r <- render AppendQuery makeQueryBytes ;;
  match r with
  | (_, Some e) => ret (None, Some e)
  | (query, None) =>
  if (0 <? length dest)%nat
  then
    q <- getQuery ;;
    match getModel X q dest with
    | (_, Some e) => ret (None, Some e)
    | (m, None) =>
        r <- q_scan ctx query m ;;
        match r with
        | (_, Some e) => ret (None, Some e)
        | (res, None) => ret (res, None)
        end
    end
  else
    r <- q_exec ctx selectQueryApp query ;;
    match r with
    | (_, Some e) => ret (None, Some e)
    | (res, None) => ret (res, None)
    end
  end end end.

(** [func (q *SelectQuery) Count(ctx)] *)
Definition Count (ctx : Ctx) : M (Z * option error) :=
  q <- getQuery ;;
  match err q with
  | Some e => ret (0, Some e)
  | None =>
  putQuery (setCommentFromContext X ctx q) ;;;
  r <- render countQuery_AppendQuery nilBytes ;;
  match r with
  | (_, Some e) => ret (0, Some e)
  | (query, None) =>
  ce <- db_beforeQuery ctx countQueryApp query ;;
  q <- getQuery ;;
  r <- onExt (QueryRowScanInt X (resolveConn q) (fst ce) query) ;;
  record (stmtQueryRow (resolveConn q) countQueryApp query) (gotInt (fst r) (snd r)) ;;;
  db_afterQuery (fst ce) (snd ce) None (snd r) ;;;
  ret r
  end end.

(** [func (q *SelectQuery) scanAndCountConcurrently(ctx, dest...)] runs two
    goroutines; it is outside this embedding and stands here as given. *)
Variable scanAndCountConcurrently : Ctx -> list nat -> M (Z * option error).

(** [func (q *SelectQuery) scanAndCountSeq(ctx, dest...)] *)
Definition scanAndCountSeq (ctx : Ctx) (dest : list nat) : M (Z * option error) :=
  q <- getQuery ;;
  firstErr <- (if 0 <=? limit q then Scan ctx dest else ret None) ;;
  r <- Count ctx ;;
  let firstErr :=
    match snd r, firstErr with
    | Some e, None => Some e
    | _, _ => firstErr
    end in
  ret (fst r, firstErr).

(** [func (q *SelectQuery) ScanAndCount(ctx, dest...)]; [int(n)] keeps an
    [int64] as it is. *)
Definition ScanAndCount (ctx : Ctx) (dest : list nat) : M (Z * option error) :=
  q <- getQuery ;;
  if (offset q =? 0) && (limit q =? 0)
  then
    r <- scanResult ctx dest ;;
    match r with
    | (_, Some e) => ret (0, Some e)
    | (None, None) => panic
    | (Some res, None) =>
        match RowsAffected res with
        | (_, Some e) => ret (0, Some e)
        | (n, None) => ret (n, None)
        end
    end
  else if isNil (conn q)
  then scanAndCountConcurrently ctx dest
  else scanAndCountSeq ctx dest.

(** [func (q *SelectQuery) selectExists(ctx)] *)
Definition selectExists (ctx : Ctx) : M (bool * option error) :=
  q <- getQuery ;;
  putQuery (setCommentFromContext X ctx q) ;;;
  r <- render selectExistsQuery_AppendQuery nilBytes ;;
  match r with
  | (_, Some e) => ret (false, Some e)
  | (query, None) =>
  ce <- db_beforeQuery ctx selectExistsQueryApp query ;;
  q <- getQuery ;;
  r <- onExt (QueryRowScanBool X (resolveConn q) (fst ce) query) ;;
  record (stmtQueryRow (resolveConn q) selectExistsQueryApp query)
         (gotBool (fst r) (snd r)) ;;;
  db_afterQuery (fst ce) (snd ce) None (snd r) ;;;
  ret r
  end.

(** [func (q *SelectQuery) whereExists(ctx)] *)
Definition whereExists (ctx : Ctx) : M (bool * option error) :=
  q <- getQuery ;;
  putQuery (setCommentFromContext X ctx q) ;;;
  r <- render whereExistsQuery_AppendQuery nilBytes ;;
  match r with
  | (_, Some e) => ret (false, Some e)
  | (query, None) =>
  r <- q_exec ctx whereExistsQueryApp query ;;
  match r with
  | (_, Some e) => ret (false, Some e)
  | (None, None) => panic
  | (Some res, None) =>
      match RowsAffected res with
      | (_, Some e) => ret (false, Some e)
      | (n, None) => ret (n =? 1, None)
      end
  end end.

(** [func (q *SelectQuery) Exists(ctx)] *)
Definition Exists (ctx : Ctx) : M (bool * option error) :=
  q <- getQuery ;;
  match err q with
  | Some e => ret (false, Some e)
  | None =>
      if hasFeature (SelectExists X)
      then selectExists ctx
      else whereExists ctx
  end.

End Engine.

Arguments Done {Ctx Time Ext A}.
Arguments Panic {Ctx Time Ext A}.
Arguments panic {Ctx Time Ext A}.
Arguments ret {Ctx Time Ext A}.

(** *** Relation options *)

(** [type RelationOpts struct]; a nil [Apply] is [None]. *)
Record RelationOpts : Type := mkRelationOpts {
  Apply : option userFn;
  AdditionalJoinOnConditions : slice QueryWithArgs
}.

Section RelationOptions.

Variable Formatter : Type.
Variable R : Renderer Formatter.

(** [func (q *SelectQuery) RelationWithOpts(name, opts)] *)
Definition RelationWithOpts (q : SelectQuery) (name : string) (opts : RelationOpts)
    : SelectQuery :=
  match tableModel q with
  | None => setErr q errNilModel
  | Some tm =>
      match tableModelJoin R tm name with
      | None => setErr q (errNoRelation q name)
      | Some h =>
          let j := jhJoin h in
          let j := match Apply opts with
                   | Some f => applyToRelation j [f]
                   | None => j
                   end in
          let j := if 0 <? len (AdditionalJoinOnConditions opts)
                   then set_rjAdditionalJoinOnConditions j
                          (AdditionalJoinOnConditions opts)
                   else j in
          set_tableModel q (Some (jhPut h j))
      end
  end.

End RelationOptions.

(** *** Index hints *)

Section IndexHints.

(** [q.db.dialect.Name()], and the methods of [idxHintsQuery] the builders
    below hand the index names to. *)
Variable dbDialectName : dialect.Name.
Variables addUseIndex addUseIndexForJoin addUseIndexForOrderBy addUseIndexForGroupBy
  addIgnoreIndex addIgnoreIndexForJoin addIgnoreIndexForOrderBy addIgnoreIndexForGroupBy
  addForceIndex addForceIndexForJoin addForceIndexForOrderBy addForceIndexForGroupBy
  : SelectQuery -> list string -> SelectQuery.

(** [if q.db.dialect.Name() == dialect.MySQL { q.add...(indexes...) }; return q] *)
Definition onMySQL (add : SelectQuery -> list string -> SelectQuery)
    (q : SelectQuery) (indexes : list string) : SelectQuery :=
  if dialect.Name_eqb dbDialectName dialect.MySQL then add q indexes else q.

Definition UseIndex := onMySQL addUseIndex.
Definition UseIndexForJoin := onMySQL addUseIndexForJoin.
Definition UseIndexForOrderBy := onMySQL addUseIndexForOrderBy.
Definition UseIndexForGroupBy := onMySQL addUseIndexForGroupBy.
Definition IgnoreIndex := onMySQL addIgnoreIndex.
Definition IgnoreIndexForJoin := onMySQL addIgnoreIndexForJoin.
Definition IgnoreIndexForOrderBy := onMySQL addIgnoreIndexForOrderBy.
Definition IgnoreIndexForGroupBy := onMySQL addIgnoreIndexForGroupBy.
Definition ForceIndex := onMySQL addForceIndex.
Definition ForceIndexForJoin := onMySQL addForceIndexForJoin.
Definition ForceIndexForOrderBy := onMySQL addForceIndexForOrderBy.
Definition ForceIndexForGroupBy := onMySQL addForceIndexForGroupBy.

End IndexHints.

End Select.

(** ** A small dialect, schema and database to run the embedding on *)

Module Fixtures.

Import schema Select.

Local Open Scope string_scope.

(** A formatter: its dialect and whether it is the no-op formatter. *)
Record formatter : Type := mkFormatter {
  fmtDialect : dialect.Name;
  fmtNop : bool
}.

Definition pgFormatter : formatter := {| fmtDialect := dialect.PG; fmtNop := false |}.

(** Modelled from the spec: [Dialect.AppendIdent] is not under src/.  An
    identifier is written between the dialect's quote characters. *)
Definition quoteIdent (s : string) : string := quote ++ s ++ quote.

(** Modelled from the spec: the formatting of one bound argument is not under
    src/.  A number is written in decimal, a string between single quotes. *)
Definition formatValue (v : value) : string :=
  match v with
  | VNil => "NULL"
  | VBool true => "TRUE"
  | VBool false => "FALSE"
  | VInt z => Pgdialect.FormatInt10 z
  | VString s => "'" ++ s ++ "'"
  end.

(** Modelled from the spec: [Formatter.AppendQuery] is not under src/.  Each
    positional placeholder [?] is replaced by the next bound argument. *)
Fixpoint formatQuery (query : string) (args : list value) : string :=
  match query with
  | EmptyString => EmptyString
  | String c rest =>
      if Ascii.eqb c "?"%char
      then match args with
           | v :: args' => formatValue v ++ formatQuery rest args'
           | [] => String c (formatQuery rest [])
           end
      else String c (formatQuery rest args)
  end.

(** Modelled from the spec: [QueryWithArgs.AppendQuery] is not under src/.  A
    bare identifier is quoted; a query expression has its placeholders
    filled in. *)
Definition specFragment (f : QueryWithArgs) (_ : formatter) (b : bytes) : result :=
  match Args f with
  | None => (appendStr b (quoteIdent (Query f)), None)
  | Some args => (appendStr b (formatQuery (Query f) args), None)
  end.

(** Modelled from the spec: [appendComment] is not under src/.  A comment, if
    set, is emitted as a leading block comment. *)
Definition specComment (b : bytes) (c : string) : bytes :=
  if string_dec c "" then b else appendStr b ("/* " ++ c ++ " */ ").

(** Modelled from the spec: the package-level [appendColumns] is not under
    src/.  All of the table's fields are emitted, aliased to the table's
    alias. *)
Fixpoint specTableColumns (b : bytes) (alias : string) (fields : list Field) : bytes :=
  match fields with
  | [] => b
  | [f] => appendStr b (alias ++ "." ++ SQLName f)
  | f :: rest => specTableColumns (appendStr b (alias ++ "." ++ SQLName f ++ ", ")) alias rest
  end.

Definition commaSeparated (fs : list QueryWithArgs) (fmter : formatter) (b : bytes)
    : result :=
  rangeAppend (fun positive f b =>
                 specFragment f fmter (if positive then appendStr b ", " else b))
              false fs b.

(** Modelled from the spec: [baseQuery.hasTables] and [appendTablesWithAlias]
    are not under src/.  The FROM list is the model's table, aliased, and the
    tables added by name. *)
Definition specHasTables (q : SelectQuery) : bool :=
  negb (isNil (table q)) || (0 <? len (tables q))%Z.

Definition specTables (q : SelectQuery) (fmter : formatter) (b : bytes) : result :=
  match table q with
  | Some t =>
      let b := appendStr b (quoteIdent (String_ t) ++ " AS " ++ quoteIdent (SQLAlias t)) in
      if (0 <? len (tables q))%Z
      then commaSeparated (elems (tables q)) fmter (appendStr b ", ")
      else (b, None)
  | None => commaSeparated (elems (tables q)) fmter b
  end.

(** Modelled from the spec: [whereBaseQuery.appendWhere] is not under src/.
    The fragments are parenthesized and joined by each fragment's own
    separator. *)
Definition specWhere (q : SelectQuery) (fmter : formatter) (b : bytes) (_ : bool)
    : result :=
  match where_ q with
  | [] => (b, None)
  | ws =>
      rangeAppend
        (fun positive w b =>
           let b := if positive then appendStr b (Sep w) else b in
           match specFragment (Fragment w) fmter (appendStr b "(") with
           | (b, None) => (appendStr b ")", None)
           | r => r
           end)
        false ws (appendStr b " WHERE ")
  end.

(** Modelled from the spec: [appendOrder] and [appendLimitOffset] are not
    under src/.  ORDER BY lists the order fragments; LIMIT and OFFSET are
    emitted when positive. *)
Definition specOrder (q : SelectQuery) (fmter : formatter) (b : bytes) : result :=
  if (0 <? len (order q))%Z
  then commaSeparated (elems (order q)) fmter (appendStr b " ORDER BY ")
  else (b, None).

Definition specLimitOffset (q : SelectQuery) (_ : formatter) (b : bytes) : result :=
  let b := if (0 <? limit q)%Z
           then appendStr b (" LIMIT " ++ Pgdialect.FormatInt10 (limit q)) else b in
  let b := if (0 <? offset q)%Z
           then appendStr b (" OFFSET " ++ Pgdialect.FormatInt10 (offset q)) else b in
  (b, None).

(** Modelled from the spec: [relationJoin.appendHasOneJoin], [appendAlias] and
    [appendAliasColumn] are not under src/.  A to-one relation adds a join to
    the FROM clause and aliased columns per joined table. *)
Definition specAlias (j : relationJoin) (_ : formatter) (b : bytes) : bytes :=
  appendStr b (quoteIdent (SQLAlias (rjJoinTable j))).

Definition specAliasColumn (j : relationJoin) (_ : formatter) (b : bytes)
    (name : string) : bytes :=
  appendStr b (quoteIdent (SQLAlias (rjJoinTable j) ++ "__" ++ name)).

Definition specHasOneJoin (j : relationJoin) (fmter : formatter) (b : bytes)
    (_ : SelectQuery) : result :=
  (appendStr b ("LEFT JOIN " ++ quoteIdent (String_ (rjJoinTable j)) ++ " AS "
                ++ quoteIdent (SQLAlias (rjJoinTable j))), None).

(** The schema: users have one profile, restricted to active profiles by a
    condition on the relation, and many orders. *)
Definition usersTable : Table :=
  {| String_ := "users"; SQLAlias := "u";
     Fields := [ {| Name := "ID"; SQLName := quoteIdent "id" |} ];
     FieldMap := [ ("id", {| Name := "ID"; SQLName := quoteIdent "id" |}) ] |}.

Definition profilesTable : Table :=
  {| String_ := "profiles"; SQLAlias := "profile";
     Fields := [ {| Name := "ID"; SQLName := quoteIdent "id" |} ];
     FieldMap := [ ("id", {| Name := "ID"; SQLName := quoteIdent "id" |}) ] |}.

Definition ordersTable : Table :=
  {| String_ := "orders"; SQLAlias := "order";
     Fields := [ {| Name := "ID"; SQLName := quoteIdent "id" |} ];
     FieldMap := [ ("id", {| Name := "ID"; SQLName := quoteIdent "id" |}) ] |}.

Definition profileJoin : relationJoin :=
  {| rjRelation := {| Type_ := HasOneRelation; Condition := ["profile.active"] |};
     rjJoinTable := profilesTable; rjJoins := []; rjApply := None;
     rjColumns := None; rjAdditionalJoinOnConditions := None |}.

Definition ordersJoin : relationJoin :=
  {| rjRelation := {| Type_ := HasManyRelation; Condition := [] |};
     rjJoinTable := ordersTable; rjJoins := []; rjApply := None;
     rjColumns := None; rjAdditionalJoinOnConditions := None |}.

Definition declaredRelation (name : string) : option relationJoin :=
  if string_dec name "Profile" then Some profileJoin
  else if string_dec name "Orders" then Some ordersJoin
  else None.

(** Modelled from the spec: [tableModel.join] is not under src/.  A relation
    is looked up by name among those the model declares; a name that does not
    exist is reported as absent. *)
Definition specJoin (tm : TableModel) (name : string) : option joinHandle :=
  match declaredRelation name with
  | None => None
  | Some j =>
      Some {| jhJoin := j;
              jhPut := fun j' => {| tmTable := tmTable tm; tmJoins := tmJoins tm ++ [j'] |} |}
  end.

(** The one user closure of the fixtures, handle 0: [q.Where("profile.verified")]. *)
Definition specUserFn (f : userFn) (q : SelectQuery) : SelectQuery :=
  match f with
  | O => Where q "profile.verified" []
  | _ => q
  end.

(** Modelled from the spec: the code the renderer calls that is not under
    src/, as defined above.  The queries of the fixtures have no WITH clause
    and no index hints, for which nothing is emitted; a table model is an
    immutable value here, so its clone is the value itself. *)
Definition specRenderer : Renderer formatter :=
  {| runUserFn := specUserFn;
     tableModelJoin := specJoin;
     tableModelClone := fun tm => tm;
     formatterWithModel := fun f _ => f;
     IsNop := fmtNop;
     DialectName := fmtDialect;
     AppendString := fun _ b s => appendStr b ("'" ++ s ++ "'");
     fragmentAppendQuery := specFragment;
     appendComment := specComment;
     appendTableColumns := specTableColumns;
     appendWith := fun _ _ b => (b, None);
     hasTables := specHasTables;
     appendTablesWithAlias := specTables;
     appendIndexHints := fun _ _ b => (b, None);
     appendWhere := specWhere;
     appendOrder := specOrder;
     appendLimitOffset := specLimitOffset;
     appendHasOneJoin := specHasOneJoin;
     appendAlias := specAlias;
     appendAliasColumn := specAliasColumn |}.

(** The query [db.NewSelect().Model(&user)] leaves: the model's table and
    table model, no joins yet. *)
Definition usersModel : TableModel := {| tmTable := usersTable; tmJoins := [] |}.

Definition selectUsers : SelectQuery :=
  set_model
    (set_tableModel (set_table NewSelectQuery (Some usersTable)) (Some usersModel))
    (Some (tableModelOf usersModel)).

(** The outer state of the fixtures: how many rows the statement at hand
    matches in the database, and the clock. *)
Record world : Type := mkWorld {
  matching : Z;
  clock : Z
}.

Definition context : Type := option string.

Abbreviation fixtureDB := (Hook.DB context Z world).

(** Modelled from the spec: [baseQuery.getModel] is not under src/.  With no
    destination the query's own model is the target; a query with neither is
    an error. *)
Definition specGetModel (q : SelectQuery) (dest : list nat)
    : option Model * option error :=
  match dest with
  | _ :: _ => (Some (otherModel dest), None)
  | [] =>
      match tableModel q, model q with
      | Some tm, _ => (Some (tableModelOf tm), None)
      | None, Some m => (Some m, None)
      | None, None => (None, Some errNilModel)
      end
  end.

(** Modelled from the spec: [baseQuery.scan] and [baseQuery.exec] are not
    under src/.  Execution renders nothing; it invokes the hook pipeline
    around the adapter, which reports the rows affected. *)
Definition specRun (app : queryAppender) (rows : world -> Z) (ctx : context)
    (query : string) (db : fixtureDB) (x : world)
    : (option sqlResult * option error) * fixtureDB * world :=
  let '((ctx', ev), db1, x1) := Hook.beforeQuery db ctx app query None (clock x) x in
  let res := Some {| RowsAffected := (rows x1, None) |} in
  match Hook.afterQuery db1 ctx' ev res None x1 with
  | Some (_, db2, x2) => ((res, None), db2, x2)
  | None => ((res, None), db1, x1)
  end.

(** Modelled from the spec: [setCommentFromContext] is not under src/.  A
    comment propagated via the context replaces the query's. *)
Definition specSetComment (ctx : context) (q : SelectQuery) : SelectQuery :=
  match ctx with
  | Some c => set_comment q c
  | None => q
  end.

(** The capability bit of the fixtures for [feature.SelectExists]. *)
Definition selectExistsBit : feature.Feature := Z.shiftl 1 22.

(** Modelled from the spec: the code the terminal calls reach that is not
    under src/.  A scan affects as many rows as match; the portable exists
    statement affects one row if any row matches and none otherwise; models
    have no hooks; a follow-up statement succeeds. *)
Definition specRuntime (features : feature.Feature)
    : Runtime formatter context Z (list Z) world :=
  {| dbFmter := pgFormatter;
     dbFeatures := features;
     SelectExists := selectExistsBit;
     timeNow := clock;
     getModel := specGetModel;
     beforeAppendModel := fun _ q x => (None, q, x);
     setCommentFromContext := specSetComment;
     BeforeSelectHook := fun _ => None;
     AfterSelectHook := fun _ => None;
     scan := fun ctx _ query _ _ => specRun selectQueryApp matching ctx query;
     exec := fun ctx _ app query =>
               specRun app (fun x => if (0 <? matching x)%Z then 1%Z else 0%Z) ctx query;
     QueryContext := fun _ _ _ x => ((Some [matching x], None), x);
     QueryRowScanInt := fun _ _ _ x => ((matching x, None), x);
     QueryRowScanBool := fun _ _ _ x => (((0 <? matching x)%Z, None), x);
     selectMany := fun _ _ _ db x => (None, db, x);
     selectM2M := fun _ _ _ db x => (None, db, x) |}.

(** A handle with no statement-level hooks and fresh counters. *)
Definition plainDB : fixtureDB :=
  {| Hook.queryHooks := []; Hook.stats := {| Hook.Queries := 0; Hook.Errors := 0 |} |}.

Definition start (q : SelectQuery) (rows : Z) : state context Z world :=
  {| stQuery := q; stDB := plainDB; stExt := {| matching := rows; clock := 0 |};
     stLog := [] |}.

(** The concurrent branch of [ScanAndCount] is not run by the fixtures. *)
Definition notRun : context -> list nat -> M context Z world (Z * option error) :=
  fun _ _ => panic.


(** Entities [0], [1], [2], ... whose hook methods record the entity they
    run on; every method of entity [0] fails. *)
Definition recordingHook : Hook.hookFn unit nat (list nat) :=
  fun _ v seen =>
    ((if Nat.eqb v 0 then Some (errorString "entity 0 refused") else None),
     (seen ++ [v])%list).

Definition recordingHooks : Hook.modelHooks unit nat (list nat) :=
  {| Hook.AfterSelect := recordingHook;
     Hook.BeforeInsert := recordingHook;
     Hook.AfterInsert := recordingHook;
     Hook.BeforeUpdate := recordingHook;
     Hook.AfterUpdate := recordingHook;
     Hook.BeforeDelete := recordingHook;
     Hook.AfterDelete := recordingHook |}.

(** Queries of the fixtures, as a caller builds them. *)

(** [db.NewSelect().TableExpr("users").Where("age > ?", 18)] *)
Definition adults : SelectQuery :=
  Where (TableExpr NewSelectQuery "users" []) "age > ?" [VInt 18].

(** [adults.Limit(n).Conn(c7)]: a limit and a pinned connection. *)
Definition pinnedLimit (n : Z) : SelectQuery :=
  Conn_ (Limit adults n) 7%nat.

(** [db.NewSelect().TableExpr("users").JoinOn("a = b")]: a join condition
    with no join before it. *)
Definition joinOnWithoutJoin : SelectQuery :=
  JoinOn (TableExpr NewSelectQuery "users" []) "a = b" [].

(** [db.NewSelect().TableExpr("users").Distinct()] *)
Definition distinctUsers : SelectQuery :=
  Distinct (TableExpr NewSelectQuery "users" []).

(** [db.NewSelect().TableExpr("users").GroupExpr("name")] *)
Definition usersByName : SelectQuery :=
  GroupExpr (TableExpr NewSelectQuery "users" []) "name" [].

(** [db.NewSelect().Model(&user).Relation("Profile")] and [.Relation("Orders")];
    the panic on several closures cannot occur with none. *)
Definition withRelation (q : SelectQuery) (name : string) : SelectQuery :=
  match Relation_ specRenderer q name [] with
  | Some q' => q'
  | None => q
  end.

Definition usersWithProfile : SelectQuery := withRelation selectUsers "Profile".
Definition usersWithOrders : SelectQuery := withRelation selectUsers "Orders".

(** [adults.Join("JOIN b")] *)
Definition adultsJoinB : SelectQuery := Join adults "JOIN b" [].

(** [adults.Union(joinOnWithoutJoin)]: a set operation whose operand holds an
    error. *)
Definition adultsUnionErred : SelectQuery := Union adults joinOnWithoutJoin.

(** A renderer for which every fragment renders as its text, whatever its
    arguments. *)
Definition textRenderer : Renderer formatter :=
  {| runUserFn := specUserFn;
     tableModelJoin := specJoin;
     tableModelClone := fun tm => tm;
     formatterWithModel := fun f _ => f;
     IsNop := fmtNop;
     DialectName := fmtDialect;
     AppendString := fun _ b s => appendStr b ("'" ++ s ++ "'");
     fragmentAppendQuery := fun f _ b => (appendStr b (Query f), None);
     appendComment := specComment;
     appendTableColumns := specTableColumns;
     appendWith := fun _ _ b => (b, None);
     hasTables := specHasTables;
     appendTablesWithAlias := specTables;
     appendIndexHints := fun _ _ b => (b, None);
     appendWhere := specWhere;
     appendOrder := specOrder;
     appendLimitOffset := specLimitOffset;
     appendHasOneJoin := specHasOneJoin;
     appendAlias := specAlias;
     appendAliasColumn := specAliasColumn |}.

(** Code that fails, to stand where code must not be called. *)
Definition refuses (what : string) : SelectQuery -> formatter -> bytes -> result :=
  fun _ _ _ => (nilBytes, Some (errorString what)).

(** A statement-level hook that counts the calls of the before phase in the
    context and writes its name and the phase to the outer state. *)
Definition namedHook (name : string) : Hook.QueryHook nat Z (list string) :=
  {| Hook.BeforeQuery := fun ctx ev x => (S ctx, ev, (x ++ [("before " ++ name)%string])%list);
     Hook.AfterQuery := fun ctx ev x => (ev, (x ++ [("after " ++ name)%string])%list) |}.

Definition hookedDB : Hook.DB nat Z (list string) :=
  {| Hook.queryHooks := [namedHook "a"; namedHook "b"];
     Hook.stats := {| Hook.Queries := 0; Hook.Errors := 0 |} |}.

(** A capability set as [pgdialect.New] builds it, from flags that are
    distinct bits, with the bit of the fixtures for [feature.SelectExists]. *)
Definition pgFeatures : feature.Feature :=
  PgdialectDialect.Features
    (PgdialectDialect.New (Z.shiftl 1 0) (Z.shiftl 1 1) (Z.shiftl 1 2) (Z.shiftl 1 3)
       (Z.shiftl 1 5) (Z.shiftl 1 6) (Z.shiftl 1 9) (Z.shiftl 1 10) (Z.shiftl 1 11)
       (Z.shiftl 1 14) (Z.shiftl 1 15) (Z.shiftl 1 16) (Z.shiftl 1 20) (Z.shiftl 1 17)
       selectExistsBit (Z.shiftl 1 25) (Z.shiftl 1 26)).

(** Users also have an address, through their profile. *)
Definition addressesTable : Table :=
  {| String_ := "addresses"; SQLAlias := "address";
     Fields := [ {| Name := "ID"; SQLName := quoteIdent "id" |} ];
     FieldMap := [ ("id", {| Name := "ID"; SQLName := quoteIdent "id" |}) ] |}.

Definition addressJoin : relationJoin :=
  {| rjRelation := {| Type_ := BelongsToRelation; Condition := [] |};
     rjJoinTable := addressesTable; rjJoins := []; rjApply := None;
     rjColumns := None; rjAdditionalJoinOnConditions := None |}.

(** The joins of a user model: the profile, with its address and its orders
    below it, and the orders, with a profile below them. *)
Definition nestedJoins : list relationJoin :=
  [ set_rjJoins profileJoin [addressJoin; ordersJoin];
    set_rjJoins ordersJoin [profileJoin] ].

(** The runtime of the fixtures, with a has-many follow-up that fails. *)
Definition refusingRuntime : Runtime formatter context Z (list Z) world :=
  {| dbFmter := pgFormatter;
     dbFeatures := 0;
     SelectExists := selectExistsBit;
     timeNow := clock;
     getModel := specGetModel;
     beforeAppendModel := fun _ q x => (None, q, x);
     setCommentFromContext := specSetComment;
     BeforeSelectHook := fun _ => None;
     AfterSelectHook := fun _ => None;
     scan := fun ctx _ query _ _ => specRun selectQueryApp matching ctx query;
     exec := fun ctx _ app query =>
               specRun app (fun x => if (0 <? matching x)%Z then 1%Z else 0%Z) ctx query;
     QueryContext := fun _ _ _ x => ((Some [matching x], None), x);
     QueryRowScanInt := fun _ _ _ x => ((matching x, None), x);
     QueryRowScanBool := fun _ _ _ x => (((0 <? matching x)%Z, None), x);
     selectMany := fun _ _ _ db x => (Some (errorString "relation refused"), db, x);
     selectM2M := fun _ _ _ db x => (None, db, x) |}.

End Fixtures.

(** * Properties *)

(** ** Byte buffers *)

Lemma appendStr_assoc (b s t : string) :
  appendStr (appendStr b s) t = appendStr b (s ++ t)%string.
Proof.
  unfold appendStr. induction b as [|c b IH]; simpl; [reflexivity|].
  now rewrite IH.
Qed.

Lemma appendStr_nil_r (b : string) : appendStr b "" = b.
Proof. unfold appendStr. induction b; simpl; congruence. Qed.

Lemma length_appendStr (b s : string) :
  String.length (appendStr b s) = (String.length b + String.length s)%nat.
Proof. unfold appendStr. induction b; simpl; congruence. Qed.

Lemma substring_whole (s : string) : substring 0 (String.length s) s = s.
Proof. induction s; simpl; congruence. Qed.

Lemma substring_appendStr_r (b s : string) :
  substring (String.length b) (String.length s) (appendStr b s) = s.
Proof.
  unfold appendStr. induction b as [|c b IH]; simpl.
  - apply substring_whole.
  - exact IH.
Qed.

(** Whatever is appended last is a suffix of the buffer. *)
Lemma hasSuffix_appendStr (b s : string) : Select.hasSuffix (appendStr b s) s = true.
Proof.
  unfold Select.hasSuffix. rewrite length_appendStr.
  replace (String.length b + String.length s - String.length s)%nat
    with (String.length b) by lia.
  rewrite substring_appendStr_r.
  destruct (string_dec s s) as [_|N]; [|congruence].
  rewrite andb_true_r. apply Nat.leb_le. lia.
Qed.

(** ** pgdialect: unsigned integers are rendered as signed ones *)

Module PgdialectFacts.

Import Pgdialect.

Lemma pow2_double (w : Z) : 0 < w -> 2 ^ w = 2 * 2 ^ (w - 1).
Proof.
  intros Hw. replace w with (Z.succ (w - 1)) at 1 by lia.
  rewrite Z.pow_succ_r; lia.
Qed.

Lemma wrapS_small (w z : Z) :
  0 < w -> - 2 ^ (w - 1) <= z < 2 ^ (w - 1) -> wrapS w z = z.
Proof.
  intros Hw Hz. unfold wrapS. pose proof (pow2_double Hw) as E.
  rewrite Z.mod_small; lia.
Qed.

Lemma wrapS_high (w z : Z) :
  0 < w -> 2 ^ (w - 1) <= z < 2 ^ w -> wrapS w z = z - 2 ^ w.
Proof.
  intros Hw Hz. unfold wrapS. pose proof (pow2_double Hw) as E.
  replace (z + 2 ^ (w - 1)) with ((z - 2 ^ (w - 1)) + 1 * 2 ^ w) by lia.
  rewrite Z.mod_add by lia. rewrite Z.mod_small; lia.
Qed.

Lemma wrapS_range (w z : Z) :
  0 < w -> - 2 ^ (w - 1) <= wrapS w z < 2 ^ (w - 1).
Proof.
  intros Hw. unfold wrapS. pose proof (pow2_double Hw) as E.
  assert (P : 0 < 2 ^ w) by (apply Z.pow_pos_nonneg; lia).
  pose proof (Z.mod_pos_bound (z + 2 ^ (w - 1)) (2 ^ w) P). lia.
Qed.

Lemma testbit_top (w n : Z) :
  0 < w -> 0 <= n < 2 ^ w ->
  Z.testbit n (w - 1) = (2 ^ (w - 1) <=? n).
Proof.
  intros Hw Hn. pose proof (pow2_double Hw) as E.
  assert (P : 0 < 2 ^ (w - 1)) by (apply Z.pow_pos_nonneg; lia).
  rewrite Z.testbit_eqb by lia.
  destruct (Z.leb_spec (2 ^ (w - 1)) n) as [H|H].
  - assert (Q : n / 2 ^ (w - 1) = 1).
    { symmetry. apply Z.div_unique with (r := n - 2 ^ (w - 1)); lia. }
    rewrite Q. reflexivity.
  - rewrite Z.div_small by lia. reflexivity.
Qed.

(** The conversion [intW(n)] of a w-bit unsigned [n] is the two's-complement
    reading of its bits. *)
Lemma wrapS_twosComplement (w n : Z) :
  0 < w -> 0 <= n < 2 ^ w -> wrapS w n = twosComplement w n.
Proof.
  intros Hw Hn. unfold twosComplement. pose proof (pow2_double Hw) as E.
  assert (P : 0 < 2 ^ (w - 1)) by (apply Z.pow_pos_nonneg; lia).
  rewrite testbit_top by lia.
  destruct (Z.leb_spec (2 ^ (w - 1)) n) as [H|H].
  - rewrite wrapS_high by lia.
    replace n with ((n - 2 ^ (w - 1)) + 1 * 2 ^ (w - 1)) at 2 by lia.
    rewrite Z.mod_add by lia. rewrite Z.mod_small; lia.
  - rewrite wrapS_small by lia. rewrite Z.mod_small; lia.
Qed.

Lemma twosComplement_high (w n : Z) :
  0 < w -> 2 ^ (w - 1) <= n < 2 ^ w -> twosComplement w n = n - 2 ^ w.
Proof.
  intros Hw Hn. pose proof (pow2_double Hw) as E.
  assert (P : 0 < 2 ^ (w - 1)) by (apply Z.pow_pos_nonneg; lia).
  rewrite <- wrapS_twosComplement by lia. apply wrapS_high; lia.
Qed.

Lemma FormatInt10_negative (i : Z) : i < 0 -> isNegativeText (FormatInt10 i).
Proof.
  intros H. destruct i as [|p|p]; try lia.
  unfold FormatInt10, isNegativeText. simpl. eexists. reflexivity.
Qed.

Lemma AppendUint32_twosComplement (b : bytes) (n : Z) :
  0 <= n < 2 ^ 32 ->
  AppendUint32 b n = appendStr b (FormatInt10 (twosComplement 32 n)).
Proof.
  intros Hn. unfold AppendUint32, AppendInt10, int64, int32.
  pose proof (@wrapS_range 32 n ltac:(lia)) as Hr.
  rewrite (@wrapS_small 64) by (change (2 ^ (64 - 1)) with 9223372036854775808;
    change (2 ^ (32 - 1)) with 2147483648 in Hr; lia).
  rewrite wrapS_twosComplement by lia. reflexivity.
Qed.

Lemma AppendUint64_twosComplement (b : bytes) (n : Z) :
  0 <= n < 2 ^ 64 ->
  AppendUint64 b n = appendStr b (FormatInt10 (twosComplement 64 n)).
Proof.
  intros Hn. unfold AppendUint64, AppendInt10, int64.
  rewrite wrapS_twosComplement by lia. reflexivity.
Qed.

(** C10.  For every 32-bit unsigned [n], [AppendUint32] appends the decimal
    text of [n] read as a signed 32-bit two's-complement integer; from [2^31]
    on that integer is [n - 2^32], negative, and its text starts with a minus
    sign.  [AppendUint64] does the same with 64 bits. *)
Theorem AppendUint_renders_signed (b : bytes) (n32 n64 : Z) :
  0 <= n32 < 2 ^ 32 ->
  0 <= n64 < 2 ^ 64 ->
  (AppendUint32 b n32 = appendStr b (FormatInt10 (twosComplement 32 n32))
   /\ (2 ^ 31 <= n32 ->
       twosComplement 32 n32 = n32 - 2 ^ 32
       /\ isNegativeText (FormatInt10 (twosComplement 32 n32))))
  /\
  (AppendUint64 b n64 = appendStr b (FormatInt10 (twosComplement 64 n64))
   /\ (2 ^ 63 <= n64 ->
       twosComplement 64 n64 = n64 - 2 ^ 64
       /\ isNegativeText (FormatInt10 (twosComplement 64 n64)))).
Proof.
  intros H32 H64. split; split.
  - apply AppendUint32_twosComplement; assumption.
  - intros Hhi.
    assert (E : twosComplement 32 n32 = n32 - 2 ^ 32)
      by (apply twosComplement_high; [lia | change (2 ^ (32 - 1)) with (2 ^ 31); lia]).
    split; [exact E|]. apply FormatInt10_negative. rewrite E. lia.
  - apply AppendUint64_twosComplement; assumption.
  - intros Hhi.
    assert (E : twosComplement 64 n64 = n64 - 2 ^ 64)
      by (apply twosComplement_high; [lia | change (2 ^ (64 - 1)) with (2 ^ 63); lia]).
    split; [exact E|]. apply FormatInt10_negative. rewrite E. lia.
Qed.

(** The largest values render as "-1". *)
Lemma AppendUint_renders_signed_witness :
  (AppendUint32 "" 4294967295 = "-1"%string
   /\ (2 ^ 31 <= 4294967295 ->
       twosComplement 32 4294967295 = 4294967295 - 2 ^ 32
       /\ isNegativeText (FormatInt10 (twosComplement 32 4294967295))))
  /\
  (AppendUint64 "" 18446744073709551615 = "-1"%string
   /\ (2 ^ 63 <= 18446744073709551615 ->
       twosComplement 64 18446744073709551615 = 18446744073709551615 - 2 ^ 64
       /\ isNegativeText (FormatInt10 (twosComplement 64 18446744073709551615)))).
Proof.
  exact (@AppendUint_renders_signed ""%string 4294967295 18446744073709551615
           ltac:(lia) ltac:(lia)).
Defined.

Example AppendUint32_below_half : AppendUint32 "n = " 2147483647 = "n = 2147483647"%string.
Proof. reflexivity. Qed.

Example AppendUint32_at_half : AppendUint32 "n = " 2147483648 = "n = -2147483648"%string.
Proof. reflexivity. Qed.

(** *** Distinct values give distinct texts *)

Lemma appendStr_inj_r (b x y : string) : appendStr b x = appendStr b y -> x = y.
Proof.
  unfold appendStr. induction b as [|c b IH]; simpl; intros H; [exact H|].
  injection H as H. auto.
Qed.

Lemma to_int_nonnil (i : Z) :
  Z.to_int i <> Decimal.Pos Decimal.Nil /\ Z.to_int i <> Decimal.Neg Decimal.Nil.
Proof.
  destruct i as [|p|p]; simpl; split; try discriminate;
    intros H; injection H as H; exact (DecimalPos.Unsigned.to_uint_nonnil _ H).
Qed.

(** The decimal text determines the integer. *)
Lemma FormatInt10_inj (i j : Z) : FormatInt10 i = FormatInt10 j -> i = j.
Proof.
  unfold FormatInt10. intros H.
  apply DecimalZ.to_int_inj.
  destruct (to_int_nonnil i) as [Pi Ni]. destruct (to_int_nonnil j) as [Pj Nj].
  pose proof (NilZero.isi _ Pi Ni) as Ei. pose proof (NilZero.isi _ Pj Nj) as Ej.
  rewrite H in Ei. rewrite Ei in Ej. now injection Ej.
Qed.

Lemma int32_inj (n m : Z) :
  0 <= n < 2 ^ 32 -> 0 <= m < 2 ^ 32 -> int64 (int32 n) = int64 (int32 m) -> n = m.
Proof.
  intros Hn Hm. unfold int64, int32.
  pose proof (@wrapS_range 32 n ltac:(lia)) as Rn.
  pose proof (@wrapS_range 32 m ltac:(lia)) as Rm.
  change (2 ^ (32 - 1)) with 2147483648 in Rn, Rm.
  rewrite !(@wrapS_small 64) by (change (2 ^ (64 - 1)) with 9223372036854775808; lia).
  destruct (Z_lt_le_dec n (2 ^ 31)) as [Ln|Ln], (Z_lt_le_dec m (2 ^ 31)) as [Lm|Lm].
  all: repeat first
         [ rewrite (@wrapS_small 32 n) by (change (2 ^ (32 - 1)) with (2 ^ 31); lia)
         | rewrite (@wrapS_small 32 m) by (change (2 ^ (32 - 1)) with (2 ^ 31); lia)
         | rewrite (@wrapS_high 32 n) by (change (2 ^ (32 - 1)) with (2 ^ 31); lia)
         | rewrite (@wrapS_high 32 m) by (change (2 ^ (32 - 1)) with (2 ^ 31); lia) ].
  all: lia.
Qed.

Lemma int64_inj (n m : Z) :
  0 <= n < 2 ^ 64 -> 0 <= m < 2 ^ 64 -> int64 n = int64 m -> n = m.
Proof.
  intros Hn Hm. unfold int64.
  destruct (Z_lt_le_dec n (2 ^ 63)) as [Ln|Ln], (Z_lt_le_dec m (2 ^ 63)) as [Lm|Lm].
  all: repeat first
         [ rewrite (@wrapS_small 64 n) by (change (2 ^ (64 - 1)) with (2 ^ 63); lia)
         | rewrite (@wrapS_small 64 m) by (change (2 ^ (64 - 1)) with (2 ^ 63); lia)
         | rewrite (@wrapS_high 64 n) by (change (2 ^ (64 - 1)) with (2 ^ 63); lia)
         | rewrite (@wrapS_high 64 m) by (change (2 ^ (64 - 1)) with (2 ^ 63); lia) ].
  all: lia.
Qed.

(** [AppendUint32] loses nothing: two different 32-bit unsigned values are
    never rendered as the same text, although the upper half of them is
    rendered as negative numbers. *)
Theorem AppendUint32_distinct (b : bytes) (n m : Z) :
  0 <= n < 2 ^ 32 -> 0 <= m < 2 ^ 32 -> n <> m ->
  AppendUint32 b n <> AppendUint32 b m.
Proof.
  intros Hn Hm Hne H. apply Hne. unfold AppendUint32, AppendInt10 in H.
  apply appendStr_inj_r, FormatInt10_inj in H. now apply int32_inj.
Qed.

(** [AppendUint64] loses nothing either: two different 64-bit unsigned
    values are never rendered as the same text. *)
Theorem AppendUint64_distinct (b : bytes) (n m : Z) :
  0 <= n < 2 ^ 64 -> 0 <= m < 2 ^ 64 -> n <> m ->
  AppendUint64 b n <> AppendUint64 b m.
Proof.
  intros Hn Hm Hne H. apply Hne. unfold AppendUint64, AppendInt10 in H.
  apply appendStr_inj_r, FormatInt10_inj in H. now apply int64_inj.
Qed.

(** The value [2^32 - 1], rendered as -1, and the value 1. *)
Lemma AppendUint32_distinct_witness :
  AppendUint32 "n = " 4294967295 <> AppendUint32 "n = " 1.
Proof.
  apply (@AppendUint32_distinct "n = "%string 4294967295 1); lia.
Defined.

Lemma AppendUint64_distinct_witness :
  AppendUint64 "n = " 18446744073709551615 <> AppendUint64 "n = " 1.
Proof.
  apply (@AppendUint64_distinct "n = "%string 18446744073709551615 1); lia.
Defined.

(** *** The capabilities of the dialect *)

Lemma Has_lor_r (a f : feature.Feature) : feature.Has (Z.lor a f) f = true.
Proof.
  unfold feature.Has. apply Z.eqb_eq. apply Z.bits_inj'. intros n Hn.
  rewrite Z.land_spec, Z.lor_spec.
  destruct (Z.testbit a n), (Z.testbit f n); reflexivity.
Qed.

Lemma Has_lor_l (a b f : feature.Feature) :
  feature.Has a f = true -> feature.Has (Z.lor a b) f = true.
Proof.
  unfold feature.Has. rewrite !Z.eqb_eq. intros H.
  apply Z.bits_inj'. intros n Hn.
  apply (f_equal (fun z => Z.testbit z n)) in H.
  rewrite Z.land_spec in *. rewrite Z.lor_spec.
  destruct (Z.testbit a n), (Z.testbit b n), (Z.testbit f n); auto.
Qed.

Lemma Has_lor_first (a f : feature.Feature) : feature.Has (Z.lor f a) f = true.
Proof. rewrite Z.lor_comm. apply Has_lor_r. Qed.

(** Whatever bits package feature gives the flags, the capability set of
    the dialect [New] builds has every flag [New] names: [Features().Has]
    answers true for each of them. *)
Theorem New_has_every_listed_feature
    (CTE WithValues Returning InsertReturning DefaultPlaceholder
     DoubleColonCast InsertTableAlias UpdateTableAlias DeleteTableAlias
     TableCascade TableIdentity TableTruncate TableNotExists InsertOnConflict
     SelectExists GeneratedIdentity CompositeIn : feature.Feature) :
  let d := PgdialectDialect.New CTE WithValues Returning InsertReturning
             DefaultPlaceholder DoubleColonCast InsertTableAlias UpdateTableAlias
             DeleteTableAlias TableCascade TableIdentity TableTruncate
             TableNotExists InsertOnConflict SelectExists GeneratedIdentity
             CompositeIn in
  Forall (fun f => feature.Has (PgdialectDialect.Features d) f = true)
    (PgdialectDialect.listed CTE WithValues Returning InsertReturning
       DefaultPlaceholder DoubleColonCast InsertTableAlias UpdateTableAlias
       DeleteTableAlias TableCascade TableIdentity TableTruncate TableNotExists
       InsertOnConflict SelectExists GeneratedIdentity CompositeIn).
Proof.
  cbv zeta. unfold PgdialectDialect.Features, PgdialectDialect.New, PgdialectDialect.listed.
  cbn [PgdialectDialect.features].
  repeat constructor;
    repeat first [ apply Has_lor_r | apply Has_lor_first | apply Has_lor_l ].
Qed.

(** With flags that are distinct bits: the flag for select-exists is in the
    set, a flag [New] does not name is not. *)
Example pgFeatures_has_SelectExists :
  feature.Has Fixtures.pgFeatures Fixtures.selectExistsBit = true
  /\ feature.Has Fixtures.pgFeatures (Z.shiftl 1 4) = false.
Proof. split; reflexivity. Qed.

End PgdialectFacts.

(** ** hook.go: the statement-level pipeline and the batch helpers *)

Module HookFacts.

Import Hook.

Section QueryHooks.

Variables (Ctx Time Ext : Type).

Local Abbreviation QueryEvent := (Hook.QueryEvent Time).
Local Abbreviation QueryHook := (Hook.QueryHook Ctx Time Ext).
Local Abbreviation DB := (Hook.DB Ctx Time Ext).

(** The event [beforeQuery] builds. *)
Definition newEvent (app : queryAppender) (query : string)
    (args : option (list value)) (now : Time) : QueryEvent :=
  {| QueryAppender := app; Query := query; QueryArgs := args; StartTime := now;
     Result := None; Err := None; Stash := [] |}.

(** The event with the outcome of the statement filled in. *)
Definition completed (event : QueryEvent) (res : option sqlResult)
    (e : option error) : QueryEvent :=
  {| QueryAppender := QueryAppender event; Query := Query event;
     QueryArgs := QueryArgs event; StartTime := StartTime event;
     Result := res; Err := e; Stash := Stash event |}.

(** Calling the before (after) method of each hook of a list, first to
    last, each on what the previous one left. *)
Definition beforeEach (hooks : list QueryHook) (ctx : Ctx) (event : QueryEvent)
    (x : Ext) : Ctx * QueryEvent * Ext :=
  fold_left (fun s hook => let '(c, e, x) := s in BeforeQuery hook c e x)
            hooks (ctx, event, x).

Definition afterEach (hooks : list QueryHook) (ctx : Ctx) (event : QueryEvent)
    (x : Ext) : QueryEvent * Ext :=
  fold_left (fun s hook => let '(e, x) := s in AfterQuery hook ctx e x)
            hooks (event, x).

(** An error other than nil and the no-rows sentinel. *)
Definition isFailure (e : option error) : bool :=
  match e with
  | None => false
  | Some e => if error_eq_dec e ErrNoRows then false else true
  end.

Lemma rangeBeforeQuery_beforeEach (hooks : list QueryHook) ctx event x :
  rangeBeforeQuery hooks ctx event x = beforeEach hooks ctx event x.
Proof.
  unfold beforeEach. revert ctx event x.
  induction hooks as [|h hooks IH]; intros ctx event x; simpl; [reflexivity|].
  destruct (BeforeQuery h ctx event x) as [[c e] x']. apply IH.
Qed.

Lemma firstn_snoc_nth_error (A : Type) (l : list A) (k : nat) (a : A) :
  nth_error l k = Some a -> firstn (S k) l = firstn k l ++ [a].
Proof.
  revert k. induction l as [|b l IH]; intros [|k] H; simpl in *; try discriminate.
  - injection H as ->. reflexivity.
  - f_equal. apply IH. exact H.
Qed.

(** Counting the index down calls the hooks below it last to first. *)
Lemma afterQueryLoop_rev (hooks : list QueryHook) ctx (n : nat) event x :
  (n <= length hooks)%nat ->
  afterQueryLoop hooks ctx n event x
  = Some (afterEach (rev (firstn n hooks)) ctx event x).
Proof.
  unfold afterEach. revert event x.
  induction n as [|k IH]; intros event x Hn.
  - reflexivity.
  - cbn [afterQueryLoop]. destruct (nth_error hooks k) as [h|] eqn:E.
    + rewrite (firstn_snoc_nth_error _ _ E), rev_app_distr.
      change (rev [h] ++ rev (firstn k hooks)) with (h :: rev (firstn k hooks)).
      cbn [fold_left].
      destruct (AfterQuery h ctx event x) as [e' x'].
      apply IH. lia.
    + apply nth_error_None in E. lia.
Qed.

Lemma afterQueryFromIndex_last (db : DB) ctx event x :
  afterQueryFromIndex db ctx event (Z.of_nat (length (queryHooks db)) - 1) x
  = Some (afterEach (rev (queryHooks db)) ctx event x).
Proof.
  unfold afterQueryFromIndex.
  replace (Z.to_nat (Z.of_nat (length (queryHooks db)) - 1 + 1))
    with (length (queryHooks db)) by lia.
  rewrite afterQueryLoop_rev by lia. now rewrite firstn_all.
Qed.

Lemma countsAsError_isFailure (e : option error) : countsAsError e = isFailure e.
Proof.
  destruct e as [[| |msg]|]; simpl; try reflexivity;
    destruct (error_eq_dec _ _); congruence.
Qed.

(** [afterQuery] never panics, and says what it does to the counters, the
    event and the outer state. *)
Lemma afterQuery_spec (db : DB) ctx (event : option QueryEvent) res e x :
  afterQuery db ctx event res e x
  = let db' := if isFailure e
               then withStats db {| Queries := Queries (stats db);
                                    Errors := AddUint64 (Errors (stats db)) 1 |}
               else db in
    match event with
    | None => Some (None, db', x)
    | Some ev =>
        let '(ev', x') := afterEach (rev (queryHooks db)) ctx (completed ev res e) x in
        Some (Some ev', db', x')
    end.
Proof.
  unfold afterQuery. rewrite countsAsError_isFailure.
  destruct event as [ev|]; [|reflexivity].
  cbv zeta.
  set (db' := if isFailure e then _ else db).
  assert (Hh : queryHooks db' = queryHooks db) by (subst db'; destruct (isFailure e); reflexivity).
  rewrite afterQueryFromIndex_last, Hh. fold (completed ev res e).
  destruct (afterEach _ _ _ _) as [ev' x']. reflexivity.
Qed.

(** C6.  With hooks [A; B; C] registered in that order, the before phase
    calls A, then B, then C, each on the context and event the previous one
    returned, and returns the last context; the after phase calls C, then B,
    then A, on the event with the final result and error filled in. *)
Theorem hooks_before_in_order_after_in_reverse
    (A B C : QueryHook) (st : DBStats) ctx app query args now
    (event : QueryEvent) res e x :
  let db := {| queryHooks := [A; B; C]; stats := st |} in
  (exists db',
     beforeQuery db ctx app query args now x
     = (let '(c1, e1, x1) := BeforeQuery A ctx (newEvent app query args now) x in
        let '(c2, e2, x2) := BeforeQuery B c1 e1 x1 in
        let '(c3, e3, x3) := BeforeQuery C c2 e2 x2 in
        ((c3, Some e3), db', x3)))
  /\
  (exists db',
     afterQuery db ctx (Some event) res e x
     = (let '(e1, x1) := AfterQuery C ctx (completed event res e) x in
        let '(e2, x2) := AfterQuery B ctx e1 x1 in
        let '(e3, x3) := AfterQuery A ctx e2 x2 in
        Some (Some e3, db', x3))).
Proof.
  intros db. split.
  - eexists. unfold beforeQuery. simpl. fold (newEvent app query args now).
    destruct (BeforeQuery A _ _ _) as [[c1 e1] x1].
    destruct (BeforeQuery B _ _ _) as [[c2 e2] x2].
    destruct (BeforeQuery C _ _ _) as [[c3 e3] x3]. reflexivity.
  - eexists. rewrite afterQuery_spec. subst db. cbv zeta. simpl queryHooks.
    unfold afterEach. simpl.
    destruct (AfterQuery C _ _ _) as [e1 x1].
    destruct (AfterQuery B _ _ _) as [e2 x2].
    destruct (AfterQuery A _ _ _) as [e3 x3]. reflexivity.
Qed.

(** For any list of hooks: before runs the list first to last, after runs it
    last to first. *)
Lemma hooks_order_general (db : DB) ctx app query args now
    (event : QueryEvent) res e x :
  queryHooks db <> [] ->
  (let '(r, _, x') := beforeQuery db ctx app query args now x in
   let '(c, ev, x'') := beforeEach (queryHooks db) ctx (newEvent app query args now) x in
   r = (c, Some ev) /\ x' = x'')
  /\
  (exists db',
     afterQuery db ctx (Some event) res e x
     = let '(ev', x') := afterEach (rev (queryHooks db)) ctx (completed event res e) x in
       Some (Some ev', db', x')).
Proof.
  intros Hne. split.
  - unfold beforeQuery. simpl queryHooks.
    destruct (queryHooks db) as [|h hs] eqn:E; [congruence|].
    cbn [length Nat.eqb]. rewrite rangeBeforeQuery_beforeEach.
    fold (newEvent app query args now).
    destruct (beforeEach _ _ _ _) as [[c ev] x'']. split; reflexivity.
  - eexists. rewrite afterQuery_spec. cbv zeta.
    destruct (afterEach _ _ _ _) as [ev' x']. reflexivity.
Qed.

(** C8.  [beforeQuery] adds one to the query counter, a [uint64] that
    wraps at [2^64], and leaves the error counter; [afterQuery] adds one to
    the error counter exactly when the error is neither nil nor
    [sql.ErrNoRows] and leaves the query counter; both hold whatever hooks
    are registered.  With no hook registered, [beforeQuery] returns the
    caller's context and a nil event without touching the outer state, and
    [afterQuery] on that nil event returns without touching it either. *)
Theorem counters_always_updated_events_only_with_hooks
    (db : DB) (st : DBStats) ctx app query args now
    (event : option QueryEvent) res e x :
  stats (snd (fst (beforeQuery db ctx app query args now x)))
  = {| Queries := (Queries (stats db) + 1) mod 2 ^ 64; Errors := Errors (stats db) |}
  /\
  (exists ev' db' x',
     afterQuery db ctx event res e x = Some (ev', db', x')
     /\ stats db'
        = {| Queries := Queries (stats db);
             Errors := if isFailure e then (Errors (stats db) + 1) mod 2 ^ 64
                       else Errors (stats db) |})
  /\
  (let db0 := {| queryHooks := []; stats := st |} in
   beforeQuery db0 ctx app query args now x
   = ((ctx, None),
      {| queryHooks := [];
         stats := {| Queries := (Queries st + 1) mod 2 ^ 64; Errors := Errors st |} |},
      x)
   /\ afterQuery db0 ctx None res e x
      = Some (None,
              {| queryHooks := [];
                 stats := {| Queries := Queries st;
                             Errors := if isFailure e then (Errors st + 1) mod 2 ^ 64
                                       else Errors st |} |},
              x)).
Proof.
  split; [|split].
  - unfold beforeQuery. simpl.
    destruct (length (queryHooks db) =? 0)%nat; [reflexivity|].
    destruct (rangeBeforeQuery _ _ _ _) as [[c ev] x']. reflexivity.
  - rewrite afterQuery_spec. cbv zeta.
    destruct event as [ev|].
    + destruct (afterEach _ _ _ _) as [ev' x'].
      do 3 eexists. split; [reflexivity|].
      destruct (isFailure e); [reflexivity|]. destruct db as [hs [qs es]]; reflexivity.
    + do 3 eexists. split; [reflexivity|].
      destruct (isFailure e); [reflexivity|]. destruct db as [hs [qs es]]; reflexivity.
  - cbv zeta. split; [reflexivity|].
    rewrite afterQuery_spec. cbv zeta. unfold withStats. simpl.
    destruct (isFailure e); [reflexivity|]. destruct st; reflexivity.
Qed.

(** The counters wrap at [2^64]; below that, adding one is adding one. *)
Lemma AddUint64_no_wrap (n : Z) : 0 <= n < 2 ^ 64 - 1 -> AddUint64 n 1 = n + 1.
Proof. intros H. unfold AddUint64. apply Z.mod_small. lia. Qed.

End QueryHooks.

Section ModelHooks.

Variables (Ctx V Ext : Type).
Variable Addr : V -> V.

Local Abbreviation hookFn := (Hook.hookFn Ctx V Ext).

(** The value a hook is called on: the element itself when the slice holds
    pointers, its address otherwise. *)
Definition receiver (ptr : bool) (v : V) : V := if ptr then v else Addr v.

(** Calling the hook once on every entity, first to last, whatever the
    earlier calls returned; the errors are collected in order. *)
Fixpoint invokeAll (ctx : Ctx) (hook : hookFn) (vs : list V) (x : Ext)
    : list (option error) * Ext :=
  match vs with
  | [] => ([], x)
  | v :: rest =>
      let '(e, x1) := hook ctx v x in
      let '(es, x2) := invokeAll ctx hook rest x1 in
      (e :: es, x2)
  end.

(** The first non-nil error of a list. *)
Fixpoint firstError (es : list (option error)) : option error :=
  match es with
  | [] => None
  | Some e :: _ => Some e
  | None :: rest => firstError rest
  end.

(** A batch that runs to completion and reports the first error. *)
Definition runToCompletion (ctx : Ctx) (ptr : bool) (hook : hookFn)
    (elems : list V) (x : Ext) : option error * Ext :=
  let '(es, x') := invokeAll ctx hook (map (receiver ptr) elems) x in
  (firstError es, x').

Lemma invokeAll_length (ctx : Ctx) (hook : hookFn) (vs : list V) (x : Ext) :
  length (fst (invokeAll ctx hook vs x)) = length vs.
Proof.
  revert x. induction vs as [|v vs IH]; intros x; simpl; [reflexivity|].
  destruct (hook ctx v x) as [e x1]. specialize (IH x1).
  destruct (invokeAll ctx hook vs x1) as [es x2]. simpl in *. congruence.
Qed.

Lemma hookLoop_invokeAll (ctx : Ctx) (ptr : bool) (hook : hookFn)
    (elems : list V) (acc : option error) (x : Ext) :
  hookLoop Addr ctx ptr hook elems acc x
  = let '(es, x') := invokeAll ctx hook (map (receiver ptr) elems) x in
    (match acc with Some e => Some e | None => firstError es end, x').
Proof.
  revert acc x. induction elems as [|v elems IH]; intros acc x; simpl.
  - destruct acc; reflexivity.
  - replace (if negb ptr then Addr v else v) with (receiver ptr v)
      by (unfold receiver; destruct ptr; reflexivity).
    destruct (hook ctx (receiver ptr v) x) as [e x1]. rewrite IH.
    destruct (invokeAll ctx hook (map (receiver ptr) elems) x1) as [es x2].
    destruct e, acc; reflexivity.
Qed.

Lemma callHookSlice_runs_to_completion ctx ptr hook elems x :
  callHookSlice Addr ctx (Some elems) ptr hook x
  = Some (runToCompletion ctx ptr hook elems x).
Proof.
  unfold callHookSlice, runToCompletion. now rewrite hookLoop_invokeAll.
Qed.

Lemma callHookSlice2_runs_to_completion ctx ptr hook elems x :
  callHookSlice2 Addr ctx (Some elems) ptr hook x
  = Some (runToCompletion ctx ptr hook elems x).
Proof.
  unfold callHookSlice2, runToCompletion. now rewrite hookLoop_invokeAll.
Qed.

(** C2, as the code has it.  For a batch of entities every model-level batch
    hook, the before-insert, before-update and before-delete ones included,
    calls the hook once on every entity in order, whatever earlier calls
    returned, and returns the first non-nil error.  The two helpers differ
    only on the zero slice value: the after and select hooks return nil
    without a call, the before hooks panic. *)
Theorem batch_hooks_all_run_to_completion
    (H : Hook.modelHooks Ctx V Ext) ctx ptr (elems : list V) x :
  (callBeforeInsertHookSlice Addr H ctx (Some elems) ptr x
     = Some (runToCompletion ctx ptr (BeforeInsert H) elems x)
   /\ callBeforeUpdateHookSlice Addr H ctx (Some elems) ptr x
     = Some (runToCompletion ctx ptr (BeforeUpdate H) elems x)
   /\ callBeforeDeleteHookSlice Addr H ctx (Some elems) ptr x
     = Some (runToCompletion ctx ptr (BeforeDelete H) elems x))
  /\
  (callAfterInsertHookSlice Addr H ctx (Some elems) ptr x
     = Some (runToCompletion ctx ptr (AfterInsert H) elems x)
   /\ callAfterUpdateHookSlice Addr H ctx (Some elems) ptr x
     = Some (runToCompletion ctx ptr (AfterUpdate H) elems x)
   /\ callAfterDeleteHookSlice Addr H ctx (Some elems) ptr x
     = Some (runToCompletion ctx ptr (AfterDelete H) elems x)
   /\ callAfterSelectHookSlice Addr H ctx (Some elems) ptr x
     = Some (runToCompletion ctx ptr (AfterSelect H) elems x))
  /\
  (forall hook, length (fst (invokeAll ctx hook (map (receiver ptr) elems) x))
                = length elems)
  /\
  (callAfterInsertHookSlice Addr H ctx None ptr x = Some (None, x)
   /\ callBeforeInsertHookSlice Addr H ctx None ptr x = None).
Proof.
  repeat split;
    try apply callHookSlice_runs_to_completion;
    try apply callHookSlice2_runs_to_completion.
  intros hook. rewrite invokeAll_length. apply length_map.
Qed.

End ModelHooks.

(** A hook that records its calls sees every entity of the batch, in
    order, also after one of them failed. *)
Lemma recording_hook_sees_every_entity (elems seen : list nat) :
  snd (runToCompletion (fun v => v) tt true Fixtures.recordingHook elems seen)
  = (seen ++ elems)%list.
Proof.
  unfold runToCompletion. revert seen.
  induction elems as [|v elems IH]; intros seen; simpl.
  - now rewrite app_nil_r.
  - specialize (IH (seen ++ [v])%list).
    destruct (invokeAll tt Fixtures.recordingHook (map (receiver (fun v => v) true) elems)
                (seen ++ [v])%list) as [es x2].
    simpl in *. rewrite IH, <- app_assoc. reflexivity.
Qed.

(** The before-insert batch hook on three entities the first of which fails:
    the error of the first is returned, and the second and third entity were
    still called. *)
Lemma before_insert_batch_continues_after_error :
  exists seen,
    callBeforeInsertHookSlice (fun v => v) Fixtures.recordingHooks tt
      (Some [0; 1; 2]%nat) true []
    = Some (Some (errorString "entity 0 refused"), seen)
    /\ In 1%nat seen /\ In 2%nat seen.
Proof.
  exists [0; 1; 2]%nat. split; [reflexivity|]. simpl. auto.
Qed.

(** Two hooks [a] and [b]: the before phase runs [a] then [b] and returns
    the context [b] returned; the after phase runs [b] then [a]. *)
Lemma hooks_order_general_witness :
  let ev := newEvent selectQueryApp "SELECT 1" None 7 in
  queryHooks Fixtures.hookedDB <> []
  /\ fst (fst (beforeQuery Fixtures.hookedDB 0%nat selectQueryApp "SELECT 1" None 7 []))
     = (2%nat, Some ev)
  /\ snd (beforeQuery Fixtures.hookedDB 0%nat selectQueryApp "SELECT 1" None 7 [])
     = ["before a"; "before b"]%string
  /\ exists db',
       afterQuery Fixtures.hookedDB 2%nat (Some ev) None None []
       = Some (Some (completed ev None None), db', ["after b"; "after a"]%string).
Proof.
  cbv zeta.
  assert (Hne : queryHooks Fixtures.hookedDB <> []) by discriminate.
  pose proof (@hooks_order_general nat Z (list string) Fixtures.hookedDB 0%nat
                selectQueryApp "SELECT 1"%string None 7
                (newEvent selectQueryApp "SELECT 1" None 7) None None [] Hne)
    as [Hb [db' Ha]].
  split; [exact Hne|]. split; [exact (proj1 Hb)|]. split; [exact (proj2 Hb)|].
  exists db'. exact Ha.
Defined.

End HookFacts.

(** ** query_select.go: rendering *)

Module RenderFacts.

Import schema Select.

Lemma set_union_same (q : SelectQuery) : set_union q (union q) = q.
Proof. destruct q; reflexivity. Qed.

Lemma set_tableModel_same (q : SelectQuery) : set_tableModel q (tableModel q) = q.
Proof. destruct q; reflexivity. Qed.

(** A query bound to no table model, with operands of set operations that
    are bound to none either: there is no relation join to inline. *)
Fixpoint noTableModel (q : SelectQuery) : bool :=
  isNil (tableModel q) && forallb (fun u => noTableModel (query u)) (union q).

(** Induction over a relation join and the joins below it. *)
Section RelationJoinInduction.

Variable P : relationJoin -> Prop.
Hypothesis step : forall j, Forall P (rjJoins j) -> P j.

Fixpoint relationJoin_induction (j : relationJoin) : P j :=
  step j
    ((fix all (js : list relationJoin) : Forall P js :=
        match js with
        | [] => Forall_nil P
        | k :: ks => Forall_cons k (relationJoin_induction k) (all ks)
        end) (rjJoins j)).

End RelationJoinInduction.

(** Induction over a query and the operands of its set operations. *)
Section SelectQueryInduction.

Variable P : SelectQuery -> Prop.
Hypothesis step : forall q, Forall (fun u => P (query u)) (union q) -> P q.

Fixpoint SelectQuery_induction (q : SelectQuery) : P q :=
  step q
    ((fix all (us : list unionBranch) : Forall (fun u => P (query u)) us :=
        match us with
        | [] => Forall_nil _
        | u :: rest => Forall_cons u (SelectQuery_induction (query u)) (all rest)
        end) (union q)).

End SelectQueryInduction.

Lemma noTableModel_unfold (q : SelectQuery) :
  noTableModel q
  = isNil (tableModel q) && forallb (fun u => noTableModel (query u)) (union q).
Proof. destruct q; reflexivity. Qed.

(** *** The default select list *)

(** A buffer that ends in an asterisk does not end in a separator. *)
Lemma hasSuffix_star (b : bytes) : hasSuffix (appendStr b "*") ", " = false.
Proof.
  unfold hasSuffix, appendStr.
  induction b as [|c b IH]; [reflexivity|].
  cbn [append String.length]. cbn [String.length] in IH.
  destruct (String.length (b ++ "*")) as [|[|n]] eqn:L.
  - reflexivity.
  - destruct b as [|d b]; [|destruct b; discriminate L].
    change (substring (2 - 2) 2 (String c ("" ++ "*")))
      with (String c "*").
    destruct (string_dec (String c "*") ", ") as [E|_]; [discriminate E|].
    apply andb_false_r.
  - replace (S (S (S n)) - 2)%nat with (S n) by lia.
    replace (S (S n) - 2)%nat with n in IH by lia.
    cbn [substring]. cbn [Nat.leb] in *. exact IH.
Qed.

(** *** The WHERE list *)

Lemma set_where_same (q : SelectQuery) : set_where q (where_ q) = q.
Proof. destruct q; reflexivity. Qed.

Lemma set_where_twice (q : SelectQuery) (v w : list QueryWithSep) :
  set_where (set_where q v) w = set_where q w.
Proof. reflexivity. Qed.

Lemma addWhere_each (conds : list string) (q : SelectQuery) :
  fold_left (fun q opt => addWhere q (SafeQueryWithSep opt None " AND ")) conds q
  = set_where q (where_ q ++ map (fun opt => SafeQueryWithSep opt None " AND ") conds).
Proof.
  revert q. induction conds as [|c cs IH]; intros q; cbn [fold_left map].
  - rewrite app_nil_r. symmetry. apply set_where_same.
  - rewrite IH. unfold addWhere. cbn [where_ set_where].
    rewrite <- app_assoc. reflexivity.
Qed.

(** *** Joins and their conditions *)

Lemma appendOnLast_snoc (js : list joinQuery) (j : joinQuery) (c : QueryWithSep) :
  appendOnLast (js ++ [j]) c = js ++ [{| join := join j; on := on j ++ [c] |}].
Proof.
  induction js as [|k ks IH]; [reflexivity|].
  cbn [app appendOnLast]. rewrite IH.
  destruct (ks ++ [j]) eqn:E; [|reflexivity].
  destruct ks; discriminate E.
Qed.

(** On a query that has joins, [joinOn] (and so [JoinOn] and [JoinOnOr])
    adds the condition at the end of the ON list of the last join; the
    joins before it, and every other field of the query, the error
    included, stay as they were. *)
Theorem joinOn_extends_last_join_only
    (q : SelectQuery) (js : list joinQuery) (j : joinQuery)
    (cond : string) (args : slice value) (sep : string) :
  joins q = js ++ [j] ->
  joinOn q cond args sep
  = set_joins q (js ++ [{| join := join j;
                           on := on j ++ [SafeQueryWithSep cond args sep] |}]).
Proof.
  intros H. unfold joinOn. rewrite H, appendOnLast_snoc.
  rewrite length_app. cbn [length].
  replace (length js + 1 =? 0)%nat with false
    by (symmetry; apply Nat.eqb_neq; lia).
  reflexivity.
Qed.

(** *** The order in which the inline joins are visited *)

(** The has-one and belongs-to joins that are reached through such joins
    only, a join before the joins below it. *)
Fixpoint inlineJoins1 (j : relationJoin) : list relationJoin :=
  match Type_ (rjRelation j) with
  | HasOneRelation | BelongsToRelation =>
      j :: (fix each (js : list relationJoin) : list relationJoin :=
              match js with
              | [] => []
              | k :: rest => inlineJoins1 k ++ each rest
              end) (rjJoins j)
  | _ => []
  end.

Definition inlineJoins (js : list relationJoin) : list relationJoin :=
  flat_map inlineJoins1 js.

Lemma inlineJoins1_unfold (j : relationJoin) :
  inlineJoins1 j
  = match Type_ (rjRelation j) with
    | HasOneRelation | BelongsToRelation => j :: inlineJoins (rjJoins j)
    | _ => []
    end.
Proof.
  destruct j as [rel tbl below ap cols more]. cbn [inlineJoins1 rjRelation rjJoins].
  destruct (Type_ rel); try reflexivity.
  all: f_equal; induction below as [|k ks IH]; [reflexivity|];
       cbn [inlineJoins flat_map]; now rewrite <- IH.
Qed.

Lemma set_rjJoins_same (j : relationJoin) : set_rjJoins j (rjJoins j) = j.
Proof. destruct j; reflexivity. Qed.

Section ForEachOrder.

Variable S : Type.
Variable visit : relationJoin -> S -> S * option error.

(** Calling [visit] on the joins of a list in order, up to the first
    error. *)
Fixpoint visitUntilError (js : list relationJoin) (s : S) : S * option error :=
  match js with
  | [] => (s, None)
  | j :: rest =>
      match visit j s with
      | (s', Some e) => (s', Some e)
      | (s', None) => visitUntilError rest s'
      end
  end.

Lemma visitUntilError_app (l1 l2 : list relationJoin) (s : S) :
  visitUntilError (l1 ++ l2) s
  = match visitUntilError l1 s with
    | (s', Some e) => (s', Some e)
    | (s', None) => visitUntilError l2 s'
    end.
Proof.
  revert s. induction l1 as [|j l1 IH]; intros s; cbn [app visitUntilError].
  - reflexivity.
  - destruct (visit j s) as [s' [e|]]; [reflexivity | apply IH].
Qed.

(** A callback that leaves the join it is given as it is. *)
Definition visiting (j : relationJoin) (s : S) : relationJoin * S * option error :=
  let '(s', e) := visit j s in (j, s', e).

Lemma eachJoin_visits (js : list relationJoin) :
  Forall (fun k => forall s,
            inlineRelJoin visiting k s
            = (k, fst (visitUntilError (inlineJoins1 k) s),
                  snd (visitUntilError (inlineJoins1 k) s))) js ->
  forall s,
    eachJoin (inlineRelJoin visiting) js s
    = (js, fst (visitUntilError (inlineJoins js) s),
           snd (visitUntilError (inlineJoins js) s)).
Proof.
  induction 1 as [|k ks Hk _ IH]; intros s; cbn [eachJoin inlineJoins flat_map].
  - reflexivity.
  - rewrite Hk, visitUntilError_app.
    destruct (visitUntilError (inlineJoins1 k) s) as [s' [e|]]; cbn [fst snd].
    + reflexivity.
    + rewrite IH. reflexivity.
Qed.

Lemma inlineRelJoin_visits (j : relationJoin) :
  forall s,
    inlineRelJoin visiting j s
    = (j, fst (visitUntilError (inlineJoins1 j) s),
          snd (visitUntilError (inlineJoins1 j) s)).
Proof.
  induction j as [j IH] using relationJoin_induction.
  intros s. rewrite inlineJoins1_unfold.
  pose proof (eachJoin_visits IH) as He.
  pose proof (set_rjJoins_same j) as Hj.
  destruct j as [rel tbl below ap cols more].
  cbn [rjJoins rjRelation] in *. cbn [inlineRelJoin rjRelation rjJoins].
  destruct (Type_ rel); try reflexivity.
  all: cbn [visitUntilError]; unfold visiting at 1;
       destruct (visit _ s) as [s1 [e|]]; [reflexivity|];
       rewrite He, Hj; reflexivity.
Qed.

Lemma _forEachInlineRelJoin_visiting (js : list relationJoin) (s : S) :
  _forEachInlineRelJoin visiting js s
  = (js, fst (visitUntilError (inlineJoins js) s),
         snd (visitUntilError (inlineJoins js) s)).
Proof.
  unfold _forEachInlineRelJoin. apply eachJoin_visits.
  apply Forall_forall. intros k _. apply inlineRelJoin_visits.
Qed.

(** [forEachInlineRelJoin] calls its callback on the has-one and belongs-to
    joins of the table model that are reached through such joins only, a
    join before the joins below it and the joins of a list first to last,
    and stops at the first error, which it returns. *)
Theorem forEachInlineRelJoin_visits_in_preorder (tm : TableModel) (s : S) :
  forEachInlineRelJoin visiting (Some tm) s
  = (Some tm,
     fst (visitUntilError (inlineJoins (tmJoins tm)) s),
     snd (visitUntilError (inlineJoins (tmJoins tm)) s)).
Proof.
  unfold forEachInlineRelJoin. rewrite _forEachInlineRelJoin_visiting.
  destruct tm; reflexivity.
Qed.

(** A callback that is [visiting] pointwise is visited the same way. *)
Section Pointwise.

Variable fn : relationJoin -> S -> relationJoin * S * option error.
Hypothesis fn_visits : forall j s, fn j s = visiting j s.

Lemma eachJoin_ext_visiting (js : list relationJoin) :
  Forall (fun k => forall s, inlineRelJoin fn k s = inlineRelJoin visiting k s) js ->
  forall s, eachJoin (inlineRelJoin fn) js s = eachJoin (inlineRelJoin visiting) js s.
Proof.
  induction 1 as [|k ks Hk _ IH]; intros s; cbn [eachJoin]; [reflexivity|].
  rewrite Hk. destruct (inlineRelJoin visiting k s) as [[k' s'] [e|]];
    [reflexivity|]. rewrite IH. reflexivity.
Qed.

Lemma inlineRelJoin_ext_visiting (j : relationJoin) :
  forall s, inlineRelJoin fn j s = inlineRelJoin visiting j s.
Proof.
  induction j as [j IH] using relationJoin_induction.
  intros s. pose proof (eachJoin_ext_visiting IH) as He.
  destruct j as [rel tbl below ap cols more].
  cbn [rjJoins] in *. cbn [inlineRelJoin rjRelation rjJoins].
  destruct (Type_ rel); try reflexivity.
  all: rewrite fn_visits;
       destruct (visiting _ s) as [[j' s1] [e|]]; [reflexivity|];
       rewrite He; reflexivity.
Qed.

Lemma forEachInlineRelJoin_ext_visiting (tm : option TableModel) (s : S) :
  forEachInlineRelJoin fn tm s = forEachInlineRelJoin visiting tm s.
Proof.
  unfold forEachInlineRelJoin, _forEachInlineRelJoin.
  destruct tm as [m|]; [|reflexivity].
  rewrite eachJoin_ext_visiting; [reflexivity|].
  apply Forall_forall. intros k _. apply inlineRelJoin_ext_visiting.
Qed.

End Pointwise.

End ForEachOrder.

Section Rendering.

Variable Formatter : Type.
Variable R : Renderer Formatter.

(** One unfolding of the recursive [appendQuery]. *)
Lemma appendQuery_unfold (q : SelectQuery) (fmter : Formatter) (b : bytes)
    (count : bool) :
  appendQuery R q fmter b count
  = match err q with
    | Some e => ((nilBytes, Some e), q)
    | None =>
        let cte := cteCount q count in
        let b := if cte then appendStr b "WITH _count_wrapper AS (" else b in
        match appendStatement R (appendQuery R) q fmter b count cte with
        | ((_, Some e), q') => ((nilBytes, Some e), q')
        | ((b, None), q') =>
            ((if cte then appendStr b ") SELECT count(*) FROM _count_wrapper" else b,
              None), q')
        end
    end.
Proof. destruct q; reflexivity. Qed.

(** *** The sticky error on rendering *)

Lemma appendQuery_erred (q : SelectQuery) (e : error) fmter b count :
  err q = Some e -> appendQuery R q fmter b count = ((nilBytes, Some e), q).
Proof. intros H. rewrite appendQuery_unfold, H. reflexivity. Qed.

Lemma AppendQuery_erred (q : SelectQuery) (e : error) fmter b :
  err q = Some e -> AppendQuery R q fmter b = ((nilBytes, Some e), q).
Proof. intros H. unfold AppendQuery. now apply appendQuery_erred. Qed.

Lemma wrappers_erred (q : SelectQuery) (e : error) fmter b :
  err q = Some e ->
  countQuery_AppendQuery R q fmter b = ((nilBytes, Some e), q)
  /\ selectExistsQuery_AppendQuery R q fmter b = ((nilBytes, Some e), q)
  /\ whereExistsQuery_AppendQuery R q fmter b = ((nilBytes, Some e), q).
Proof.
  intros H.
  unfold countQuery_AppendQuery, selectExistsQuery_AppendQuery,
    whereExistsQuery_AppendQuery.
  rewrite H. auto.
Qed.

(** A builder call on a query that already holds an error keeps that
    error. *)
Lemma setErr_keeps_first (q : SelectQuery) (e e' : error) :
  err q = Some e -> setErr q e' = q.
Proof. intros H. unfold setErr. now rewrite H. Qed.

Lemma setErr_records (q : SelectQuery) (e : error) :
  err q = None -> err (setErr q e) = Some e.
Proof. intros H. unfold setErr. rewrite H. reflexivity. Qed.

(** Rendering never returns an error together with a non-nil buffer. *)
Lemma appendQuery_no_partial_output (q : SelectQuery) fmter b count :
  forall out e q', appendQuery R q fmter b count = ((out, Some e), q') ->
                   out = nilBytes.
Proof.
  intros out e q'. rewrite appendQuery_unfold.
  destruct (err q) as [e0|].
  - intros H. now inversion H.
  - cbv zeta. destruct (appendStatement _ _ _ _ _ _ _) as [[b' [e1|]] q1];
      intros H; now inversion H.
Qed.

(** *** Rendering a query that has no relation join *)

Lemma appendUnions_leaves_operands
    (self : SelectQuery -> Formatter -> bytes -> bool -> result * SelectQuery)
    (fmter : Formatter) (us : list unionBranch) :
  Forall (fun u => forall f b c, snd (self (query u) f b c) = query u) us ->
  forall b, snd (appendUnions R self fmter us b) = us.
Proof.
  induction 1 as [|u us Hu _ IH]; intros b; cbn [appendUnions]; [reflexivity|].
  specialize (Hu fmter
                (appendComment R (appendStr (appendStr b (expr u)) "(")
                   (comment (query u))) false).
  destruct (self (query u) fmter _ false) as [[b' [e|]] uq]; cbn [snd] in Hu; subst uq.
  - destruct u; reflexivity.
  - specialize (IH (appendStr b' ")")).
    destruct (appendUnions R self fmter us (appendStr b' ")")) as [r' rest'].
    cbn [snd] in *. subst rest'. destruct u; reflexivity.
Qed.

Lemma applyInlineRelJoins_without_model (q : SelectQuery) :
  tableModel q = None -> applyInlineRelJoins R q = q.
Proof. intros H. unfold applyInlineRelJoins. now rewrite H. Qed.

(** Rendering leaves a query that has no relation join as it was. *)
Lemma rendering_without_relations_leaves_query (q : SelectQuery) :
  noTableModel q = true ->
  forall fmter b count, snd (appendQuery R q fmter b count) = q.
Proof.
  induction q as [q IH] using SelectQuery_induction.
  intros Hn fmter b count.
  rewrite noTableModel_unfold in Hn. apply andb_true_iff in Hn as [Hm Hu].
  assert (Hm' : tableModel q = None) by (destruct (tableModel q); [discriminate|reflexivity]).
  assert (Hops : Forall (fun u => forall f b c, snd (appendQuery R (query u) f b c) = query u)
                        (union q)).
  { rewrite forallb_forall in Hu. rewrite Forall_forall in IH |- *.
    intros u Hin f b0 c. apply IH; [exact Hin|]. apply Hu. exact Hin. }
  rewrite appendQuery_unfold. destruct (err q); [reflexivity|]. cbv zeta.
  assert (Hs : forall b0 cte,
             snd (appendStatement R (appendQuery R) q fmter b0 count cte) = q).
  { intros b0 cte. unfold appendStatement.
    destruct (appendWith R q _ _) as [b1 [e|]]; [reflexivity|].
    rewrite (applyInlineRelJoins_without_model q Hm').
    destruct (appendSelectBody R q _ b1 count cte) as [b2 [e|]]; [reflexivity|].
    destruct (0 <? length (union q))%nat.
    - pose proof (appendUnions_leaves_operands (appendQuery R)
                    (formatterWithModel R fmter q) Hops (appendStr b2 ")")) as Hl.
      destruct (appendUnions R (appendQuery R) _ (union q) _) as [r branches].
      cbn [snd] in *. subst branches. apply set_union_same.
    - cbn [snd]. apply set_union_same. }
  specialize (Hs (if cteCount q count
                  then appendStr b "WITH _count_wrapper AS (" else b)
                 (cteCount q count)).
  destruct (appendStatement R (appendQuery R) q fmter _ count _) as [[b' [e|]] q'];
    exact Hs.
Qed.

(** So rendering twice a query that is bound to no table model, and whose
    operands of set operations, at every depth, are bound to none either,
    gives the same bytes and error both times.  (The WITH clause is
    rendered by code outside src/, taken here to render the same each
    time.) *)
Lemma rendering_without_relations_is_repeatable (q : SelectQuery) fmter b :
  noTableModel q = true ->
  AppendQuery R (snd (AppendQuery R q fmter b)) fmter b = AppendQuery R q fmter b.
Proof.
  intros Hn. unfold AppendQuery at 2.
  rewrite (rendering_without_relations_leaves_query q Hn). reflexivity.
Qed.

(** *** The pinned connection is not touched by rendering *)

(** What every call of [fn] keeps, the traversal of the inline joins
    keeps. *)
Section ForEachInvariant.

Variable S : Type.
Variable fn : relationJoin -> S -> relationJoin * S * option error.
Variable I : S -> Prop.
Hypothesis fn_keeps : forall j s, I s -> I (snd (fst (fn j s))).

Lemma eachJoin_invariant
    (body : relationJoin -> S -> relationJoin * S * option error)
    (js : list relationJoin) :
  Forall (fun k => forall s, I s -> I (snd (fst (body k s)))) js ->
  forall s, I s -> I (snd (fst (eachJoin body js s))).
Proof.
  induction 1 as [|k ks Hk _ IH]; intros s Hs; cbn [eachJoin]; [exact Hs|].
  specialize (Hk s Hs). destruct (body k s) as [[k' s'] [e|]]; cbn [fst snd] in *.
  - exact Hk.
  - specialize (IH s' Hk). destruct (eachJoin body ks s') as [[rest' s''] e'].
    exact IH.
Qed.

Lemma inlineRelJoin_invariant (j : relationJoin) :
  forall s, I s -> I (snd (fst (inlineRelJoin fn j s))).
Proof.
  induction j as [j IH] using relationJoin_induction.
  intros s Hs. destruct j as [rel tbl below ap cols more].
  cbn [rjJoins] in IH. cbn [inlineRelJoin rjRelation rjJoins].
  destruct (Type_ rel); try exact Hs.
  all: pose proof (fn_keeps (mkRelationJoin rel tbl below ap cols more) Hs) as Hf;
       destruct (fn _ s) as [[j' s1] [e|]]; cbn [fst snd] in *; [exact Hf|];
       pose proof (@eachJoin_invariant (inlineRelJoin fn) below IH s1 Hf) as He;
       destruct (eachJoin (inlineRelJoin fn) below s1) as [[below' s2] e2];
       exact He.
Qed.

Lemma forEachInlineRelJoin_invariant (tm : option TableModel) (s : S) :
  I s -> I (snd (fst (forEachInlineRelJoin fn tm s))).
Proof.
  intros Hs. unfold forEachInlineRelJoin, _forEachInlineRelJoin.
  destruct tm as [m|]; [|exact Hs].
  assert (H : I (snd (fst (eachJoin (inlineRelJoin fn) (tmJoins m) s)))).
  { apply (@eachJoin_invariant (inlineRelJoin fn)); [|exact Hs].
    apply Forall_forall. intros k _. apply inlineRelJoin_invariant. }
  destruct (eachJoin (inlineRelJoin fn) (tmJoins m) s) as [[js s'] e]. exact H.
Qed.

End ForEachInvariant.

Section KeepsConn.

(** User closures that leave the connection of the query alone. *)
Hypothesis userFn_keeps_conn : forall f q, conn (runUserFn R f q) = conn q.

Lemma callApply_conn (j : relationJoin) (c : applyClosure) (q : SelectQuery) :
  conn (callApply R j c q) = conn q.
Proof.
  unfold callApply.
  assert (H : forall l q0,
             conn (fold_left (fun q1 opt => addWhere q1 (SafeQueryWithSep opt None " AND "))
                             l q0) = conn q0).
  { induction l as [|o l IH]; intros q0; cbn [fold_left]; [reflexivity|].
    rewrite IH. reflexivity. }
  destruct (apply1 c), (apply2 c);
    rewrite ?userFn_keeps_conn, ?H; reflexivity.
Qed.

Lemma applyTo_conn (j : relationJoin) (q : SelectQuery) :
  conn (snd (applyTo R j q)) = conn q.
Proof.
  unfold applyTo. destruct (rjApply j) as [c|]; [|reflexivity].
  cbn [snd]. cbn [set_columns set_table conn]. rewrite callApply_conn. reflexivity.
Qed.

Lemma applyInlineRelJoins_conn (q : SelectQuery) :
  conn (applyInlineRelJoins R q) = conn q.
Proof.
  unfold applyInlineRelJoins. destruct (tableModel q) as [m|] eqn:E; [|reflexivity].
  assert (K : forall j s,
             conn s = conn q ->
             conn (snd (fst (let '(j', q') := applyTo R j s in (j', q', @None error))))
             = conn q).
  { intros j s Hs. pose proof (applyTo_conn j s) as A.
    destruct (applyTo R j s) as [j' q']. cbn [fst snd] in *. congruence. }
  pose proof (@forEachInlineRelJoin_invariant SelectQuery
                (fun j q0 => let '(j', q') := applyTo R j q0 in (j', q', None))
                (fun q0 => conn q0 = conn q) K (Some m) q eq_refl) as H.
  destruct (forEachInlineRelJoin _ (Some m) q) as [[tm q'] e].
  cbn [fst snd] in H. cbn [set_tableModel conn]. exact H.
Qed.

Lemma appendQuery_conn (q : SelectQuery) fmter b count :
  conn (snd (appendQuery R q fmter b count)) = conn q.
Proof.
  rewrite appendQuery_unfold. destruct (err q); [reflexivity|]. cbv zeta.
  assert (Hs : forall b0 cte,
             conn (snd (appendStatement R (appendQuery R) q fmter b0 count cte)) = conn q).
  { intros b0 cte. unfold appendStatement.
    destruct (appendWith R q _ _) as [b1 [e|]]; [reflexivity|].
    destruct (appendSelectBody R _ _ b1 count cte) as [b2 [e|]];
      [apply applyInlineRelJoins_conn|].
    destruct (if (0 <? length (union q))%nat then _ else _) as [r branches].
    cbn [snd set_union conn]. apply applyInlineRelJoins_conn. }
  specialize (Hs (if cteCount q count
                  then appendStr b "WITH _count_wrapper AS (" else b)
                 (cteCount q count)).
  destruct (appendStatement R (appendQuery R) q fmter _ count _) as [[b' [e|]] q'];
    exact Hs.
Qed.

Lemma AppendQuery_conn (q : SelectQuery) fmter b :
  conn (snd (AppendQuery R q fmter b)) = conn q.
Proof. apply appendQuery_conn. Qed.

Lemma countQuery_AppendQuery_conn (q : SelectQuery) fmter b :
  conn (snd (countQuery_AppendQuery R q fmter b)) = conn q.
Proof.
  unfold countQuery_AppendQuery. destruct (err q); [reflexivity|].
  apply appendQuery_conn.
Qed.

End KeepsConn.

(** *** Clone *)

(** The copy [Clone] builds has no error and no pinned connection, whatever
    the original holds. *)
Lemma Clone_resets_err_and_conn (q : SelectQuery) :
  err (Clone R q) = None /\ conn (Clone R q) = None.
Proof. destruct q; split; reflexivity. Qed.

(** [cloneArgs] turns an empty list into nil: the clone of a query with a
    plain DISTINCT has no DISTINCT. *)
Lemma Clone_drops_plain_distinct (q : SelectQuery) :
  distinctOn q = Some [] -> distinctOn (Clone R q) = None.
Proof. intros H. destruct q; simpl in *. subst. reflexivity. Qed.

(** *** The count wrapper *)

(** The renderer with other code in the place of [appendOrder] and
    [appendLimitOffset]. *)
Definition withOrderLimit
    (order' limit' : SelectQuery -> Formatter -> bytes -> result)
    : Renderer Formatter :=
  {| runUserFn := runUserFn R;
     tableModelJoin := tableModelJoin R;
     tableModelClone := tableModelClone R;
     formatterWithModel := formatterWithModel R;
     IsNop := IsNop R;
     DialectName := DialectName R;
     AppendString := AppendString R;
     fragmentAppendQuery := fragmentAppendQuery R;
     appendComment := appendComment R;
     appendTableColumns := appendTableColumns R;
     appendWith := appendWith R;
     hasTables := hasTables R;
     appendTablesWithAlias := appendTablesWithAlias R;
     appendIndexHints := appendIndexHints R;
     appendWhere := appendWhere R;
     appendOrder := order';
     appendLimitOffset := limit';
     appendHasOneJoin := appendHasOneJoin R;
     appendAlias := appendAlias R;
     appendAliasColumn := appendAliasColumn R |}.

(** The select list of a count as the specification has it: inside the
    wrapper the list of the plain statement, the columns, after the sort
    column SQL Server needs for a limit without an order; with no wrapper
    the count itself. *)
Definition countSelectList (wrap : bool) (q : SelectQuery) (fmter : Formatter)
    (b : bytes) : result :=
  if wrap
  then appendColumns R q fmter
         (if (0 <? limit q) && (len (order q) =? 0)
             && dialect.Name_eqb (DialectName R fmter) dialect.MSSQL
          then appendStr b "0 AS _temp_sort, "
          else b)
  else (appendStr b "count(*)", None).

(** The statement of a count as the specification has it, between the
    opening and the closing of the wrapper if there is one: the WITH
    clause, SELECT with its DISTINCT, the select list of the count, FROM
    with the joins and WHERE, GROUP BY and HAVING, then the operands of the
    set operations; no ORDER BY, LIMIT, OFFSET or FOR. *)
Definition countStatement (wrap : bool) (q : SelectQuery) (fmter : Formatter)
    (b : bytes) : result * SelectQuery :=
  let b := if (0 <? length (union q))%nat then appendStr b "(" else b in
  match appendWith R q (formatterWithModel R fmter q) b with
  | (_, Some e) => ((nilBytes, Some e), q)
  | (b, None) =>
      let q1 := applyInlineRelJoins R q in
      let fmter1 := formatterWithModel R fmter q1 in
      match andThen (appendSelectDistinct R q1 fmter1 b) (fun b =>
            andThen (countSelectList wrap q1 fmter1 b) (fun b =>
            andThen (appendFromWhere R q1 fmter1 b) (fun b =>
            appendGroupHaving R q1 fmter1 b))) with
      | (_, Some e) => ((nilBytes, Some e), q1)
      | (b, None) =>
          if (0 <? length (union q))%nat
          then let '(r, branches) :=
                 appendUnions R (appendQuery R) fmter1 (union q) (appendStr b ")") in
               (r, set_union q1 branches)
          else ((b, None), set_union q1 (union q))
      end
  end.

(** Code that renders no clause. *)
Definition noClause (q : SelectQuery) (f : Formatter) (b : bytes) : result := (b, None).

(** C3, as the code has it.  Rendering a count opens the buffer with the
    count-wrapper common table expression and closes the statement with the
    count over that wrapper exactly when the query has a GROUP BY clause or
    a non-nil DISTINCT list, which [Distinct] (a plain DISTINCT, empty
    ON-list) and [DistinctOn] both leave; the statement inside the wrapper
    selects the columns, and for a query without set operations and FOR
    clause it is the plain statement of the query less its ORDER BY, LIMIT
    and OFFSET.  In all other cases nothing is added around the statement
    and its select list is the count itself; for a query bound to no table
    model and without set operations, what follows the WITH clause is
    SELECT and the count, then FROM and the rest. *)
Theorem count_wrapper_on_group_or_distinct_list
    (q : SelectQuery) (fmter : Formatter) (b : bytes) :
  err q = None ->
  let wrap := (0 <? len (group q)) || negb (isNil (distinctOn q)) in
  countQuery_AppendQuery R q fmter b
  = (match countStatement wrap q fmter
             (if wrap then appendStr b "WITH _count_wrapper AS (" else b) with
     | ((_, Some e), q') => ((nilBytes, Some e), q')
     | ((out, None), q') =>
         ((if wrap then appendStr out ") SELECT count(*) FROM _count_wrapper"
           else out, None), q')
     end)
  /\ (forall out q',
        wrap = true ->
        countQuery_AppendQuery R q fmter b = ((out, None), q') ->
        hasSuffix out ") SELECT count(*) FROM _count_wrapper" = true)
  /\ (wrap = true -> union q = [] ->
      IsZero (selFor (applyInlineRelJoins R q)) = true ->
      countQuery_AppendQuery R q fmter b
      = match appendQuery (withOrderLimit noClause noClause) q fmter
                (appendStr b "WITH _count_wrapper AS (") false with
        | ((_, Some e), q') => ((nilBytes, Some e), q')
        | ((out, None), q') =>
            ((appendStr out ") SELECT count(*) FROM _count_wrapper", None), q')
        end)
  /\ (wrap = false -> tableModel q = None -> union q = [] ->
      countQuery_AppendQuery R q fmter b
      = match appendWith R q (formatterWithModel R fmter q) b with
        | (_, Some e) => ((nilBytes, Some e), q)
        | (b1, None) =>
            match andThen (appendFromWhere R q (formatterWithModel R fmter q)
                             (appendStr b1 "SELECT count(*)"))
                    (fun b2 => appendGroupHaving R q (formatterWithModel R fmter q) b2)
            with
            | (_, Some e) => ((nilBytes, Some e), q)
            | (out, None) => ((out, None), q)
            end
        end).
Proof.
  intros Herr wrap.
  assert (Hc : cteCount q true = wrap) by reflexivity.
  assert (Heq : countQuery_AppendQuery R q fmter b
    = match appendStatement R (appendQuery R) q fmter
              (if wrap then appendStr b "WITH _count_wrapper AS (" else b)
              true wrap with
      | ((_, Some e), q') => ((nilBytes, Some e), q')
      | ((out, None), q') =>
          ((if wrap then appendStr out ") SELECT count(*) FROM _count_wrapper"
            else out, None), q')
      end).
  { unfold countQuery_AppendQuery. rewrite Herr, appendQuery_unfold, Herr.
    cbv zeta. rewrite Hc. reflexivity. }
  assert (Hst : forall b0,
             appendStatement R (appendQuery R) q fmter b0 true wrap
             = countStatement wrap q fmter b0).
  { intros b0. unfold appendStatement, countStatement.
    destruct (appendWith R q _ _) as [b1 [e|]]; [reflexivity|]. cbv zeta.
    set (q1 := applyInlineRelJoins R q).
    set (f1 := formatterWithModel R fmter q1).
    unfold appendSelectBody, appendOrderLimitFor, appendSelectList, countSelectList.
    cbn [negb andb].
    destruct (appendSelectDistinct R q1 f1 b1) as [b2 [e|]]; [reflexivity|].
    cbn [andThen].
    destruct wrap; cbn [negb];
      match goal with
      | |- match andThen ?l _ with _ => _ end = match andThen ?l _ with _ => _ end =>
          destruct l as [b3 [e|]]; [reflexivity|]
      end; cbn [andThen];
      (destruct (appendFromWhere R q1 f1 b3) as [b4 [e|]]; [reflexivity|]);
      cbn [andThen];
      (destruct (appendGroupHaving R q1 f1 b4) as [b5 [e|]]; [reflexivity|]);
      cbn [andThen];
      destruct (0 <? length (union q))%nat; reflexivity. }
  split; [|split; [|split]].
  4: { intros Hw Hm Hu. rewrite Heq, Hst, Hw. clear Heq Hst.
       apply orb_false_iff in Hw as [Hg Hd].
       apply negb_false_iff in Hd.
       assert (Hd' : distinctOn q = None) by (destruct (distinctOn q); [discriminate|reflexivity]).
       assert (Hsu : set_union q [] = q) by (rewrite <- Hu; apply set_union_same).
       unfold countStatement, countSelectList.
       rewrite Hu. cbn [length Nat.ltb Nat.leb].
       rewrite (applyInlineRelJoins_without_model q Hm).
       destruct (appendWith R q _ b) as [b1 [e|]]; [reflexivity|].
       unfold appendSelectDistinct. rewrite Hd'. cbn [len isNil Z.ltb Z.compare negb andThen].
       rewrite appendStr_assoc. cbn [append].
       rewrite Hsu.
       destruct (andThen _ _) as [out [e|]]; reflexivity. }
  - rewrite Heq, Hst. reflexivity.
  - intros out q' Hw H. rewrite Heq, Hw in H. clear Heq.
    destruct (appendStatement _ _ _ _ _ _ _) as [[o [e|]] q1]; [discriminate|].
    inversion H. apply hasSuffix_appendStr.
  - intros Hw Hu Hz. rewrite Heq, Hw. clear Heq Hst.
    assert (Hunf : forall b0,
               appendQuery (withOrderLimit noClause noClause) q fmter b0 false
               = match err q with
                 | Some e => ((nilBytes, Some e), q)
                 | None =>
                     match appendStatement (withOrderLimit noClause noClause)
                             (appendQuery (withOrderLimit noClause noClause))
                             q fmter b0 false false with
                     | ((_, Some e), q') => ((nilBytes, Some e), q')
                     | ((b, None), q') => ((b, None), q')
                     end
                 end).
    { intros b0. clear. destruct q; reflexivity. }
    rewrite Hunf, Herr.
    assert (Hs : appendStatement (withOrderLimit noClause noClause)
                   (appendQuery (withOrderLimit noClause noClause)) q fmter
                   (appendStr b "WITH _count_wrapper AS (") false false
                 = appendStatement R (appendQuery R) q fmter
                     (appendStr b "WITH _count_wrapper AS (") true true).
    { unfold appendStatement. rewrite Hu. cbn [length Nat.ltb Nat.leb].
      change (appendWith (withOrderLimit noClause noClause)) with (appendWith R).
      change (formatterWithModel (withOrderLimit noClause noClause)) with (formatterWithModel R).
      destruct (appendWith R q _ _) as [b1 [e|]]; [reflexivity|]. cbv zeta.
      change (applyInlineRelJoins (withOrderLimit noClause noClause) q)
        with (applyInlineRelJoins R q).
      set (q1 := applyInlineRelJoins R q) in *.
      set (f1 := formatterWithModel R fmter q1).
      assert (Hb : appendSelectBody (withOrderLimit noClause noClause) q1 f1 b1 false false
                   = appendSelectBody R q1 f1 b1 true true).
      { unfold appendSelectBody, appendOrderLimitFor.
        change (appendSelectDistinct (withOrderLimit noClause noClause)) with (appendSelectDistinct R).
        change (appendSelectList (withOrderLimit noClause noClause) q1 f1) with (appendSelectList R q1 f1).
        change (appendFromWhere (withOrderLimit noClause noClause)) with (appendFromWhere R).
        change (appendGroupHaving (withOrderLimit noClause noClause)) with (appendGroupHaving R).
        destruct (appendSelectDistinct R q1 f1 b1) as [b2 [e|]]; [reflexivity|].
        cbn [andThen].
        assert (Hl : appendSelectList R q1 f1 b2 false false
                     = appendSelectList R q1 f1 b2 true true) by reflexivity.
        rewrite Hl.
        destruct (appendSelectList R q1 f1 b2 true true) as [b3 [e|]]; [reflexivity|].
        cbn [andThen].
        destruct (appendFromWhere R q1 f1 b3) as [b4 [e|]]; [reflexivity|].
        cbn [andThen].
        destruct (appendGroupHaving R q1 f1 b4) as [b5 [e|]]; [reflexivity|].
        cbn [andThen negb appendOrder appendLimitOffset withOrderLimit noClause].
        rewrite Hz. reflexivity. }
      rewrite Hb. reflexivity. }
    rewrite Hs.
    destruct (appendStatement R _ _ _ _ _ _) as [[o [e|]] q1]; reflexivity.
Qed.
(** *** What a count, and an exists statement, leave out *)

(** The renderer with other code in the place of [appendComment]. *)
Definition withComment (comment' : bytes -> string -> bytes) : Renderer Formatter :=
  {| runUserFn := runUserFn R;
     tableModelJoin := tableModelJoin R;
     tableModelClone := tableModelClone R;
     formatterWithModel := formatterWithModel R;
     IsNop := IsNop R;
     DialectName := DialectName R;
     AppendString := AppendString R;
     fragmentAppendQuery := fragmentAppendQuery R;
     appendComment := comment';
     appendTableColumns := appendTableColumns R;
     appendWith := appendWith R;
     hasTables := hasTables R;
     appendTablesWithAlias := appendTablesWithAlias R;
     appendIndexHints := appendIndexHints R;
     appendWhere := appendWhere R;
     appendOrder := appendOrder R;
     appendLimitOffset := appendLimitOffset R;
     appendHasOneJoin := appendHasOneJoin R;
     appendAlias := appendAlias R;
     appendAliasColumn := appendAliasColumn R |}.

(** The count statement of a query without set operations has no ORDER BY
    and no LIMIT or OFFSET clause: it is rendered without a call of
    [appendOrder] or [appendLimitOffset], so whatever code stands in their
    place, the statement and the query the rendering leaves are the same. *)
Theorem count_renders_no_order_limit_offset
    (q : SelectQuery) (fmter : Formatter) (b : bytes)
    (order' limit' : SelectQuery -> Formatter -> bytes -> result) :
  union q = [] ->
  countQuery_AppendQuery (withOrderLimit order' limit') q fmter b
  = countQuery_AppendQuery R q fmter b.
Proof.
  intros H. destruct q. cbn [union] in H. subst. reflexivity.
Qed.

(** The count and the two exists statements of a query without set
    operations carry no comment: they are rendered without a call of
    [appendComment], so the comment of the query, also one taken from the
    context, is not in them. *)
Theorem wrappers_render_no_comment
    (q : SelectQuery) (fmter : Formatter) (b : bytes)
    (comment' : bytes -> string -> bytes) :
  union q = [] ->
  countQuery_AppendQuery (withComment comment') q fmter b
  = countQuery_AppendQuery R q fmter b
  /\ selectExistsQuery_AppendQuery (withComment comment') q fmter b
     = selectExistsQuery_AppendQuery R q fmter b
  /\ whereExistsQuery_AppendQuery (withComment comment') q fmter b
     = whereExistsQuery_AppendQuery R q fmter b.
Proof.
  intros H. destruct q. cbn [union] in H. subst. repeat split; reflexivity.
Qed.

(** *** The text of a join clause *)

Section JoinText.

(** Fragments that render by appending a text of their own. *)
Variable fmter : Formatter.
Variable text : QueryWithArgs -> string.
Hypothesis fragment_appends :
  forall f b, fragmentAppendQuery R f fmter b = (appendStr b (text f), None).

(** The conditions after the first, each behind its separator. *)
Fixpoint laterConditions (cs : list QueryWithSep) : string :=
  match cs with
  | [] => ""
  | c :: rest => Sep c ++ "(" ++ text (Fragment c) ++ ")" ++ laterConditions rest
  end.

Definition onClause (cs : list QueryWithSep) : string :=
  match cs with
  | [] => ""
  | c :: rest => " ON (" ++ text (Fragment c) ++ ")" ++ laterConditions rest
  end.

Lemma rangeAppend_laterConditions (cs : list QueryWithSep) (b : bytes) :
  rangeAppend
    (fun (positive : bool) c b =>
       let b := if positive then appendStr b (Sep c) else b in
       let b := appendStr b "(" in
       andThen (fragmentAppendQuery R (Fragment c) fmter b)
               (fun b => (appendStr b ")", None)))
    true cs b
  = (appendStr b (laterConditions cs), None).
Proof.
  revert b. induction cs as [|c cs IH]; intros b; cbn [rangeAppend laterConditions].
  - now rewrite appendStr_nil_r.
  - rewrite fragment_appends. cbn [andThen]. rewrite IH.
    rewrite !appendStr_assoc. reflexivity.
Qed.

(** Where fragments render by appending their text, a join renders as a
    blank and its text, followed, if it has conditions, by [ ON ] and the
    conditions in parentheses, each but the first behind its own separator:
    the separator of the first condition is not rendered. *)
Theorem joinQuery_AppendQuery_text (j : joinQuery) (b : bytes) :
  joinQuery_AppendQuery R j fmter b
  = (appendStr b (" " ++ text (join j) ++ onClause (on j)), None).
Proof.
  unfold joinQuery_AppendQuery. rewrite fragment_appends. cbn [andThen].
  destruct (on j) as [|c cs]; cbn [length Nat.ltb Nat.leb onClause].
  - rewrite appendStr_assoc.
    change (text (join j) ++ "")%string with (appendStr (text (join j)) "").
    now rewrite appendStr_nil_r.
  - cbn [rangeAppend]. rewrite fragment_appends. cbn [andThen].
    rewrite rangeAppend_laterConditions. rewrite !appendStr_assoc.
    reflexivity.
Qed.

End JoinText.


(** With no column list, no table and no table model, the select list is
    an asterisk, and nothing is trimmed from it. *)
Theorem appendColumns_default_star (q : SelectQuery) (fmter : Formatter) (b : bytes) :
  columns q = None -> table q = None -> tableModel q = None ->
  appendColumns R q fmter b = (appendStr b "*", None).
Proof.
  intros Hc Ht Hm. unfold appendColumns. rewrite Hc, Ht, Hm.
  cbn [andThen forEachInlineRelJoin]. unfold TrimSuffix.
  now rewrite hasSuffix_star.
Qed.

(** *** The select list of a query with inline joins *)

(** The groups of columns after the first, each behind a separator if
    something was rendered since the separator before. *)
Fixpoint laterGroups (pending : bool) (groups : list string) : string :=
  match groups with
  | [] => ""
  | g :: rest =>
      ((if pending then ", " else "") ++ g
       ++ laterGroups (negb (String.length g =? 0)%nat) rest)%string
  end.

Section SelectList.

Variable fmter : Formatter.
Variable columnsOf : relationJoin -> string.

(** The body of the callback of [appendColumns], on the buffer and the
    variable [start]. *)
Definition inlineColumns (j : relationJoin) (s : bytes * nat)
    : (bytes * nat) * option error :=
  let '(b, start) := s in
  let '(b, start) :=
    if negb (String.length b =? start)%nat
    then let b := appendStr b ", " in (b, String.length b)
    else (b, start) in
  match appendInlineRelColumns R fmter b j with
  | (_, Some e) => ((nilBytes, start), Some e)
  | (b, None) => ((b, start), None)
  end.

Lemma visitUntilError_inlineColumns (js : list relationJoin) :
  Forall (fun j => forall b,
            appendInlineRelColumns R fmter b j = (appendStr b (columnsOf j), None)) js ->
  forall b start,
    exists start',
      visitUntilError inlineColumns js (b, start)
      = ((appendStr b (laterGroups (negb (String.length b =? start)%nat)
                         (map columnsOf js)), start'), None).
Proof.
  induction 1 as [|j js Hj _ IH]; intros b start; cbn [visitUntilError map laterGroups].
  - exists start. now rewrite appendStr_nil_r.
  - unfold inlineColumns at 1.
    destruct (negb (String.length b =? start)%nat) eqn:P; rewrite Hj.
    + destruct (IH (appendStr (appendStr b ", ") (columnsOf j))
                   (String.length (appendStr b ", "))) as [st E].
      exists st. rewrite E. rewrite !length_appendStr.
      replace (String.length b + String.length ", " + String.length (columnsOf j)
               =? String.length b + String.length ", ")%nat
        with (String.length (columnsOf j) =? 0)%nat
        by (destruct (Nat.eqb_spec (String.length (columnsOf j)) 0);
            symmetry; [apply Nat.eqb_eq | apply Nat.eqb_neq]; lia).
      rewrite !appendStr_assoc. reflexivity.
    + destruct (IH (appendStr b (columnsOf j)) start) as [st E].
      exists st. rewrite E. rewrite !length_appendStr.
      apply negb_false_iff, Nat.eqb_eq in P. subst start.
      replace (String.length b + String.length (columnsOf j) =? String.length b)%nat
        with (String.length (columnsOf j) =? 0)%nat
        by (destruct (Nat.eqb_spec (String.length (columnsOf j)) 0);
            symmetry; [apply Nat.eqb_eq | apply Nat.eqb_neq]; lia).
      rewrite !appendStr_assoc. reflexivity.
Qed.

(** For a query on a model with no column list of its own, the select list
    is the columns of the table followed by the columns of the inline joins
    in the order they are visited.  A separator goes before the columns of a
    join exactly when something was rendered since the separator before (or
    since the start), so a join with no columns adds no second separator,
    and one separator left at the end is trimmed. *)
Theorem appendColumns_of_model_with_inline_joins
    (q : SelectQuery) (b : bytes) (t : Table) (tm : TableModel) :
  columns q = None ->
  table q = Some t ->
  tableModel q = Some tm ->
  (10 <? length (Fields t))%nat && IsNop R fmter = false ->
  Forall (fun j => forall b0,
            appendInlineRelColumns R fmter b0 j = (appendStr b0 (columnsOf j), None))
         (inlineJoins (tmJoins tm)) ->
  let own := appendTableColumns R b (SQLAlias t) (Fields t) in
  appendColumns R q fmter b
  = (TrimSuffix
       (appendStr own
          (laterGroups (negb (String.length own =? String.length b)%nat)
             (map columnsOf (inlineJoins (tmJoins tm)))))
       ", ",
     None).
Proof.
  intros Hc Ht Hm Hn Hj own. unfold appendColumns.
  rewrite Hc, Ht, Hn, Hm. cbn [andThen]. fold own.
  rewrite (@forEachInlineRelJoin_ext_visiting (bytes * nat) inlineColumns).
  2: { intros j [b0 st]. unfold visiting, inlineColumns.
       destruct (negb (String.length b0 =? st)%nat);
         destruct (appendInlineRelColumns R fmter _ j) as [b' [e|]]; reflexivity. }
  unfold forEachInlineRelJoin. rewrite _forEachInlineRelJoin_visiting.
  destruct (visitUntilError_inlineColumns Hj own (String.length b)) as [st E].
  rewrite E. reflexivity.
Qed.

End SelectList.

(** *** The closure of a relation *)

(** The closure [applyToRelation] stores on a join, when it is called on a
    query, adds the conditions of the relation to the WHERE list, in their
    order, each joined by AND and with no arguments, and then calls the
    caller's function if exactly one was passed. *)
Theorem relation_closure_adds_conditions_then_calls
    (j : relationJoin) (apply : list userFn) (q : SelectQuery) :
  let withConditions :=
    set_where q (where_ q ++ map (fun opt => SafeQueryWithSep opt None " AND ")
                                 (Condition (rjRelation j))) in
  exists c,
    rjApply (applyToRelation j apply) = Some c
    /\ callApply R (applyToRelation j apply) c q
       = match apply with
         | [f] => runUserFn R f withConditions
         | _ => withConditions
         end.
Proof.
  cbv zeta. eexists. split; [reflexivity|].
  unfold callApply. cbn [apply1 apply2 applyToRelation set_rjApply rjRelation].
  assert (E : (if (0 <? length (Condition (rjRelation j)))%nat
               then fold_left
                      (fun q0 opt => addWhere q0 (SafeQueryWithSep opt None " AND "))
                      (Condition (rjRelation j)) q
               else q)
              = set_where q (where_ q ++ map (fun opt => SafeQueryWithSep opt None " AND ")
                                             (Condition (rjRelation j)))).
  { destruct (Condition (rjRelation j)) as [|c cs] eqn:Ec.
    - cbn. rewrite app_nil_r. symmetry. apply set_where_same.
    - cbn [length Nat.ltb Nat.leb]. apply addWhere_each. }
  rewrite E. destruct apply as [|f [|g rest]]; reflexivity.
Qed.

(** *** The columns of an inline join *)

Section JoinColumns.

Variable fmter : Formatter.
Variable j : relationJoin.
Variable aliasText : string.
Variable aliasColumnText : string -> string.
Hypothesis alias_appends :
  forall b, appendAlias R j fmter b = appendStr b aliasText.
Hypothesis aliasColumn_appends :
  forall b name, appendAliasColumn R j fmter b name = appendStr b (aliasColumnText name).

(** One field of the joined table in the select list. *)
Definition fieldColumn (f : Field) : string :=
  (aliasText ++ "." ++ SQLName f ++ " AS " ++ aliasColumnText (Name f))%string.

Fixpoint laterColumns (fs : list Field) : string :=
  match fs with
  | [] => ""
  | f :: rest => (", " ++ fieldColumn f ++ laterColumns rest)%string
  end.

Definition fieldColumns (fs : list Field) : string :=
  match fs with
  | [] => ""
  | f :: rest => (fieldColumn f ++ laterColumns rest)%string
  end.

Lemma rangeAppend_laterColumns (fs : list Field) (b : bytes) :
  rangeAppend
    (fun (positive : bool) field b =>
       let b := if positive then appendStr b ", " else b in
       let b := appendAlias R j fmter b in
       let b := appendStr b "." in
       let b := appendStr b (SQLName field) in
       let b := appendStr b " AS " in
       (appendAliasColumn R j fmter b (Name field), None))
    true fs b
  = (appendStr b (laterColumns fs), None).
Proof.
  revert b. induction fs as [|f fs IH]; intros b; cbn [rangeAppend laterColumns].
  - now rewrite appendStr_nil_r.
  - cbv zeta. rewrite alias_appends, aliasColumn_appends. cbn [andThen].
    rewrite IH. unfold fieldColumn. rewrite !appendStr_assoc. reflexivity.
Qed.

(** A join on which no columns were selected contributes every field of the
    joined table, as [alias.column AS alias-column], the fields separated by
    a comma and in the order of the table. *)
Theorem appendInlineRelColumns_all_fields (b : bytes) :
  rjColumns j = None ->
  appendInlineRelColumns R fmter b j
  = (appendStr b (fieldColumns (Fields (rjJoinTable j))), None).
Proof.
  intros H. unfold appendInlineRelColumns. rewrite H.
  destruct (Fields (rjJoinTable j)) as [|f fs]; cbn [rangeAppend fieldColumns].
  - now rewrite appendStr_nil_r.
  - cbv zeta. rewrite alias_appends, aliasColumn_appends. cbn [andThen].
    rewrite rangeAppend_laterColumns. unfold fieldColumn.
    rewrite !appendStr_assoc. reflexivity.
Qed.

End JoinColumns.

(** *** An operand of a set operation that holds an error *)

Lemma appendUnions_erred_operand
    (self : SelectQuery -> Formatter -> bytes -> bool -> result * SelectQuery)
    (fmter : Formatter) (us : list unionBranch) :
  (forall q f b c, err q <> None -> snd (fst (self q f b c)) <> None) ->
  List.Exists (fun u => err (query u) <> None) us ->
  forall b, snd (fst (appendUnions R self fmter us b)) <> None.
Proof.
  intros Hself. induction 1 as [u us Hu|u us _ IH]; intros b; cbn [appendUnions].
  - specialize (Hself (query u) fmter
                  (appendComment R (appendStr (appendStr b (expr u)) "(")
                     (comment (query u))) false Hu).
    destruct (self (query u) fmter _ false) as [[b' [e|]] uq]; cbn [fst snd] in *.
    + discriminate.
    + congruence.
  - destruct (self (query u) fmter _ false) as [[b' [e|]] uq]; cbn [fst snd].
    + discriminate.
    + specialize (IH (appendStr b' ")")).
      destruct (appendUnions R self fmter us (appendStr b' ")")) as [r' rest'].
      exact IH.
Qed.

(** A query one of whose set-operation operands holds an error does not
    render: [appendQuery] returns an error, and so no statement text. *)
Theorem erred_operand_fails_rendering (q : SelectQuery) fmter b count :
  List.Exists (fun u => err (query u) <> None) (union q) ->
  exists e, fst (appendQuery R q fmter b count) = (nilBytes, Some e).
Proof.
  intros Hex. rewrite appendQuery_unfold.
  destruct (err q) as [e0|]; [eexists; reflexivity|]. cbv zeta.
  assert (Hs : forall b0 cte,
             snd (fst (appendStatement R (appendQuery R) q fmter b0 count cte)) <> None).
  { intros b0 cte. unfold appendStatement.
    destruct (appendWith R q _ _) as [b1 [e|]]; [discriminate|].
    destruct (appendSelectBody R _ _ b1 count cte) as [b2 [e|]]; [discriminate|].
    assert (Hn : (0 <? length (union q))%nat = true).
    { destruct (union q); [inversion Hex | reflexivity]. }
    rewrite Hn.
    assert (Hself : forall q0 f b3 c,
               err q0 <> None -> snd (fst (appendQuery R q0 f b3 c)) <> None).
    { intros q0 f b3 c Hq0. destruct (err q0) as [e1|] eqn:E; [|congruence].
      erewrite appendQuery_erred by exact E. discriminate. }
    pose proof (@appendUnions_erred_operand (appendQuery R)
                  (formatterWithModel R fmter (applyInlineRelJoins R q))
                  (union q) Hself Hex (appendStr b2 ")")) as Hu.
    destruct (appendUnions R (appendQuery R) _ (union q) _) as [r branches].
    exact Hu. }
  specialize (Hs (if cteCount q count
                  then appendStr b "WITH _count_wrapper AS (" else b)
                 (cteCount q count)).
  destruct (appendStatement R (appendQuery R) q fmter _ count _) as [[b' [e|]] q'];
    cbn [fst snd] in *; [eexists; reflexivity | congruence].
Qed.

(** *** Relation and RelationWithOpts *)

(** [RelationWithOpts] with an [Apply] function and no extra join
    conditions is [Relation] with that function; without an [Apply]
    function it leaves the closure of the join as it was, where [Relation]
    with no function installs the closure that adds the relation's own
    conditions. *)
Theorem RelationWithOpts_and_Relation (q : SelectQuery) (name : string) :
  (forall f,
     Relation_ R q name [f]
     = Some (RelationWithOpts R q name
               {| Apply := Some f; AdditionalJoinOnConditions := None |}))
  /\
  (forall tm h,
     tableModel q = Some tm -> tableModelJoin R tm name = Some h ->
     RelationWithOpts R q name {| Apply := None; AdditionalJoinOnConditions := None |}
     = set_tableModel q (Some (jhPut h (jhJoin h)))
     /\ Relation_ R q name []
        = Some (set_tableModel q
                  (Some (jhPut h
                     (set_rjApply (jhJoin h)
                        (Some {| apply1 :=
                                   (0 <? length (Condition (rjRelation (jhJoin h))))%nat;
                                 apply2 := None |})))))).
Proof.
  split.
  - intros f. unfold Relation_, RelationWithOpts. cbn [length Nat.ltb Nat.leb].
    destruct (tableModel q) as [tm|]; [|reflexivity].
    destruct (tableModelJoin R tm name) as [h|]; reflexivity.
  - intros tm h Htm Hh. unfold Relation_, RelationWithOpts.
    rewrite Htm, Hh. split; reflexivity.
Qed.

End Rendering.

(** Rendering the query with a join condition and no join: an error and a
    nil buffer, whatever the buffer passed in held. *)
Lemma appendQuery_no_partial_output_witness :
  appendQuery Fixtures.specRenderer Fixtures.joinOnWithoutJoin Fixtures.pgFormatter
    "/* c */ " false
  = ((nilBytes, Some (errorString "bun: query has no joins")),
     Fixtures.joinOnWithoutJoin)
  /\ nilBytes = nilBytes.
Proof.
  split; [reflexivity|].
  exact (@appendQuery_no_partial_output Fixtures.formatter Fixtures.specRenderer
           Fixtures.joinOnWithoutJoin Fixtures.pgFormatter "/* c */ "%string false
           nilBytes (errorString "bun: query has no joins")
           Fixtures.joinOnWithoutJoin eq_refl).
Defined.

(** A query on a table given by name has no relation join, and rendering
    it leaves it as it was. *)
Lemma rendering_without_relations_leaves_query_witness :
  noTableModel Fixtures.adults = true
  /\ snd (appendQuery Fixtures.specRenderer Fixtures.adults Fixtures.pgFormatter
            "" false)
     = Fixtures.adults.
Proof.
  split; [reflexivity|].
  exact (@rendering_without_relations_leaves_query Fixtures.formatter
           Fixtures.specRenderer Fixtures.adults eq_refl Fixtures.pgFormatter
           ""%string false).
Defined.

(** Rendering that query a second time, on the query the first rendering
    left, gives the same statement. *)
Lemma rendering_without_relations_is_repeatable_witness :
  noTableModel Fixtures.adults = true
  /\ AppendQuery Fixtures.specRenderer
       (snd (AppendQuery Fixtures.specRenderer Fixtures.adults Fixtures.pgFormatter
               nilBytes))
       Fixtures.pgFormatter nilBytes
     = AppendQuery Fixtures.specRenderer Fixtures.adults Fixtures.pgFormatter nilBytes.
Proof.
  split; [reflexivity|].
  exact (@rendering_without_relations_is_repeatable Fixtures.formatter
           Fixtures.specRenderer Fixtures.adults Fixtures.pgFormatter nilBytes
           eq_refl).
Defined.

(** The clone of a query with a plain DISTINCT has lost it: its count is
    not wrapped and counts all rows. *)
Lemma Clone_drops_plain_distinct_witness :
  distinctOn Fixtures.distinctUsers = Some []
  /\ distinctOn (Clone Fixtures.specRenderer Fixtures.distinctUsers) = None
  /\ fst (countQuery_AppendQuery Fixtures.specRenderer
            (Clone Fixtures.specRenderer Fixtures.distinctUsers)
            Fixtures.pgFormatter "")
     = ("SELECT count(*) FROM users"%string, None).
Proof.
  split; [reflexivity|]. split; [|reflexivity].
  exact (@Clone_drops_plain_distinct Fixtures.formatter Fixtures.specRenderer
           Fixtures.distinctUsers eq_refl).
Defined.

(** The count of a grouped query is wrapped; the count of a query with no
    GROUP BY and no DISTINCT is not, and selects the count itself. *)
Lemma count_wrapper_on_group_or_distinct_list_witness :
  err Fixtures.usersByName = None
  /\ fst (countQuery_AppendQuery Fixtures.specRenderer Fixtures.usersByName
            Fixtures.pgFormatter "")
     = ("WITH _count_wrapper AS (SELECT * FROM users GROUP BY name) SELECT count(*) FROM _count_wrapper"%string,
        None)
  /\ err Fixtures.adults = None
  /\ fst (countQuery_AppendQuery Fixtures.specRenderer Fixtures.adults
            Fixtures.pgFormatter "")
     = ("SELECT count(*) FROM users WHERE (age > 18)"%string, None).
Proof.
  split; [reflexivity|]. split; [|split; [reflexivity|]].
  - destruct (@count_wrapper_on_group_or_distinct_list Fixtures.formatter
                Fixtures.specRenderer Fixtures.usersByName Fixtures.pgFormatter
                ""%string eq_refl) as [H _].
    rewrite H. reflexivity.
  - destruct (@count_wrapper_on_group_or_distinct_list Fixtures.formatter
                Fixtures.specRenderer Fixtures.adults Fixtures.pgFormatter
                ""%string eq_refl) as [H _].
    rewrite H. reflexivity.
Defined.

(** The count of a query with a plain DISTINCT and no ON-list is wrapped
    too: [Distinct] leaves an empty list, which is not nil. *)
Lemma plain_distinct_triggers_count_wrapper :
  len (distinctOn Fixtures.distinctUsers) = 0
  /\ len (group Fixtures.distinctUsers) = 0
  /\ fst (countQuery_AppendQuery Fixtures.specRenderer Fixtures.distinctUsers
            Fixtures.pgFormatter "")
     = ("WITH _count_wrapper AS (SELECT DISTINCT * FROM users) SELECT count(*) FROM _count_wrapper"%string,
        None).
Proof. repeat split. Qed.

Example count_without_group_or_distinct :
  fst (countQuery_AppendQuery Fixtures.specRenderer Fixtures.adults
         Fixtures.pgFormatter "")
  = ("SELECT count(*) FROM users WHERE (age > 18)"%string, None).
Proof. reflexivity. Qed.

(** The scenario of the specification: table, filter, limit 10, offset 0. *)
Example render_scenario :
  fst (AppendQuery Fixtures.specRenderer
         (Offset (Limit (Where (Table_ NewSelectQuery ["users"%string])
                               "age > ?" [VInt 18]) 10) 0)
         Fixtures.pgFormatter "")
  = (("SELECT * FROM " ++ Fixtures.quoteIdent "users"
      ++ " WHERE (age > 18) LIMIT 10")%string, None).
Proof. reflexivity. Qed.

(** *** A clone of an erred query *)

(** C1, where the code departs from it.  [JoinOn] with no join before it
    records an error, and rendering the query returns that error and a nil
    buffer; the clone of the query holds no error and renders a
    statement. *)
Lemma clone_of_erred_query_renders :
  err Fixtures.joinOnWithoutJoin = Some (errorString "bun: query has no joins")
  /\ fst (AppendQuery Fixtures.specRenderer Fixtures.joinOnWithoutJoin
            Fixtures.pgFormatter "")
     = (nilBytes, Some (errorString "bun: query has no joins"))
  /\ err (Clone Fixtures.specRenderer Fixtures.joinOnWithoutJoin) = None
  /\ fst (AppendQuery Fixtures.specRenderer
            (Clone Fixtures.specRenderer Fixtures.joinOnWithoutJoin)
            Fixtures.pgFormatter "")
     = ("SELECT * FROM users"%string, None).
Proof. repeat split. Qed.

(** *** Rendering twice *)

(** The statement up to its WHERE clause, for users with their profile. *)
Definition usersWithProfileHead : string :=
  ("SELECT u." ++ Fixtures.quoteIdent "id" ++ ", "
   ++ Fixtures.quoteIdent "profile" ++ "." ++ Fixtures.quoteIdent "id"
   ++ " AS " ++ Fixtures.quoteIdent "profile__ID"
   ++ " FROM " ++ Fixtures.quoteIdent "users" ++ " AS " ++ Fixtures.quoteIdent "u"
   ++ " LEFT JOIN " ++ Fixtures.quoteIdent "profiles" ++ " AS "
   ++ Fixtures.quoteIdent "profile")%string.

(** C4, where the code departs from it.  A query with a to-one relation
    that carries a condition renders differently the second time: each
    rendering runs the relation's apply closure on the query, which appends
    the condition to its WHERE list. *)
Lemma rendering_twice_with_relation_condition_differs :
  let q := Fixtures.usersWithProfile in
  let '((first, _), q') := AppendQuery Fixtures.specRenderer q Fixtures.pgFormatter "" in
  let '((second, _), _) := AppendQuery Fixtures.specRenderer q' Fixtures.pgFormatter "" in
  first = (usersWithProfileHead ++ " WHERE (profile.active)")%string
  /\ second
     = (usersWithProfileHead ++ " WHERE (profile.active) AND (profile.active)")%string
  /\ first <> second
  /\ where_ q = []
  /\ List.length (where_ q') = 1%nat.
Proof.
  vm_compute. repeat split. intros H. discriminate H.
Qed.

(** *** Index hints *)

(** On any dialect but MySQL the twelve index-hint builders leave the query
    as it is: the code behind them is not called. *)
Theorem index_hints_only_on_MySQL (name : dialect.Name)
    (a1 a2 a3 a4 a5 a6 a7 a8 a9 a10 a11 a12 : SelectQuery -> list string -> SelectQuery)
    (q : SelectQuery) (indexes : list string) :
  name <> dialect.MySQL ->
  UseIndex name a1 q indexes = q
  /\ UseIndexForJoin name a2 q indexes = q
  /\ UseIndexForOrderBy name a3 q indexes = q
  /\ UseIndexForGroupBy name a4 q indexes = q
  /\ IgnoreIndex name a5 q indexes = q
  /\ IgnoreIndexForJoin name a6 q indexes = q
  /\ IgnoreIndexForOrderBy name a7 q indexes = q
  /\ IgnoreIndexForGroupBy name a8 q indexes = q
  /\ ForceIndex name a9 q indexes = q
  /\ ForceIndexForJoin name a10 q indexes = q
  /\ ForceIndexForOrderBy name a11 q indexes = q
  /\ ForceIndexForGroupBy name a12 q indexes = q.
Proof.
  intros H.
  unfold UseIndex, UseIndexForJoin, UseIndexForOrderBy, UseIndexForGroupBy,
    IgnoreIndex, IgnoreIndexForJoin, IgnoreIndexForOrderBy, IgnoreIndexForGroupBy,
    ForceIndex, ForceIndexForJoin, ForceIndexForOrderBy, ForceIndexForGroupBy, onMySQL.
  destruct name; try congruence; repeat split; reflexivity.
Qed.

(** Of the nested joins of the fixtures, the profile and the address below
    it are visited; the orders, and the profile below them, are not. *)
Example inline_joins_of_nested_joins :
  map (fun j => SQLAlias (rjJoinTable j)) (inlineJoins Fixtures.nestedJoins)
  = ["profile"; "address"]%string
  /\ snd (fst (forEachInlineRelJoin
                 (visiting (fun j seen =>
                              ((seen ++ [SQLAlias (rjJoinTable j)])%list, None)))
                 (Some {| tmTable := Fixtures.usersTable;
                          tmJoins := Fixtures.nestedJoins |})
                 []))
     = ["profile"; "address"]%string.
Proof. split; reflexivity. Qed.

(** The closure of the relation [Profile] with the user function of the
    fixtures: the condition of the relation, then what the function adds. *)
Example relation_closure_on_profile :
  map (fun w => Query (Fragment w))
      (where_ (callApply Fixtures.specRenderer
                 (applyToRelation Fixtures.profileJoin [0%nat])
                 {| apply1 := true; apply2 := Some 0%nat |} Fixtures.adults))
  = ["age > ?"; "profile.active"; "profile.verified"]%string.
Proof. reflexivity. Qed.

(** A condition added after [Join("JOIN b")] lands on that join. *)
Lemma joinOn_extends_last_join_only_witness :
  joins Fixtures.adultsJoinB = ([] ++ [{| join := SafeQuery "JOIN b" None; on := [] |}])%list
  /\ JoinOn Fixtures.adultsJoinB "b.id = users.b_id" []
     = set_joins Fixtures.adultsJoinB
         [{| join := SafeQuery "JOIN b" None;
             on := [SafeQueryWithSep "b.id = users.b_id" None " AND "] |}].
Proof.
  split; [reflexivity|].
  exact (@joinOn_extends_last_join_only Fixtures.adultsJoinB []
           {| join := SafeQuery "JOIN b" None; on := [] |}
           "b.id = users.b_id"%string None " AND "%string eq_refl).
Defined.

(** A count of the adults with a limit of 2: the statement has no LIMIT,
    although code that fails stands where the clause would be rendered. *)
Lemma count_renders_no_order_limit_offset_witness :
  union (Fixtures.pinnedLimit 2) = []
  /\ fst (countQuery_AppendQuery
            (withOrderLimit Fixtures.specRenderer
               (Fixtures.refuses "order") (Fixtures.refuses "limit"))
            (Fixtures.pinnedLimit 2) Fixtures.pgFormatter ""%string)
     = ("SELECT count(*) FROM users WHERE (age > 18)"%string, None).
Proof.
  split; [reflexivity|].
  exact (eq_trans
           (f_equal fst
              (@count_renders_no_order_limit_offset _ Fixtures.specRenderer
                 (Fixtures.pinnedLimit 2) Fixtures.pgFormatter ""%string
                 (Fixtures.refuses "order") (Fixtures.refuses "limit") eq_refl))
           eq_refl).
Defined.

(** The adults with a comment: the comment is in the statement [AppendQuery]
    renders, and in none of the count and exists statements. *)
Lemma wrappers_render_no_comment_witness :
  let q := Comment Fixtures.adults "report" in
  let other := withComment Fixtures.specRenderer (fun b _ => appendStr b "/* other */ ") in
  union q = []
  /\ fst (AppendQuery Fixtures.specRenderer q Fixtures.pgFormatter ""%string)
     = ("/* report */ SELECT * FROM users WHERE (age > 18)"%string, None)
  /\ fst (countQuery_AppendQuery other q Fixtures.pgFormatter ""%string)
     = ("SELECT count(*) FROM users WHERE (age > 18)"%string, None)
  /\ fst (selectExistsQuery_AppendQuery other q Fixtures.pgFormatter ""%string)
     = ("SELECT EXISTS (SELECT * FROM users WHERE (age > 18))"%string, None)
  /\ fst (whereExistsQuery_AppendQuery other q Fixtures.pgFormatter ""%string)
     = ("SELECT 1 WHERE EXISTS (SELECT * FROM users WHERE (age > 18))"%string, None).
Proof.
  cbv zeta. split; [reflexivity|]. split; [reflexivity|].
  pose proof (@wrappers_render_no_comment _ Fixtures.specRenderer
                (Comment Fixtures.adults "report") Fixtures.pgFormatter ""%string
                (fun b _ => appendStr b "/* other */ ") eq_refl) as [Hc [Hs Hw]].
  split; [exact (eq_trans (f_equal fst Hc) eq_refl)|].
  split; [exact (eq_trans (f_equal fst Hs) eq_refl)|].
  exact (eq_trans (f_equal fst Hw) eq_refl).
Defined.

(** A join with two conditions, both added with [JoinOnOr]: the first is
    rendered without its separator. *)
Lemma joinQuery_AppendQuery_text_witness :
  joinQuery_AppendQuery Fixtures.textRenderer
    {| join := SafeQuery "JOIN b" None;
       on := [SafeQueryWithSep "b.id = a.id" None " OR ";
              SafeQueryWithSep "b.x > 0" None " OR "] |}
    Fixtures.pgFormatter "SELECT * FROM a"
  = ("SELECT * FROM a JOIN b ON (b.id = a.id) OR (b.x > 0)"%string, None).
Proof.
  exact (@joinQuery_AppendQuery_text _ Fixtures.textRenderer Fixtures.pgFormatter
           Query (fun f b => eq_refl)
           {| join := SafeQuery "JOIN b" None;
              on := [SafeQueryWithSep "b.id = a.id" None " OR ";
                     SafeQueryWithSep "b.x > 0" None " OR "] |}
           "SELECT * FROM a"%string).
Defined.

(** The adults in a set operation with the query that holds the error of a
    join condition without a join. *)
Lemma erred_operand_fails_rendering_witness :
  List.Exists (fun u => err (query u) <> None) (union Fixtures.adultsUnionErred)
  /\ fst (appendQuery Fixtures.specRenderer Fixtures.adultsUnionErred
            Fixtures.pgFormatter ""%string false)
     = (nilBytes, Some (errorString "bun: query has no joins")).
Proof.
  assert (H : List.Exists (fun u => err (query u) <> None)
                (union Fixtures.adultsUnionErred)).
  { apply Exists_cons_hd. discriminate. }
  split; [exact H|].
  destruct (@erred_operand_fails_rendering _ Fixtures.specRenderer
              Fixtures.adultsUnionErred Fixtures.pgFormatter ""%string false H) as [e He].
  reflexivity.
Defined.

(** The relation [Profile] of the users, which has a condition of its own:
    [RelationWithOpts] with no function leaves the join without a closure,
    [Relation] gives it the closure that adds the condition. *)
Lemma RelationWithOpts_and_Relation_witness :
  let put j := Some {| tmTable := Fixtures.usersTable; tmJoins := [j] |} in
  tableModel (RelationWithOpts Fixtures.specRenderer Fixtures.selectUsers "Profile"
                {| Apply := None; AdditionalJoinOnConditions := None |})
  = put Fixtures.profileJoin
  /\ option_map tableModel (Relation_ Fixtures.specRenderer Fixtures.selectUsers "Profile" [])
     = Some (put (set_rjApply Fixtures.profileJoin
                    (Some {| apply1 := true; apply2 := None |}))).
Proof.
  cbv zeta.
  destruct (proj2 (@RelationWithOpts_and_Relation _ Fixtures.specRenderer
                     Fixtures.selectUsers "Profile"%string)
              Fixtures.usersModel
              {| jhJoin := Fixtures.profileJoin;
                 jhPut := fun j' => {| tmTable := Fixtures.usersTable;
                                       tmJoins := ([] ++ [j'])%list |} |}
              eq_refl eq_refl) as [H1 H2].
  split.
  - exact (eq_trans (f_equal tableModel H1) eq_refl).
  - exact (eq_trans (f_equal (option_map tableModel) H2) eq_refl).
Defined.

(** On PostgreSQL an index hint changes nothing. *)
Lemma index_hints_only_on_MySQL_witness :
  dialect.PG <> dialect.MySQL
  /\ UseIndex dialect.PG (fun q _ => Limit q 1) Fixtures.adults ["idx_age"%string]
     = Fixtures.adults
  /\ ForceIndexForGroupBy dialect.PG (fun q _ => Limit q 1) Fixtures.adults ["idx_age"%string]
     = Fixtures.adults.
Proof.
  assert (H : dialect.PG <> dialect.MySQL) by discriminate.
  pose proof (@index_hints_only_on_MySQL dialect.PG
                (fun q _ => Limit q 1) (fun q _ => Limit q 1) (fun q _ => Limit q 1)
                (fun q _ => Limit q 1) (fun q _ => Limit q 1) (fun q _ => Limit q 1)
                (fun q _ => Limit q 1) (fun q _ => Limit q 1) (fun q _ => Limit q 1)
                (fun q _ => Limit q 1) (fun q _ => Limit q 1) (fun q _ => Limit q 1)
                Fixtures.adults ["idx_age"%string] H) as P.
  split; [exact H|]. split; [exact (proj1 P)|].
  exact (proj2 (proj2 (proj2 (proj2 (proj2 (proj2 (proj2 (proj2 (proj2 (proj2 (proj2 P))))))))))).
Defined.

(** The users with their profile: the column of the users, a separator, the
    column of the profile under its alias. *)
Lemma appendColumns_of_model_with_inline_joins_witness :
  let profileColumns :=
    (Fixtures.quoteIdent "profile" ++ "." ++ Fixtures.quoteIdent "id" ++ " AS "
     ++ Fixtures.quoteIdent "profile__ID")%string in
  appendColumns Fixtures.specRenderer Fixtures.usersWithProfile Fixtures.pgFormatter
    "SELECT "
  = (("SELECT u." ++ Fixtures.quoteIdent "id" ++ ", " ++ profileColumns)%string, None).
Proof.
  cbv zeta.
  refine (@appendColumns_of_model_with_inline_joins _ Fixtures.specRenderer
            Fixtures.pgFormatter
            (fun _ => (Fixtures.quoteIdent "profile" ++ "." ++ Fixtures.quoteIdent "id"
                       ++ " AS " ++ Fixtures.quoteIdent "profile__ID")%string)
            Fixtures.usersWithProfile "SELECT "%string Fixtures.usersTable
            {| tmTable := Fixtures.usersTable;
               tmJoins := [set_rjApply Fixtures.profileJoin
                             (Some {| apply1 := true; apply2 := None |})] |}
            eq_refl eq_refl eq_refl eq_refl _).
  apply Forall_cons; [|apply Forall_nil].
  intros b0. unfold appendInlineRelColumns. cbn.
  unfold Fixtures.specAlias, Fixtures.specAliasColumn. cbn.
  rewrite !appendStr_assoc. reflexivity.
Defined.

(** The profile of the users: one field. *)
Lemma appendInlineRelColumns_all_fields_witness :
  appendInlineRelColumns Fixtures.specRenderer Fixtures.pgFormatter "SELECT "
    Fixtures.profileJoin
  = (("SELECT " ++ Fixtures.quoteIdent "profile" ++ "." ++ Fixtures.quoteIdent "id"
      ++ " AS " ++ Fixtures.quoteIdent "profile__ID")%string, None).
Proof.
  exact (@appendInlineRelColumns_all_fields _ Fixtures.specRenderer
           Fixtures.pgFormatter Fixtures.profileJoin
           (Fixtures.quoteIdent "profile")
           (fun name => Fixtures.quoteIdent ("profile__" ++ name))
           (fun b => eq_refl) (fun b name => eq_refl) "SELECT "%string eq_refl).
Defined.

(** The adults, selected from a table given by name. *)
Lemma appendColumns_default_star_witness :
  appendColumns Fixtures.specRenderer Fixtures.adults Fixtures.pgFormatter "SELECT "
  = ("SELECT *"%string, None).
Proof.
  exact (@appendColumns_default_star _ Fixtures.specRenderer Fixtures.adults
           Fixtures.pgFormatter "SELECT "%string eq_refl eq_refl eq_refl).
Defined.

End RenderFacts.

(** ** query_select.go: terminal calls *)

Module ExecFacts.

Import schema Select.

Section Terminal.

Variable Formatter : Type.
Variable R : Renderer Formatter.
Variables (Ctx Time Rows Ext : Type).
Variable X : Runtime Formatter Ctx Time Rows Ext.
Variable concurrently : Ctx -> list nat -> M Ctx Time Ext (Z * option error).

Local Abbreviation state := (Select.state Ctx Time Ext).
Local Abbreviation outcome := (Select.outcome Ctx Time Ext).

(** The state a call leaves, whether it returned or panicked. *)
Definition finalState {A : Type} (o : outcome A) : state :=
  match o with
  | Done _ s => s
  | Panic s => s
  end.

(** The follow-up statements of the relation resolver. *)
Definition isFollowUp (st : statement) : bool :=
  match st with
  | stmtSelectMany _ _ | stmtSelectM2M _ _ => true
  | _ => false
  end.

Definition followUps (log : list exchange) : Prop :=
  Forall (fun x => isFollowUp (sent x) = true) log.

(** The state after a step that leaves the log alone. *)
Definition withQueryDBExt (s : state) (q : SelectQuery)
    (db : Hook.DB Ctx Time Ext) (x : Ext) : state :=
  {| stQuery := q; stDB := db; stExt := x; stLog := stLog s |}.

Lemma db_afterQuery_returns ctx ev res e (s : state) :
  exists db x, db_afterQuery ctx ev res e s = Done tt (withQueryDBExt s (stQuery s) db x).
Proof.
  unfold db_afterQuery. rewrite HookFacts.afterQuery_spec. cbv zeta.
  destruct ev as [ev|].
  - destruct (HookFacts.afterEach _ _ _ _) as [ev' x']. do 2 eexists. reflexivity.
  - do 2 eexists. reflexivity.
Qed.

(** *** Follow-up statements *)

(** A call that adds nothing to the log but follow-up statements. *)
Definition addsFollowUps {A : Type} (m : M Ctx Time Ext A) : Prop :=
  forall s, exists rest,
    stLog (finalState (m s)) = stLog s ++ rest /\ followUps rest.

Lemma addsFollowUps_ret (A : Type) (a : A) : addsFollowUps (ret a).
Proof. intros s. exists []. split; [now rewrite app_nil_r | constructor]. Qed.

Lemma addsFollowUps_bind (A B : Type) (m : M Ctx Time Ext A)
    (k : A -> M Ctx Time Ext B) :
  addsFollowUps m -> (forall a, addsFollowUps (k a)) -> addsFollowUps (bind m k).
Proof.
  intros Hm Hk s. unfold bind. destruct (Hm s) as (r1 & E1 & F1).
  destruct (m s) as [a s1|s1]; simpl in E1.
  - destruct (Hk a s1) as (r2 & E2 & F2). exists (r1 ++ r2). split.
    + rewrite E2, E1, app_assoc. reflexivity.
    + apply Forall_app. split; assumption.
  - exists r1. split; assumption.
Qed.

Lemma selectJoins1_addsFollowUps ctx (j : relationJoin) :
  addsFollowUps (selectJoins1 X ctx j).
Proof.
  induction j as [j IH] using RenderFacts.relationJoin_induction.
  destruct j as [rel tbl below ap cols more]. cbn [rjJoins] in IH.
  cbn [selectJoins1 rjRelation rjJoins].
  destruct (Type_ rel).
  1, 2: induction IH as [|k ks Hk _ IHks];
        [ apply addsFollowUps_ret
        | apply addsFollowUps_bind; [exact Hk|];
          intros [e|]; [apply addsFollowUps_ret | exact IHks] ].
  - intros s. unfold bind, getQuery, onDB, record, ret.
    destruct (selectMany X _ _ _ _ _) as [[e db] x].
    eexists. cbn [finalState stLog]. split; [reflexivity | repeat constructor].
  - intros s. unfold bind, getQuery, onDB, record, ret.
    destruct (selectM2M X _ _ _ _ _) as [[e db] x].
    eexists. cbn [finalState stLog]. split; [reflexivity | repeat constructor].
  - intros s. exists []. unfold panic. cbn. split; [now rewrite app_nil_r | constructor].
Qed.

Lemma selectJoins_addsFollowUps ctx (js : list relationJoin) :
  addsFollowUps (selectJoins X ctx js).
Proof.
  induction js as [|j js IH]; cbn [selectJoins].
  - apply addsFollowUps_ret.
  - apply addsFollowUps_bind; [apply selectJoins1_addsFollowUps|].
    intros [e|]; [apply addsFollowUps_ret | exact IH].
Qed.

(** *** Scan and its follow-up statements *)

(** What a scan may add to the log: nothing, or the primary scan followed by
    follow-up statements only, and those only if the scan returned no error
    and affected more than zero rows. *)
Definition scanLogShape (before after : list exchange) : Prop :=
  after = before
  \/ exists c query res e rest,
       after = before ++ {| sent := stmtScan c query; got := gotResult res e |} :: rest
       /\ followUps rest
       /\ (rest <> [] -> e = None /\ exists r, res = Some r /\ 0 < fst (RowsAffected r)).

Ltac destruct_head :=
  match goal with
  | |- context [match ?t with _ => _ end] =>
      lazymatch t with
      | context [match _ with _ => _ end] => fail
      | _ => destruct t eqn:?
      end
  end.

Ltac followups_fact :=
  match goal with
  | H : selectJoins ?X ?ctx ?js ?s = _ |- _ =>
      let F := fresh "F" in
      pose proof (selectJoins_addsFollowUps ctx js s) as F;
      rewrite H in F; cbn [finalState stLog] in F;
      let rest := fresh "rest" in
      let E := fresh "E" in
      let Fr := fresh "Fr" in
      destruct F as (rest & E & Fr); rewrite E, <- app_assoc; cbn [app]; clear H
  end.

Ltac positive_rows :=
  match goal with
  | H : (0 <? _) = true |- _ => apply Z.ltb_lt in H; exact H
  end.

Ltac shape_leaf :=
  cbn [finalState stLog];
  try followups_fact;
  first
    [ left; reflexivity
    | right; do 5 eexists;
      split; [reflexivity | split; [first [assumption | constructor] | ]];
      first [ intros C; congruence
            | intros _; split;
              [reflexivity | eexists; split; [reflexivity | positive_rows]] ]
    | do 4 eexists;
      split; [reflexivity
             | split; [reflexivity | split; [first [assumption | constructor] | ]]];
      first [ intros C; congruence | intros _; positive_rows ] ].

(** [scanResult], by its outcome: on success the result returned is the
    reply to the one primary scan. *)
Lemma scanResult_shape ctx dest (s : state) :
  match scanResult R X ctx dest s with
  | Done (res, None) s' =>
      exists c query r rest,
        res = Some r
        /\ stLog s' = stLog s
                      ++ {| sent := stmtScan c query; got := gotResult (Some r) None |}
                         :: rest
        /\ followUps rest
        /\ (rest <> [] -> 0 < fst (RowsAffected r))
  | o => scanLogShape (stLog s) (stLog (finalState o))
  end.
Proof.
  unfold scanResult, q_scan, beforeSelectHook, afterSelectHook.
  unfold bind, getQuery, putQuery, ret, onQuery, render, onDB, record, panic.
  cbn [stQuery stDB stExt stLog].
  repeat (destruct_head; cbn [stQuery stDB stExt stLog fst snd finalState]).
  all: shape_leaf.
Qed.

Lemma scanResult_log ctx dest (s : state) :
  scanLogShape (stLog s) (stLog (finalState (scanResult R X ctx dest s))).
Proof.
  pose proof (scanResult_shape ctx dest s) as H.
  destruct (scanResult R X ctx dest s) as [[res [e|]] s'|s']; try exact H.
  destruct H as (c & query & r & rest & -> & E & F & P).
  right. exists c, query, (Some r), None, rest. cbn [finalState].
  repeat split; eauto.
Qed.

Lemma Scan_finalState ctx dest (s : state) :
  finalState (Scan R X ctx dest s) = finalState (scanResult R X ctx dest s).
Proof.
  unfold Scan, bind, ret. destruct (scanResult R X ctx dest s); reflexivity.
Qed.

(** C7.  Whatever a [Scan] call does, the statements it issues are none at
    all, or the primary scan followed by follow-up statements of to-many and
    many-to-many relations only; follow-up statements are there only if the
    primary scan returned no error and an affected-row count greater than
    zero, so after a scan that affected zero rows there is none. *)
Theorem followups_only_after_rows ctx dest (s : state) :
  let after := stLog (finalState (Scan R X ctx dest s)) in
  after = stLog s
  \/ exists c query res e rest,
       after = stLog s ++ {| sent := stmtScan c query; got := gotResult res e |} :: rest
       /\ followUps rest
       /\ (rest <> [] -> e = None /\ exists r, res = Some r /\ 0 < fst (RowsAffected r))
       /\ (forall r, res = Some r -> fst (RowsAffected r) <= 0 -> rest = []).
Proof.
  cbv zeta. rewrite Scan_finalState.
  destruct (scanResult_log ctx dest s) as [H|(c & query & res & e & rest & E & F & P)].
  - left. exact H.
  - right. exists c, query, res, e, rest. repeat split; try assumption;
      try (apply P; assumption).
    intros r Hr Hz. destruct rest as [|x rest]; [reflexivity|].
    destruct P as (_ & r' & Hr' & Hpos); [discriminate|].
    rewrite Hr in Hr'. injection Hr' as <-. lia.
Qed.

(** *** The pinned connection *)

(** The connection a statement was issued on. *)
Definition stmtConn (st : statement) : option Conn :=
  match st with
  | stmtScan c _ | stmtExec c _ _ | stmtQuery c _ | stmtQueryRow c _ _
  | stmtSelectMany c _ | stmtSelectM2M c _ => c
  end.

Definition allOn (c : option Conn) (log : list exchange) : Prop :=
  Forall (fun x => stmtConn (sent x) = c) log.

(** Closures and hooks that leave the connection of the query they are
    given as it is. *)
Record keepsConn : Prop := mkKeepsConn {
  userFn_keeps : forall f q, conn (runUserFn R f q) = conn q;
  comment_keeps : forall ctx q, conn (setCommentFromContext X ctx q) = conn q;
  beforeAppendModel_keeps :
    forall ctx q x, conn (snd (fst (beforeAppendModel X ctx q x))) = conn q;
  beforeSelect_keeps :
    forall t hook, BeforeSelectHook X t = Some hook ->
    forall ctx q x, conn (snd (fst (hook ctx q x))) = conn q;
  afterSelect_keeps :
    forall t hook, AfterSelectHook X t = Some hook ->
    forall ctx q x, conn (snd (fst (hook ctx q x))) = conn q
}.

(** A call that leaves the query on connection [c] and issues statements
    on [c] only. *)
Definition usesConn (c : option Conn) {A : Type} (m : M Ctx Time Ext A) : Prop :=
  forall s, conn (stQuery s) = c ->
    conn (stQuery (finalState (m s))) = c
    /\ exists rest, stLog (finalState (m s)) = stLog s ++ rest /\ allOn c rest.

Lemma usesConn_silent (c : option Conn) (A : Type) (m : M Ctx Time Ext A) :
  (forall s, conn (stQuery s) = c ->
             conn (stQuery (finalState (m s))) = c
             /\ stLog (finalState (m s)) = stLog s) ->
  usesConn c m.
Proof.
  intros H s Hs. destruct (H s Hs) as [Hc Hl]. split; [exact Hc|].
  exists []. split; [now rewrite app_nil_r | constructor].
Qed.

Lemma usesConn_ret c (A : Type) (a : A) : usesConn c (ret a).
Proof. apply usesConn_silent. intros s Hs. split; [exact Hs | reflexivity]. Qed.

Lemma usesConn_panic c (A : Type) : usesConn c (@panic Ctx Time Ext A).
Proof. apply usesConn_silent. intros s Hs. split; [exact Hs | reflexivity]. Qed.

Lemma usesConn_bind c (A B : Type) (m : M Ctx Time Ext A)
    (k : A -> M Ctx Time Ext B) :
  usesConn c m -> (forall a, usesConn c (k a)) -> usesConn c (bind m k).
Proof.
  intros Hm Hk s Hs. unfold bind. destruct (Hm s Hs) as (C1 & r1 & E1 & F1).
  destruct (m s) as [a s1|s1]; cbn [finalState] in *.
  - destruct (Hk a s1 C1) as (C2 & r2 & E2 & F2). split; [exact C2|].
    exists (r1 ++ r2). split.
    + rewrite E2, E1, app_assoc. reflexivity.
    + apply Forall_app. split; assumption.
  - split; [exact C1|]. exists r1. split; assumption.
Qed.

Lemma usesConn_getQuery c (B : Type) (k : SelectQuery -> M Ctx Time Ext B) :
  (forall q, conn q = c -> usesConn c (k q)) -> usesConn c (bind (@getQuery Ctx Time Ext) k).
Proof. intros Hk s Hs. unfold bind, getQuery. apply (Hk (stQuery s) Hs s Hs). Qed.

Lemma usesConn_putQuery c (q : SelectQuery) :
  conn q = c -> usesConn c (putQuery (Ctx := Ctx) (Time := Time) (Ext := Ext) q).
Proof. intros Hq. apply usesConn_silent. intros s _. split; [exact Hq | reflexivity]. Qed.

Lemma usesConn_onQuery c (A : Type)
    (f : SelectQuery -> Ext -> A * SelectQuery * Ext) :
  (forall q x, conn (snd (fst (f q x))) = conn q) -> usesConn c (onQuery (Ctx := Ctx) (Time := Time) f).
Proof.
  intros Hf. apply usesConn_silent. intros s Hs. unfold onQuery.
  specialize (Hf (stQuery s) (stExt s)).
  destruct (f (stQuery s) (stExt s)) as [[a q] x]. cbn in *. split; congruence.
Qed.

Lemma usesConn_onDB c (A : Type)
    (f : Hook.DB Ctx Time Ext -> Ext -> A * Hook.DB Ctx Time Ext * Ext) :
  usesConn c (onDB f).
Proof.
  apply usesConn_silent. intros s Hs. unfold onDB.
  destruct (f (stDB s) (stExt s)) as [[a db] x]. split; [exact Hs | reflexivity].
Qed.

Lemma usesConn_onExt c (A : Type) (f : Ext -> A * Ext) :
  usesConn c (onExt (Ctx := Ctx) (Time := Time) f).
Proof.
  apply usesConn_silent. intros s Hs. unfold onExt.
  destruct (f (stExt s)) as [a x]. split; [exact Hs | reflexivity].
Qed.

Lemma usesConn_render c
    (f : SelectQuery -> Formatter -> bytes -> result * SelectQuery) (b : bytes) :
  (forall q fm b0, conn (snd (f q fm b0)) = conn q) -> usesConn c (render X f b).
Proof.
  intros Hf. apply usesConn_silent. intros s Hs. unfold render.
  specialize (Hf (stQuery s) (dbFmter X) b).
  destruct (f (stQuery s) (dbFmter X) b) as [r q]. cbn in *. split; congruence.
Qed.

Lemma usesConn_record c (st : statement) (rp : reply) :
  stmtConn st = c -> usesConn c (record (Ctx := Ctx) (Time := Time) (Ext := Ext) st rp).
Proof.
  intros Hc s Hs. unfold record. cbn [finalState stQuery stLog]. split; [exact Hs|].
  eexists. split; [reflexivity|]. repeat constructor. exact Hc.
Qed.

Lemma usesConn_db_beforeQuery c ctx app query :
  usesConn c (db_beforeQuery X ctx app query).
Proof.
  apply usesConn_silent. intros s Hs. unfold db_beforeQuery.
  destruct (Hook.beforeQuery _ _ _ _ _ _ _) as [[r db] x].
  split; [exact Hs | reflexivity].
Qed.

Lemma usesConn_db_afterQuery c ctx ev res e :
  usesConn c (db_afterQuery ctx ev res e).
Proof.
  apply usesConn_silent. intros s Hs.
  destruct (db_afterQuery_returns ctx ev res e s) as (db & x & E). rewrite E.
  split; [exact Hs | reflexivity].
Qed.

Lemma selectJoins1_usesConn c ctx (j : relationJoin) :
  usesConn c (selectJoins1 X ctx j).
Proof.
  induction j as [j IH] using RenderFacts.relationJoin_induction.
  destruct j as [rel tbl below ap cols more]. cbn [rjJoins] in IH.
  cbn [selectJoins1 rjRelation rjJoins].
  destruct (Type_ rel).
  1, 2: induction IH as [|k ks Hk _ IHks];
        [ apply usesConn_ret
        | apply usesConn_bind; [exact Hk|];
          intros [e|]; [apply usesConn_ret | exact IHks] ].
  1, 2: apply usesConn_getQuery; intros q Hq;
        apply usesConn_bind; [apply usesConn_onDB|]; intros e;
        apply usesConn_bind; [apply usesConn_record; exact Hq|]; intros _;
        apply usesConn_ret.
  apply usesConn_panic.
Qed.

Lemma selectJoins_usesConn c ctx (js : list relationJoin) :
  usesConn c (selectJoins X ctx js).
Proof.
  induction js as [|j js IH]; cbn [selectJoins].
  - apply usesConn_ret.
  - apply usesConn_bind; [apply selectJoins1_usesConn|].
    intros [e|]; [apply usesConn_ret | exact IH].
Qed.

Section Pinned.

Hypothesis K : keepsConn.

Lemma scanResult_usesConn c ctx dest : usesConn c (scanResult R X ctx dest).
Proof.
  unfold scanResult.
  apply usesConn_getQuery; intros q Hq.
  destruct (err q); [apply usesConn_ret|].
  destruct (getModel X q dest) as [m [e|]]; [apply usesConn_ret|].
  destruct (_ && _); [apply usesConn_ret|].
  apply usesConn_bind.
  { destruct (table q) as [t|]; [|apply usesConn_ret].
    unfold beforeSelectHook. destruct (BeforeSelectHook X t) as [hook|] eqn:E;
      [|apply usesConn_ret].
    apply usesConn_onQuery. intros q0 x. apply (beforeSelect_keeps K _ E). }
  intros [e|]; [apply usesConn_ret|].
  apply usesConn_bind.
  { apply usesConn_onQuery. intros q0 x. apply (beforeAppendModel_keeps K). }
  intros [e|]; [apply usesConn_ret|].
  apply usesConn_getQuery; intros q1 Hq1.
  apply usesConn_bind.
  { apply usesConn_putQuery. rewrite (comment_keeps K). exact Hq1. }
  intros _. apply usesConn_bind.
  { apply usesConn_render. intros q0 fm b0.
    apply RenderFacts.AppendQuery_conn. apply (userFn_keeps K). }
  intros [query [e|]]; [apply usesConn_ret|].
  apply usesConn_bind.
  { unfold q_scan. apply usesConn_getQuery; intros q2 Hq2.
    apply usesConn_bind; [apply usesConn_onDB|]. intros r.
    apply usesConn_bind; [apply usesConn_record; exact Hq2|]. intros _.
    apply usesConn_ret. }
  intros [[res|] [e|]]; try apply usesConn_ret; try apply usesConn_panic.
  apply usesConn_bind.
  { destruct (0 <? fst (RowsAffected res)); [|apply usesConn_ret].
    destruct m as [[tm|other]|]; try apply usesConn_ret.
    apply selectJoins_usesConn. }
  intros [e|]; [apply usesConn_ret|].
  apply usesConn_getQuery; intros q3 Hq3.
  apply usesConn_bind.
  { destruct (table q3) as [t|]; [|apply usesConn_ret].
    unfold afterSelectHook. destruct (AfterSelectHook X t) as [hook|] eqn:E;
      [|apply usesConn_ret].
    apply usesConn_onQuery. intros q0 x. apply (afterSelect_keeps K _ E). }
  intros [e|]; apply usesConn_ret.
Qed.

Lemma Count_usesConn c ctx : usesConn c (Count R X ctx).
Proof.
  unfold Count.
  apply usesConn_getQuery; intros q Hq.
  destruct (err q); [apply usesConn_ret|].
  apply usesConn_bind.
  { apply usesConn_putQuery. rewrite (comment_keeps K). exact Hq. }
  intros _. apply usesConn_bind.
  { apply usesConn_render. intros q0 fm b0.
    apply RenderFacts.countQuery_AppendQuery_conn. apply (userFn_keeps K). }
  intros [query [e|]]; [apply usesConn_ret|].
  apply usesConn_bind; [apply usesConn_db_beforeQuery|]. intros ce.
  apply usesConn_getQuery; intros q1 Hq1.
  apply usesConn_bind; [apply usesConn_onExt|]. intros r.
  apply usesConn_bind; [apply usesConn_record; exact Hq1|]. intros _.
  apply usesConn_bind; [apply usesConn_db_afterQuery|]. intros _.
  apply usesConn_ret.
Qed.

Lemma scanAndCountSeq_usesConn c ctx dest :
  usesConn c (scanAndCountSeq R X ctx dest).
Proof.
  unfold scanAndCountSeq, Scan.
  apply usesConn_getQuery; intros q Hq.
  apply usesConn_bind.
  { destruct (0 <=? limit q); [|apply usesConn_ret].
    apply usesConn_bind; [apply scanResult_usesConn|]. intros r. apply usesConn_ret. }
  intros firstErr. apply usesConn_bind; [apply Count_usesConn|].
  intros r. apply usesConn_ret.
Qed.

End Pinned.

(** *** Count, and scan with count *)

(** [Count] never panics; it issues no statement (and then reports an
    error with count 0) or one row query, on the connection the query
    resolves to, whose reply is what it returns. *)
Lemma Count_shape ctx (s : state) :
  exists n e s',
    Count R X ctx s = Done (n, e) s'
    /\ ((stLog s' = stLog s /\ n = 0 /\ e <> None)
        \/ exists query,
             stLog s' = stLog s
                        ++ [{| sent := stmtQueryRow (resolveConn (stQuery s'))
                                         countQueryApp query;
                               got := gotInt n e |}]).
Proof.
  unfold Count, bind, getQuery, putQuery, render, db_beforeQuery, onExt, record, ret.
  cbn [stQuery stDB stExt stLog].
  destruct (err (stQuery s)) as [e0|] eqn:E0.
  { do 3 eexists. split; [reflexivity|]. left. repeat split. discriminate. }
  destruct (countQuery_AppendQuery R _ _ _) as [[query [e1|]] q1].
  { do 3 eexists. split; [reflexivity|]. left. repeat split. discriminate. }
  cbn [stQuery stDB stExt stLog].
  destruct (Hook.beforeQuery _ _ _ _ _ _ _) as [[[ctx' ev] db1] x1].
  cbn [stQuery stDB stExt stLog fst snd].
  destruct (QueryRowScanInt X _ _ _ _) as [[n e] x2].
  cbn [stQuery stDB stExt stLog fst snd].
  match goal with
  | |- context [db_afterQuery ?c ?v ?r ?er ?st] =>
      destruct (db_afterQuery_returns c v r er st) as (db3 & x3 & E); rewrite E
  end.
  do 3 eexists. split; [reflexivity|]. right. eexists. reflexivity.
Qed.

(** What [Count] leaves, for the calls that run it after something else. *)
Lemma Count_outcome ctx (s : state) :
  exists n e s',
    Count R X ctx s = Done (n, e) s'
    /\ ((stLog s' = stLog s /\ n = 0 /\ e <> None)
        \/ exists query,
             stLog s' = stLog s
                        ++ [{| sent := stmtQueryRow (resolveConn (stQuery s'))
                                         countQueryApp query;
                               got := gotInt n e |}]).
Proof.
  unfold Count, bind, getQuery, putQuery, render, db_beforeQuery, onExt, record, ret.
  cbn [stQuery stDB stExt stLog].
  destruct (err (stQuery s)) as [e0|] eqn:E0.
  { do 3 eexists. split; [reflexivity|]. left. repeat split. discriminate. }
  destruct (countQuery_AppendQuery R _ _ _) as [[query [e1|]] q1].
  { do 3 eexists. split; [reflexivity|]. left. repeat split. discriminate. }
  cbn [stQuery stDB stExt stLog].
  destruct (Hook.beforeQuery _ _ _ _ _ _ _) as [[[ctx' ev] db1] x1].
  cbn [stQuery stDB stExt stLog fst snd].
  destruct (QueryRowScanInt X _ _ _ _) as [[n e] x2].
  cbn [stQuery stDB stExt stLog fst snd].
  match goal with
  | |- context [db_afterQuery ?c ?v ?r ?er ?st] =>
      destruct (db_afterQuery_returns c v r er st) as (db3 & x3 & E); rewrite E
  end.
  do 3 eexists. split; [reflexivity|]. right. eexists. reflexivity.
Qed.

(** C9, as the code has it.  With limit 0 and offset 0, [ScanAndCount] is one
    [scanResult]: it issues the primary scan (and the follow-up statements
    of that scan) and no count statement, and the count it returns is the
    affected-row count of that scan's reply.  With a limit or an offset and a
    pinned connection it runs [Scan] and then [Count] on the same query, one
    after the other, and returns the count with the first error of the two
    (nil if neither failed); when the limit is negative the scan is left
    out and only [Count] runs.  Where the closures and hooks of the query
    leave its connection alone, every statement of that run, follow-up
    statements included, is issued on the pinned connection.  In the log:
    whenever the call returns, what it issued is what a scan issues (nothing
    at all for a negative limit) and after it the count statement, a row
    query with the count rendering, whose reply holds the count returned;
    the count statement is missing only when the call returns an error with
    count 0, and a call that returns no error has issued the scan, unless
    the limit is negative, and the count statement, both answered without
    error. *)
Theorem ScanAndCount_one_scan_or_scan_then_count ctx dest (s : state) :
  (limit (stQuery s) = 0 -> offset (stQuery s) = 0 ->
   scanLogShape (stLog s)
     (stLog (finalState (ScanAndCount R X concurrently ctx dest s)))
   /\ forall n s',
        ScanAndCount R X concurrently ctx dest s = Done (n, None) s' ->
        exists c query r rest,
          stLog s' = stLog s
                     ++ {| sent := stmtScan c query; got := gotResult (Some r) None |}
                        :: rest
          /\ followUps rest
          /\ RowsAffected r = (n, None))
  /\
  (forall c,
     conn (stQuery s) = Some c ->
     limit (stQuery s) <> 0 \/ offset (stQuery s) <> 0 ->
     ScanAndCount R X concurrently ctx dest s
     = if 0 <=? limit (stQuery s)
       then match Scan R X ctx dest s with
            | Panic s1 => Panic s1
            | Done e1 s1 =>
                match Count R X ctx s1 with
                | Panic s2 => Panic s2
                | Done (n, e2) s2 =>
                    Done (n, match e1 with Some e => Some e | None => e2 end) s2
                end
            end
       else match Count R X ctx s with
            | Panic s2 => Panic s2
            | Done (n, e2) s2 => Done (n, e2) s2
            end)
  /\
  (forall c,
     keepsConn ->
     conn (stQuery s) = Some c ->
     limit (stQuery s) <> 0 \/ offset (stQuery s) <> 0 ->
     exists rest,
       stLog (finalState (ScanAndCount R X concurrently ctx dest s))
       = stLog s ++ rest
       /\ allOn (Some c) rest)
  /\
  (forall c,
     conn (stQuery s) = Some c ->
     limit (stQuery s) <> 0 \/ offset (stQuery s) <> 0 ->
     forall n e s',
       ScanAndCount R X concurrently ctx dest s = Done (n, e) s' ->
       exists mid,
         (if 0 <=? limit (stQuery s)
          then scanLogShape (stLog s) mid
          else mid = stLog s)
         /\ (e = None -> 0 <= limit (stQuery s) ->
             exists c0 q0 r rest,
               mid = stLog s
                     ++ {| sent := stmtScan c0 q0; got := gotResult (Some r) None |}
                        :: rest
               /\ followUps rest)
         /\ ((stLog s' = mid /\ n = 0 /\ e <> None)
             \/ exists query e2,
                  stLog s'
                  = mid ++ [{| sent := stmtQueryRow (resolveConn (stQuery s'))
                                         countQueryApp query;
                               got := gotInt n e2 |}]
                  /\ (e = None -> e2 = None))).
Proof.
  assert (Seq : forall c,
            conn (stQuery s) = Some c ->
            limit (stQuery s) <> 0 \/ offset (stQuery s) <> 0 ->
            ScanAndCount R X concurrently ctx dest s
            = scanAndCountSeq R X ctx dest s).
  { intros c Hc Hlo. unfold ScanAndCount, bind, getQuery.
    assert (Hz : (offset (stQuery s) =? 0) && (limit (stQuery s) =? 0) = false).
    { apply andb_false_iff. destruct Hlo as [H|H]; [right|left]; now apply Z.eqb_neq. }
    rewrite Hz, Hc. reflexivity. }
  split; [|split; [|split]].
  3: { intros c K Hc Hlo. rewrite (Seq c Hc Hlo).
       apply (scanAndCountSeq_usesConn K ctx dest s Hc). }
  3: { intros c Hc Hlo n e s'. rewrite (Seq c Hc Hlo).
       unfold scanAndCountSeq, Scan, bind, getQuery, ret.
       destruct (0 <=? limit (stQuery s)) eqn:Hlim.
       - pose proof (scanResult_shape ctx dest s) as Hsh.
         pose proof (scanResult_log ctx dest s) as Hlog.
         destruct (scanResult R X ctx dest s) as [[res e1] s1|s1]; [|discriminate].
         cbn [finalState snd] in *.
         destruct (Count_outcome ctx s1) as (n2 & e2 & s2 & EC & HC). rewrite EC.
         cbn [fst snd]. intros H.
         assert (Hn : n = n2) by (destruct e2, e1; congruence).
         assert (Hs : s' = s2) by (destruct e2, e1; congruence).
         subst n s'. exists (stLog s1). split; [exact Hlog|]. split.
         + intros He _. destruct e1 as [e1|]; [destruct e2; congruence|].
           destruct Hsh as (c0 & q0 & r & rest & _ & E & F & _).
           exists c0, q0, r, rest. split; assumption.
         + destruct HC as [(L & Z0 & Ne)|(query & L)].
           * left. repeat split; try assumption.
             destruct e2 as [e2|]; [|congruence].
             destruct e1; intros C; congruence.
           * right. exists query, e2. split; [exact L|].
             intros He. destruct e2 as [e2|]; [|reflexivity].
             destruct e1; congruence.
       - destruct (Count_outcome ctx s) as (n2 & e2 & s2 & EC & HC). rewrite EC.
         cbn [fst snd]. intros H.
         assert (Hn : n = n2) by (destruct e2; congruence).
         assert (Hs : s' = s2) by (destruct e2; congruence).
         assert (He : e = e2) by (destruct e2; congruence).
         subst n s' e. exists (stLog s). split; [reflexivity|]. split.
         + intros _ Hpos. apply Z.leb_gt in Hlim. lia.
         + destruct HC as [(L & Z0 & Ne)|(query & L)].
           * left. repeat split; assumption.
           * right. exists query, e2. split; [exact L|]. intros He. exact He. }
  - intros Hl Ho. unfold ScanAndCount, bind, getQuery. rewrite Hl, Ho.
    cbn [Z.eqb andb].
    pose proof (scanResult_shape ctx dest s) as H.
    destruct (scanResult R X ctx dest s) as [[res [e|]] s'|s'].
    + split; [destruct res; exact H|]. unfold ret.
      intros n s'' C. destruct res; discriminate C.
    + destruct H as (c & query & r & rest & -> & E & F & P).
      assert (S : scanLogShape (stLog s) (stLog s')).
      { right. exists c, query, (Some r), None, rest. repeat split; eauto. }
      destruct (RowsAffected r) as [n [e|]] eqn:Er; unfold ret; cbn [finalState].
      * split; [exact S|]. intros n' s'' C. discriminate C.
      * split; [exact S|]. intros n' s'' C. injection C as <- <-.
        exists c, query, r, rest. repeat split; assumption.
    + split; [exact H|]. intros n s'' C. discriminate C.
  - intros c Hc Hlo. rewrite (Seq c Hc Hlo).
    unfold scanAndCountSeq, bind, getQuery, ret.
    destruct (0 <=? limit (stQuery s)).
    + destruct (Scan R X ctx dest s) as [e1 s1|s1]; [|reflexivity].
      destruct (Count R X ctx s1) as [[n e2] s2|s2]; [|reflexivity].
      cbn [fst snd]. destruct e1, e2; reflexivity.
    + destruct (Count R X ctx s) as [[n e2] s2|s2]; [|reflexivity].
      cbn [fst snd]. destruct e2; reflexivity.
Qed.

(** *** The sticky error on terminal calls *)

(** On a query that holds an error, every terminal call returns that error
    at once: nothing is rendered, no statement is issued, no hook runs, and
    the state is left as it was. *)
Lemma terminal_calls_return_recorded_error (s : state) (e : error) ctx dest :
  err (stQuery s) = Some e ->
  Rows_ R X ctx s = Done (None, Some e) s
  /\ Exec R X ctx dest s = Done (None, Some e) s
  /\ scanResult R X ctx dest s = Done (None, Some e) s
  /\ Scan R X ctx dest s = Done (Some e) s
  /\ Count R X ctx s = Done (0, Some e) s
  /\ Exists R X ctx s = Done (false, Some e) s.
Proof.
  intros H.
  unfold Rows_, Exec, Scan, scanResult, Count, Exists, bind, getQuery, ret.
  rewrite H. repeat split.
Qed.

(** *** Exists *)



(** *** Rows and Exec *)

(** [Rows] always returns.  It issues no statement and returns nil rows
    with an error, or issues exactly one query, on the connection the query
    resolves to, and returns what the connection answered to that query:
    its rows and its error. *)
Theorem Rows_issues_at_most_one_query ctx (s : state) :
  exists rows e s',
    Rows_ R X ctx s = Done (rows, e) s'
    /\ ((stLog s' = stLog s /\ rows = None /\ e <> None)
        \/ exists query ctx' x,
             stLog s' = stLog s
                        ++ [{| sent := stmtQuery (resolveConn (stQuery s')) query;
                               got := gotRows e |}]
             /\ fst (QueryContext X (resolveConn (stQuery s')) ctx' query x)
                = (rows, e)).
Proof.
  unfold Rows_, bind, getQuery, putQuery, onQuery, render, db_beforeQuery, onExt,
    record, ret.
  cbn [stQuery stDB stExt stLog].
  destruct (err (stQuery s)) as [e0|] eqn:E0.
  { do 3 eexists. split; [reflexivity|]. left. repeat split. discriminate. }
  destruct (beforeAppendModel X ctx _ _) as [[[e1|] q1] x1].
  { do 3 eexists. split; [reflexivity|]. left. repeat split. discriminate. }
  cbn [stQuery stDB stExt stLog].
  destruct (AppendQuery R _ _ _) as [[query [e2|]] q2].
  { do 3 eexists. split; [reflexivity|]. left. repeat split. discriminate. }
  cbn [stQuery stDB stExt stLog].
  destruct (Hook.beforeQuery _ _ _ _ _ _ _) as [[[ctx' ev] db1] x2].
  cbn [stQuery stDB stExt stLog fst snd].
  destruct (QueryContext X _ _ _ _) as [[rows e] x3] eqn:EQ.
  cbn [stQuery stDB stExt stLog fst snd].
  match goal with
  | |- context [db_afterQuery ?c ?v ?r ?er ?st] =>
      destruct (db_afterQuery_returns c v r er st) as (db3 & x4 & E); rewrite E
  end.
  do 3 eexists. split; [reflexivity|]. right. do 3 eexists.
  split; [reflexivity|]. cbn [withQueryDBExt stQuery]. rewrite EQ. reflexivity.
Qed.

(** [Exec] always returns.  It issues no statement and returns an error, or
    issues exactly one statement on the connection the query resolves to: a
    scan into the destinations if any was passed, an exec otherwise.  The
    error it returns is the one the statement gave, and the result is the
    statement's unless it failed. *)
Theorem Exec_issues_at_most_one_statement ctx dest (s : state) :
  exists res e s',
    Exec R X ctx dest s = Done (res, e) s'
    /\ ((stLog s' = stLog s /\ res = None /\ e <> None)
        \/ exists query got0,
             stLog s' = stLog s
                        ++ [{| sent := if (0 <? length dest)%nat
                                       then stmtScan (resolveConn (stQuery s')) query
                                       else stmtExec (resolveConn (stQuery s'))
                                              selectQueryApp query;
                               got := gotResult got0 e |}]
             /\ res = match e with Some _ => None | None => got0 end).
Proof.
  unfold Exec, q_scan, q_exec, bind, getQuery, putQuery, onQuery, render, onDB,
    record, ret.
  cbn [stQuery stDB stExt stLog].
  destruct (err (stQuery s)) as [e0|] eqn:E0.
  { do 3 eexists. split; [reflexivity|]. left. repeat split. discriminate. }
  destruct (beforeAppendModel X ctx _ _) as [[[e1|] q1] x1].
  { do 3 eexists. split; [reflexivity|]. left. repeat split. discriminate. }
  cbn [stQuery stDB stExt stLog].
  destruct (AppendQuery R _ _ _) as [[query [e2|]] q2].
  { do 3 eexists. split; [reflexivity|]. left. repeat split. discriminate. }
  cbn [stQuery stDB stExt stLog].
  destruct (0 <? length dest)%nat.
  - cbn [stQuery stDB stExt stLog].
    destruct (getModel X q2 dest) as [m [e3|]].
    { do 3 eexists. split; [reflexivity|]. left. repeat split. discriminate. }
    cbn [stQuery stDB stExt stLog].
    destruct (scan X _ _ _ _ _ _ _) as [[[res [e4|]] db1] x2];
      cbn [stQuery stDB stExt stLog fst snd];
      do 3 eexists; (split; [reflexivity|]); right; do 2 eexists;
      split; reflexivity.
  - destruct (exec X _ _ _ _ _ _) as [[[res [e4|]] db1] x2];
      cbn [stQuery stDB stExt stLog fst snd];
      do 3 eexists; (split; [reflexivity|]); right; do 2 eexists;
      split; reflexivity.
Qed.

(** *** Scanning into destinations with a to-many relation *)

Lemma hasToManyJoin_nonempty (js : list relationJoin) :
  hasToManyJoin js = true -> (0 <? length js)%nat = true.
Proof. destruct js; [discriminate | reflexivity]. Qed.

(** A scan into explicit destinations of a query whose table model has a
    has-many or many-to-many join at its top level is refused: the error is
    returned, no hook runs, nothing is rendered and no statement is
    issued. *)
Theorem scan_into_dest_refuses_to_many_relation ctx dest (s : state) tm m :
  err (stQuery s) = None ->
  getModel X (stQuery s) dest = (m, None) ->
  dest <> [] ->
  tableModel (stQuery s) = Some tm ->
  hasToManyJoin (tmJoins tm) = true ->
  scanResult R X ctx dest s = Done (None, Some errToManyDest) s
  /\ Scan R X ctx dest s = Done (Some errToManyDest) s.
Proof.
  intros He Hm Hd Htm Hj.
  assert (Hs : scanResult R X ctx dest s = Done (None, Some errToManyDest) s).
  { unfold scanResult, bind, getQuery. rewrite He, Hm, Htm, Hj.
    rewrite (hasToManyJoin_nonempty _ Hj).
    destruct dest; [congruence|]. reflexivity. }
  split; [exact Hs|]. unfold Scan, bind. rewrite Hs. reflexivity.
Qed.

(** *** The order of the follow-up statements *)

(** The follow-up statements of a join on connection [c]: one for a
    has-many or many-to-many join, those of the joins below it for a has-one
    or belongs-to join. *)
Fixpoint followUpsOf (c : option Conn) (j : relationJoin) : list statement :=
  match Type_ (rjRelation j) with
  | HasOneRelation | BelongsToRelation =>
      (fix each (js : list relationJoin) : list statement :=
         match js with
         | [] => []
         | k :: rest => followUpsOf c k ++ each rest
         end) (rjJoins j)
  | HasManyRelation => [stmtSelectMany c j]
  | ManyToManyRelation => [stmtSelectM2M c j]
  | invalidRelation => []
  end.

Lemma followUpsOf_unfold (c : option Conn) (j : relationJoin) :
  followUpsOf c j
  = match Type_ (rjRelation j) with
    | HasOneRelation | BelongsToRelation => flat_map (followUpsOf c) (rjJoins j)
    | HasManyRelation => [stmtSelectMany c j]
    | ManyToManyRelation => [stmtSelectM2M c j]
    | invalidRelation => []
    end.
Proof.
  destruct j as [rel tbl below ap cols more]. cbn [followUpsOf rjRelation rjJoins].
  destruct (Type_ rel); try reflexivity.
  all: induction below as [|k ks IH]; [reflexivity|];
       cbn [flat_map]; now rewrite <- IH.
Qed.

(** A statement that was answered with no error. *)
Definition succeeded (x : exchange) : Prop := got x = gotErr None.

(** A run through the statements [stmts], in order, that leaves the query
    alone and ends at the first statement that fails, whose error it
    returns. *)
Definition runsInOrder (stmts : option Conn -> list statement)
    (m : M Ctx Time Ext (option error)) : Prop :=
  forall s,
    exists rest later,
      stLog (finalState (m s)) = stLog s ++ rest
      /\ stQuery (finalState (m s)) = stQuery s
      /\ stmts (conn (stQuery s)) = map sent rest ++ later
      /\ match m s with
         | Done None _ => later = [] /\ Forall succeeded rest
         | Done (Some e) _ =>
             exists init x,
               rest = init ++ [x] /\ Forall succeeded init /\ got x = gotErr (Some e)
         | Panic _ => Forall succeeded rest
         end.

Lemma runsInOrder_nil : runsInOrder (fun _ => []) (ret None).
Proof.
  intros s. exists [], []. cbn. rewrite app_nil_r. repeat split; constructor.
Qed.

Lemma runsInOrder_seq (l1 l2 : option Conn -> list statement)
    (m1 m2 : M Ctx Time Ext (option error)) :
  runsInOrder l1 m1 -> runsInOrder l2 m2 ->
  runsInOrder (fun c => l1 c ++ l2 c)
    (bind m1 (fun e => match e with Some e => ret (Some e) | None => m2 end)).
Proof.
  intros H1 H2 s. unfold bind.
  destruct (H1 s) as (r1 & t1 & L1 & Q1 & S1 & O1).
  destruct (m1 s) as [[e|] s1|s1]; cbn [finalState] in *.
  - destruct O1 as (init & x & -> & Fi & Gx).
    exists (init ++ [x]), (t1 ++ l2 (conn (stQuery s))). unfold ret. cbn [finalState].
    repeat split; try assumption.
    + rewrite S1, app_assoc. reflexivity.
    + exists init, x. repeat split; assumption.
  - destruct O1 as (-> & F1).
    destruct (H2 s1) as (r2 & t2 & L2 & Q2 & S2 & O2).
    rewrite Q1 in S2. rewrite app_nil_r in S1.
    exists (r1 ++ r2), t2. repeat split.
    + rewrite L2, L1, app_assoc. reflexivity.
    + congruence.
    + rewrite S1, S2, map_app, app_assoc. reflexivity.
    + destruct (m2 s1) as [[e|] s2|s2].
      * destruct O2 as (init & x & -> & Fi & Gx).
        exists (r1 ++ init), x. rewrite app_assoc. repeat split; try assumption.
        apply Forall_app. split; assumption.
      * destruct O2 as (-> & F2). split; [reflexivity|].
        apply Forall_app. split; assumption.
      * apply Forall_app. split; assumption.
  - exists r1, (t1 ++ l2 (conn (stQuery s))). repeat split; try assumption.
    rewrite S1, app_assoc. reflexivity.
Qed.

Lemma runsInOrder_ext (l1 l2 : option Conn -> list statement)
    (m : M Ctx Time Ext (option error)) :
  (forall c, l1 c = l2 c) -> runsInOrder l1 m -> runsInOrder l2 m.
Proof.
  intros E H s. destruct (H s) as (r & t & L & Q & S & O).
  exists r, t. rewrite <- E. repeat split; assumption.
Qed.

Lemma selectJoins1_runsInOrder ctx (j : relationJoin) :
  runsInOrder (fun c => followUpsOf c j) (selectJoins1 X ctx j).
Proof.
  induction j as [j IH] using RenderFacts.relationJoin_induction.
  apply runsInOrder_ext with
    (l1 := fun c => match Type_ (rjRelation j) with
                    | HasOneRelation | BelongsToRelation =>
                        flat_map (followUpsOf c) (rjJoins j)
                    | HasManyRelation => [stmtSelectMany c j]
                    | ManyToManyRelation => [stmtSelectM2M c j]
                    | invalidRelation => []
                    end);
    [intros c; symmetry; apply followUpsOf_unfold|].
  destruct j as [rel tbl below ap cols more]. cbn [rjJoins rjRelation] in *.
  cbn [selectJoins1 rjRelation rjJoins].
  destruct (Type_ rel).
  1, 2: induction IH as [|k ks Hk _ IHks]; cbn [flat_map];
        [ apply runsInOrder_nil | apply runsInOrder_seq; assumption ].
  - intros s. unfold bind, getQuery, onDB, record, ret.
    destruct (selectMany X _ _ _ _ _) as [[[e|] db] x]; cbn [finalState stLog stQuery].
    + eexists. exists []. do 3 (split; [reflexivity|]).
      exists []. eexists. split; [reflexivity|]. split; [constructor | reflexivity].
    + eexists. exists []. do 3 (split; [reflexivity|]).
      split; [reflexivity | repeat constructor].
  - intros s. unfold bind, getQuery, onDB, record, ret.
    destruct (selectM2M X _ _ _ _ _) as [[[e|] db] x]; cbn [finalState stLog stQuery].
    + eexists. exists []. do 3 (split; [reflexivity|]).
      exists []. eexists. split; [reflexivity|]. split; [constructor | reflexivity].
    + eexists. exists []. do 3 (split; [reflexivity|]).
      split; [reflexivity | repeat constructor].
  - intros s. exists [], []. unfold panic. cbn. rewrite app_nil_r.
    repeat split; constructor.
Qed.

(** [selectJoins] issues the follow-up statements of the joins in order,
    each on the connection of the query, leaves the query as it was, stops at
    the first statement that fails and returns its error; if it returns no
    error it has issued all of them. *)
Theorem selectJoins_in_order_until_first_error ctx (js : list relationJoin) (s : state) :
  exists rest later,
    stLog (finalState (selectJoins X ctx js s)) = stLog s ++ rest
    /\ stQuery (finalState (selectJoins X ctx js s)) = stQuery s
    /\ flat_map (followUpsOf (conn (stQuery s))) js = map sent rest ++ later
    /\ match selectJoins X ctx js s with
       | Done None _ => later = [] /\ Forall succeeded rest
       | Done (Some e) _ =>
           exists init x,
             rest = init ++ [x] /\ Forall succeeded init /\ got x = gotErr (Some e)
       | Panic _ => Forall succeeded rest
       end.
Proof.
  revert s.
  change (runsInOrder (fun c => flat_map (followUpsOf c) js) (selectJoins X ctx js)).
  induction js as [|j js IH]; cbn [selectJoins flat_map].
  - apply runsInOrder_nil.
  - apply runsInOrder_seq; [apply selectJoins1_runsInOrder | exact IH].
Qed.

(** *** Exists on the PostgreSQL dialect *)

#[local] Unset Implicit Arguments.

(** On a handle whose dialect is the one [pgdialect.New] builds, [Exists]
    takes the [SELECT EXISTS] form for every query that holds no error. *)
Theorem Exists_on_pgdialect_is_native
    (CTE WithValues Returning InsertReturning DefaultPlaceholder
     DoubleColonCast InsertTableAlias UpdateTableAlias DeleteTableAlias
     TableCascade TableIdentity TableTruncate TableNotExists InsertOnConflict
     GeneratedIdentity CompositeIn : feature.Feature) ctx (s : state) :
  dbFeatures X
  = PgdialectDialect.Features
      (PgdialectDialect.New CTE WithValues Returning InsertReturning
         DefaultPlaceholder DoubleColonCast InsertTableAlias UpdateTableAlias
         DeleteTableAlias TableCascade TableIdentity TableTruncate TableNotExists
         InsertOnConflict (SelectExists X) GeneratedIdentity CompositeIn) ->
  err (stQuery s) = None ->
  Exists R X ctx s = selectExists R X ctx s.
Proof.
  intros Hf He. unfold Exists, bind, getQuery. rewrite He.
  unfold hasFeature. rewrite Hf.
  unfold PgdialectDialect.Features, PgdialectDialect.New.
  cbn [PgdialectDialect.features].
  match goal with
  | |- context [feature.Has ?f ?x] =>
      assert (H : feature.Has f x = true)
        by (repeat first [apply PgdialectFacts.Has_lor_r | apply PgdialectFacts.Has_lor_l]);
      rewrite H
  end.
  reflexivity.
Qed.

#[local] Set Implicit Arguments.

End Terminal.


Example Exists_native_form :
  exists s',
    Exists Fixtures.specRenderer (Fixtures.specRuntime Fixtures.selectExistsBit) None
      (Fixtures.start Fixtures.adults 3)
    = Done (true, None) s'
    /\ stLog s'
       = [ {| sent := stmtQueryRow None selectExistsQueryApp
                        "SELECT EXISTS (SELECT * FROM users WHERE (age > 18))";
              got := gotBool true None |} ].
Proof. eexists. split; reflexivity. Qed.

Example Exists_portable_form_with_rows :
  exists s',
    Exists Fixtures.specRenderer (Fixtures.specRuntime 0) None
      (Fixtures.start Fixtures.adults 3)
    = Done (true, None) s'.
Proof. eexists. reflexivity. Qed.

(** A scan of users with their orders: no follow-up statement when the
    scan affects no row, one when it affects two. *)
Example Scan_without_rows_has_no_followup :
  exists s',
    Scan Fixtures.specRenderer (Fixtures.specRuntime 0) None []
      (Fixtures.start Fixtures.usersWithOrders 0)
    = Done None s'
    /\ map (fun x => isFollowUp (sent x)) (stLog s') = [false].
Proof. eexists. split; reflexivity. Qed.

Example Scan_with_rows_has_followup :
  exists s',
    Scan Fixtures.specRenderer (Fixtures.specRuntime 0) None []
      (Fixtures.start Fixtures.usersWithOrders 2)
    = Done None s'
    /\ map (fun x => isFollowUp (sent x)) (stLog s') = [false; true].
Proof. eexists. split; reflexivity. Qed.

(** The closures and hooks of the small database leave the connection of
    the query alone. *)
Lemma specRuntime_keepsConn features :
  keepsConn Fixtures.specRenderer (Fixtures.specRuntime features).
Proof.
  constructor.
  - intros [|f] q; reflexivity.
  - intros [c|] q; reflexivity.
  - reflexivity.
  - intros t hook E. discriminate E.
  - intros t hook E. discriminate E.
Qed.

(** With limit 2 on a pinned connection: the scan, then the count. *)
Lemma ScanAndCount_one_scan_or_scan_then_count_witness :
  let s := Fixtures.start (Fixtures.pinnedLimit 2) 5 in
  let R := Fixtures.specRenderer in
  let X := Fixtures.specRuntime 0 in
  conn (stQuery s) = Some 7%nat
  /\ (limit (stQuery s) <> 0 \/ offset (stQuery s) <> 0)
  /\ (ScanAndCount R X Fixtures.notRun None [1%nat] s
     = if 0 <=? limit (stQuery s)
       then match Scan R X None [1%nat] s with
            | Panic s1 => Panic s1
            | Done e1 s1 =>
                match Count R X None s1 with
                | Panic s2 => Panic s2
                | Done (n, e2) s2 =>
                    Done (n, match e1 with Some e => Some e | None => e2 end) s2
                end
            end
       else match Count R X None s with
            | Panic s2 => Panic s2
            | Done (n, e2) s2 => Done (n, e2) s2
            end)
  /\ exists s',
       ScanAndCount R X Fixtures.notRun None [1%nat] s = Done (5, None) s'
       /\ exists mid,
            (if 0 <=? limit (stQuery s)
             then scanLogShape (stLog s) mid
             else mid = stLog s)
            /\ (@None error = None -> 0 <= limit (stQuery s) ->
                exists c0 q0 r rest,
                  mid = (stLog s
                         ++ {| sent := stmtScan c0 q0; got := gotResult (Some r) None |}
                            :: rest)%list
                  /\ followUps rest)
            /\ ((stLog s' = mid /\ 5 = 0 /\ @None error <> None)
                \/ exists query e2,
                     stLog s'
                     = (mid ++ [{| sent := stmtQueryRow (resolveConn (stQuery s'))
                                             countQueryApp query;
                                   got := gotInt 5 e2 |}])%list
                     /\ (@None error = None -> e2 = None)).
Proof.
  cbv zeta. split; [reflexivity|]. split; [left; discriminate|]. split.
  - apply (proj1 (proj2 (ScanAndCount_one_scan_or_scan_then_count
                           Fixtures.specRenderer (Fixtures.specRuntime 0)
                           Fixtures.notRun None [1%nat]
                           (Fixtures.start (Fixtures.pinnedLimit 2) 5)))
             7%nat).
    + reflexivity.
    + left. discriminate.
  - eexists. split; [vm_compute; reflexivity|].
    apply (proj2 (proj2 (proj2 (ScanAndCount_one_scan_or_scan_then_count
                                  Fixtures.specRenderer (Fixtures.specRuntime 0)
                                  Fixtures.notRun None [1%nat]
                                  (Fixtures.start (Fixtures.pinnedLimit 2) 5))))
             7%nat).
    + reflexivity.
    + left. discriminate.
    + vm_compute. reflexivity.
Defined.

(** That run, with five matching rows: both statements go to the pinned
    connection, the scan first, and no error is returned. *)
Example ScanAndCount_with_limit_on_pinned_connection :
  exists s',
    ScanAndCount Fixtures.specRenderer (Fixtures.specRuntime 0) Fixtures.notRun
      None [1%nat] (Fixtures.start (Fixtures.pinnedLimit 2) 5)
    = Done (5, None) s'
    /\ stLog s'
       = [ {| sent := stmtScan (Some 7%nat)
                        "SELECT * FROM users WHERE (age > 18) LIMIT 2";
              got := gotResult (Some {| RowsAffected := (5, None) |}) None |};
           {| sent := stmtQueryRow (Some 7%nat) countQueryApp
                        "SELECT count(*) FROM users WHERE (age > 18)";
              got := gotInt 5 None |} ].
Proof. eexists. split; vm_compute; reflexivity. Qed.

(** With limit -1 on a pinned connection, a limit is present and yet no scan
    statement is run: the count statement is the only one.  And with no
    limit and no offset, the scan of the users with their orders, affecting
    two rows, is followed by the follow-up statement of that relation: two
    statements are executed, not one. *)
Lemma negative_limit_skips_the_scan :
  conn (Fixtures.pinnedLimit (-1)) = Some 7%nat
  /\ limit (Fixtures.pinnedLimit (-1)) <> 0
  /\ (exists s',
        ScanAndCount Fixtures.specRenderer (Fixtures.specRuntime 0) Fixtures.notRun
          None [1%nat] (Fixtures.start (Fixtures.pinnedLimit (-1)) 5)
        = Done (5, None) s'
        /\ stLog s'
           = [ {| sent := stmtQueryRow (Some 7%nat) countQueryApp
                            "SELECT count(*) FROM users WHERE (age > 18)";
                  got := gotInt 5 None |} ])
  /\ limit Fixtures.usersWithOrders = 0
  /\ offset Fixtures.usersWithOrders = 0
  /\ (exists s',
        ScanAndCount Fixtures.specRenderer (Fixtures.specRuntime 0) Fixtures.notRun
          None [] (Fixtures.start Fixtures.usersWithOrders 2)
        = Done (2, None) s'
        /\ map (fun x => isFollowUp (sent x)) (stLog s') = [false; true]).
Proof.
  split; [reflexivity|]. split; [discriminate|].
  split; [eexists; split; vm_compute; reflexivity|].
  split; [reflexivity|]. split; [reflexivity|].
  eexists. split; vm_compute; reflexivity.
Qed.

(** With no limit and no offset: one scan, whose affected-row count is the
    count returned. *)
Example ScanAndCount_without_limit :
  exists s',
    ScanAndCount Fixtures.specRenderer (Fixtures.specRuntime 0) Fixtures.notRun
      None [1%nat] (Fixtures.start Fixtures.adults 5)
    = Done (5, None) s'
    /\ stLog s'
       = [ {| sent := stmtScan None "SELECT * FROM users WHERE (age > 18)";
              got := gotResult (Some {| RowsAffected := (5, None) |}) None |} ].
Proof. eexists. split; reflexivity. Qed.

(** Every terminal call on the query with a join condition and no join
    returns the error that call recorded. *)
Lemma terminal_calls_return_recorded_error_witness :
  let s := Fixtures.start Fixtures.joinOnWithoutJoin 3 in
  let e := errorString "bun: query has no joins" in
  err (stQuery s) = Some e
  /\ Rows_ Fixtures.specRenderer (Fixtures.specRuntime 0) None s = Done (None, Some e) s
  /\ Exec Fixtures.specRenderer (Fixtures.specRuntime 0) None [] s = Done (None, Some e) s
  /\ scanResult Fixtures.specRenderer (Fixtures.specRuntime 0) None [] s
     = Done (None, Some e) s
  /\ Scan Fixtures.specRenderer (Fixtures.specRuntime 0) None [] s = Done (Some e) s
  /\ Count Fixtures.specRenderer (Fixtures.specRuntime 0) None s = Done (0, Some e) s
  /\ Exists Fixtures.specRenderer (Fixtures.specRuntime 0) None s
     = Done (false, Some e) s.
Proof.
  cbv zeta. split; [reflexivity|].
  exact (terminal_calls_return_recorded_error Fixtures.specRenderer
           (Fixtures.specRuntime 0) (Fixtures.start Fixtures.joinOnWithoutJoin 3)
           None [] eq_refl).
Defined.

(** [Rows] sends one query; [Exec] sends an exec without destinations and a
    scan with one. *)
Example Rows_sends_one_query :
  exists s',
    Rows_ Fixtures.specRenderer (Fixtures.specRuntime 0) None
      (Fixtures.start Fixtures.adults 3)
    = Done (Some [3], None) s'
    /\ stLog s'
       = [ {| sent := stmtQuery None "SELECT * FROM users WHERE (age > 18)";
              got := gotRows None |} ].
Proof. eexists. split; vm_compute; reflexivity. Qed.

Example Exec_without_destination_execs :
  exists s',
    Exec Fixtures.specRenderer (Fixtures.specRuntime 0) None []
      (Fixtures.start Fixtures.adults 3)
    = Done (Some {| RowsAffected := (1, None) |}, None) s'
    /\ stLog s'
       = [ {| sent := stmtExec None selectQueryApp
                        "SELECT * FROM users WHERE (age > 18)";
              got := gotResult (Some {| RowsAffected := (1, None) |}) None |} ].
Proof. eexists. split; vm_compute; reflexivity. Qed.

Example Exec_with_destination_scans :
  exists s',
    Exec Fixtures.specRenderer (Fixtures.specRuntime 0) None [1%nat]
      (Fixtures.start Fixtures.adults 3)
    = Done (Some {| RowsAffected := (3, None) |}, None) s'
    /\ stLog s'
       = [ {| sent := stmtScan None "SELECT * FROM users WHERE (age > 18)";
              got := gotResult (Some {| RowsAffected := (3, None) |}) None |} ].
Proof. eexists. split; vm_compute; reflexivity. Qed.

(** The follow-up statements of the nested joins: the orders below the
    profile, then the orders of the user; with a follow-up that fails, the
    first is the last. *)
Example selectJoins_of_nested_joins :
  exists s',
    selectJoins (Fixtures.specRuntime 0) None Fixtures.nestedJoins
      (Fixtures.start Fixtures.adults 1)
    = Done None s'
    /\ map sent (stLog s')
       = [ stmtSelectMany None Fixtures.ordersJoin;
           stmtSelectMany None (set_rjJoins Fixtures.ordersJoin [Fixtures.profileJoin]) ]
    /\ map got (stLog s') = [gotErr None; gotErr None].
Proof. eexists. repeat split; vm_compute; reflexivity. Qed.

Example selectJoins_stops_at_first_error :
  exists s',
    selectJoins Fixtures.refusingRuntime None Fixtures.nestedJoins
      (Fixtures.start Fixtures.adults 1)
    = Done (Some (errorString "relation refused")) s'
    /\ map sent (stLog s') = [ stmtSelectMany None Fixtures.ordersJoin ]
    /\ map got (stLog s') = [gotErr (Some (errorString "relation refused"))].
Proof. eexists. repeat split; vm_compute; reflexivity. Qed.

(** A scan of the users with their orders into an explicit destination:
    refused, with nothing sent. *)
Lemma scan_into_dest_refuses_to_many_relation_witness :
  let s := Fixtures.start Fixtures.usersWithOrders 2 in
  scanResult Fixtures.specRenderer (Fixtures.specRuntime 0) None [1%nat] s
  = Done (None, Some errToManyDest) s
  /\ Scan Fixtures.specRenderer (Fixtures.specRuntime 0) None [1%nat] s
     = Done (Some errToManyDest) s.
Proof.
  cbv zeta.
  apply (@scan_into_dest_refuses_to_many_relation _ Fixtures.specRenderer
           _ _ _ _ (Fixtures.specRuntime 0) None [1%nat]
           (Fixtures.start Fixtures.usersWithOrders 2)
           {| tmTable := Fixtures.usersTable;
              tmJoins := [set_rjApply Fixtures.ordersJoin
                            (Some {| apply1 := false; apply2 := None |})] |}
           (Some (otherModel [1%nat]))).
  - reflexivity.
  - reflexivity.
  - discriminate.
  - reflexivity.
  - reflexivity.
Defined.

(** On a handle with the capabilities of the PostgreSQL dialect, the adults
    with three matching rows: one row query in the [SELECT EXISTS] form. *)
Lemma Exists_on_pgdialect_is_native_witness :
  let X := Fixtures.specRuntime Fixtures.pgFeatures in
  let s := Fixtures.start Fixtures.adults 3 in
  Exists Fixtures.specRenderer X None s = selectExists Fixtures.specRenderer X None s
  /\ exists s',
       Exists Fixtures.specRenderer X None s = Done (true, None) s'
       /\ stLog s'
          = [ {| sent := stmtQueryRow None selectExistsQueryApp
                           "SELECT EXISTS (SELECT * FROM users WHERE (age > 18))";
                 got := gotBool true None |} ].
Proof.
  cbv zeta.
  pose proof (@Exists_on_pgdialect_is_native _ Fixtures.specRenderer _ _ _ _
                (Fixtures.specRuntime Fixtures.pgFeatures)
                (Z.shiftl 1 0) (Z.shiftl 1 1) (Z.shiftl 1 2) (Z.shiftl 1 3)
                (Z.shiftl 1 5) (Z.shiftl 1 6) (Z.shiftl 1 9) (Z.shiftl 1 10)
                (Z.shiftl 1 11) (Z.shiftl 1 14) (Z.shiftl 1 15) (Z.shiftl 1 16)
                (Z.shiftl 1 20) (Z.shiftl 1 17) (Z.shiftl 1 25) (Z.shiftl 1 26)
                None (Fixtures.start Fixtures.adults 3) eq_refl eq_refl) as H.
  split; [exact H|].
  eexists. split; vm_compute; reflexivity.
Defined.

End ExecFacts.
